(** * go-rsync-backup: a shallow embedding of the backup-run lifecycle

    The development follows the Go sources file by file:
    - [variables.go]  : the default configuration and the rsync flag sets;
    - [config.go]     : [Config], [ConfigFile], [LoadConfig], [SaveConfig];
    - [main.go]       : [Backup], [NewBackup] and the methods of [Backup]
                        ([validateConfig], [checkDiskSpace], [findRsync],
                        [runRsync], [parseTransferredGB], [finalizeBackup],
                        [updateLatestLink], [cleanupOldBackups], [Run]),
                        and [main];
    - the access check: [checkFullDiskAccess] and its closure [tryRead],
                        over a host of their own ([Access]).

    Go's [int] is the 64-bit two's-complement integer, modelled as [Z] with the
    wrap-around written out where arithmetic can overflow.  Go strings are byte
    strings, modelled as [string] (one [ascii] per byte); [float64] is Rocq's
    primitive binary64 [float].  The Go library functions the program calls
    ([strings], [unicode], [unicode/utf8], [strconv], [path/filepath],
    [regexp], [time]) are written out for the arguments the program gives
    them.

    The operating system is explicit.  What a run changes (the children of
    the destination directory, the lock directory, the lines it logs, the
    commands and system calls it makes) is the state [World], threaded
    through a state-and-error monad [M]; what the host answers to a run (the
    output of [df] and of [rsync --version], the result of [os.Stat], the
    failure of a system call) is the environment [Env], over which every
    general statement is quantified.  The signal listener of [Run] runs beside
    the sequence [Run] models: its handler is [cleanup], and a signal that is
    delivered while the checks before the lock run is
    [interruptedBeforeLock]. *)

From Stdlib Require Import ZArith List String Ascii Bool Lia Sorted Permutation.
From Stdlib Require Import Floats Uint63.
From stdpp Require Import base list strings sorting.

Local Open Scope string_scope.
Local Open Scope Z_scope.
Local Open Scope list_scope.

(** ** The Go library functions the program calls *)

(** [unicode/utf8]: [DecodeRuneInString], the decoder that [strings.Fields]
    and a [range] over a string share.  A rune is its code point. *)
Module Utf8.

Definition RuneError : N := 0xFFFD%N.

Definition RuneSelf : N := 0x80%N.

(** The byte at an index of a string that is long enough. *)
Definition byteAt (s : string) (i : nat) : N :=
  match String.get i s with
  | Some c => N_of_ascii c
  | None => 0%N
  end.

(** The tables [first] and [acceptRanges] for a byte of 0x80 and above: the
    length of the sequence the byte leads and the bounds of the second
    byte; [None] for a byte that leads no sequence. *)
Definition first (s0 : N) : option (nat * (N * N)) :=
  (if s0 <? 0xC2 then None
   else if s0 <=? 0xDF then Some (2%nat, (0x80, 0xBF))
   else if s0 =? 0xE0 then Some (3%nat, (0xA0, 0xBF))
   else if s0 <=? 0xEC then Some (3%nat, (0x80, 0xBF))
   else if s0 =? 0xED then Some (3%nat, (0x80, 0x9F))
   else if s0 <=? 0xEF then Some (3%nat, (0x80, 0xBF))
   else if s0 =? 0xF0 then Some (4%nat, (0x90, 0xBF))
   else if s0 <=? 0xF3 then Some (4%nat, (0x80, 0xBF))
   else if s0 =? 0xF4 then Some (4%nat, (0x80, 0x8F))
   else None)%N.

(** [b < locb || hicb < b]: not a continuation byte. *)
Definition notContinuation (b : N) : bool := ((b <? 0x80) || (0xBF <? b))%N.

(** The rune at the head of [s] and its width in bytes; an invalid or short
    sequence is [RuneError] of width 1. *)
Definition DecodeRuneInString (s : string) : N * nat :=
  let n := String.length s in
  if (n <? 1)%nat then (RuneError, 0%nat)
  else
    let s0 := byteAt s 0 in
    if (s0 <? RuneSelf)%N then (s0, 1%nat)
    else
      match first s0 with
      | None => (RuneError, 1%nat)
      | Some (sz, (lo, hi)) =>
          if (n <? sz)%nat then (RuneError, 1%nat)
          else
            let s1 := byteAt s 1 in
            if ((s1 <? lo) || (hi <? s1))%N then (RuneError, 1%nat)
            else if (sz <=? 2)%nat then
              (N.lor (N.shiftl (N.land s0 0x1F) 6) (N.land s1 0x3F), 2%nat)
            else
              let s2 := byteAt s 2 in
              if notContinuation s2 then (RuneError, 1%nat)
              else if (sz <=? 3)%nat then
                (N.lor (N.shiftl (N.land s0 0x0F) 12)
                   (N.lor (N.shiftl (N.land s1 0x3F) 6) (N.land s2 0x3F)),
                 3%nat)
              else
                let s3 := byteAt s 3 in
                if notContinuation s3 then (RuneError, 1%nat)
                else
                  (N.lor (N.shiftl (N.land s0 0x07) 18)
                     (N.lor (N.shiftl (N.land s1 0x3F) 12)
                        (N.lor (N.shiftl (N.land s2 0x3F) 6)
                           (N.land s3 0x3F))),
                   4%nat)
      end.

End Utf8.

(** [unicode]: [IsSpace], the Latin-1 cases and the table [White_Space]. *)
Module Unicode.

Definition IsSpace (r : N) : bool :=
  (if r <=? 0xFF then
     ((0x09 <=? r) && (r <=? 0x0D)) || (r =? 0x20) || (r =? 0x85)
     || (r =? 0xA0)
   else
     (r =? 0x1680) || ((0x2000 <=? r) && (r <=? 0x200A))
     || (r =? 0x2028) || (r =? 0x2029) || (r =? 0x202F) || (r =? 0x205F)
     || (r =? 0x3000))%N.

End Unicode.

(** [strings]: [Contains], [HasSuffix], [TrimSuffix], [Split], [Fields],
    [FieldsFunc], [ReplaceAll], [Join], on byte strings. *)
Module Strings.

Fixpoint Contains (s substr : string) : bool :=
  if String.prefix substr s then true
  else match s with
       | EmptyString => false
       | String _ s' => Contains s' substr
       end.

Definition HasSuffix (s suffix : string) : bool :=
  let n := String.length s in
  let k := String.length suffix in
  (k <=? n)%nat && String.eqb (String.substring (n - k) k s) suffix.

Definition TrimSuffix (s suffix : string) : string :=
  if HasSuffix s suffix
  then String.substring 0 (String.length s - String.length suffix) s
  else s.

(** [Split s sep] for a one-byte separator (the program splits on a newline
    and on a dot): the pieces between the separators, [s] itself when the
    separator does not occur, one empty piece for the empty string. *)
Fixpoint Split (s : string) (sep : ascii) : list string :=
  match s with
  | EmptyString => [EmptyString]
  | String c s' =>
      if Ascii.eqb c sep then EmptyString :: Split s' sep
      else match Split s' sep with
           | p :: ps => String c p :: ps
           | [] => [String c EmptyString]
           end
  end.

(** The table [asciiSpace]: tab, line feed, vertical tab, form feed,
    carriage return and space. *)
Definition asciiSpace (c : ascii) : bool :=
  let n := N_of_ascii c in
  ((9 <=? n) && (n <=? 13))%N || (n =? 32)%N.

(** The path of [Fields] for a string of ASCII bytes: the maximal runs of
    bytes that are not in [asciiSpace].  [cur] is the field being read, if
    any. *)
Fixpoint fieldsFrom (s : string) (cur : option string) : list string :=
  match s with
  | EmptyString => match cur with Some w => [w] | None => [] end
  | String c s' =>
      if asciiSpace c
      then match cur with
           | Some w => w :: fieldsFrom s' None
           | None => fieldsFrom s' None
           end
      else match cur with
           | Some w => fieldsFrom s' (Some (w +:+ String c EmptyString))
           | None => fieldsFrom s' (Some (String c EmptyString))
           end
  end.

(** The loop [for end, rune := range s] of [FieldsFunc]: the string is read
    rune by rune, a rune for which [f] holds ends the field being read, any
    other rune starts or extends one.  [pending] counts the bytes of the
    rune at hand that are still to be passed; [cur] is the field being
    read, if any. *)
Fixpoint fieldsFuncFrom (f : N -> bool) (s : string) (cur : option string)
  (pending : nat) : list string :=
  match s with
  | EmptyString => match cur with Some w => [w] | None => [] end
  | String c s' =>
      match pending with
      | S k =>
          fieldsFuncFrom f s'
            (option_map (fun w => w +:+ String c EmptyString) cur) k
      | O =>
          let '(rune, size) := Utf8.DecodeRuneInString s in
          if f rune
          then match cur with
               | Some w => w :: fieldsFuncFrom f s' None (size - 1)
               | None => fieldsFuncFrom f s' None (size - 1)
               end
          else match cur with
               | Some w =>
                   fieldsFuncFrom f s' (Some (w +:+ String c EmptyString))
                     (size - 1)
               | None =>
                   fieldsFuncFrom f s' (Some (String c EmptyString))
                     (size - 1)
               end
      end
  end.

Definition FieldsFunc (s : string) (f : N -> bool) : list string :=
  fieldsFuncFrom f s None 0.

(** The bits set in the bytes of [s]. *)
Fixpoint setBits (s : string) : N :=
  match s with
  | EmptyString => 0%N
  | String c s' => N.lor (N_of_ascii c) (setBits s')
  end.

(** [Fields s]: the fields between runs of white space.  A string that
    holds a byte of 0x80 or above is split by [FieldsFunc] on the runes of
    [unicode.IsSpace]; a string of ASCII bytes on the bytes of
    [asciiSpace]. *)
Definition Fields (s : string) : list string :=
  if (Utf8.RuneSelf <=? setBits s)%N then FieldsFunc s Unicode.IsSpace
  else fieldsFrom s None.

(** [ReplaceAll s old new] for a one-byte [old]. *)
Fixpoint ReplaceAll (s : string) (old : ascii) (new : string) : string :=
  match s with
  | EmptyString => EmptyString
  | String c s' =>
      if Ascii.eqb c old then new +:+ ReplaceAll s' old new
      else String c (ReplaceAll s' old new)
  end.

Fixpoint Join (elems : list string) (sep : string) : string :=
  match elems with
  | [] => EmptyString
  | [e] => e
  | e :: es => e +:+ sep +:+ Join es sep
  end.

End Strings.

(** [strconv]: [Atoi] and [ParseInt] in base 10 at 64 bits. *)
Module Strconv.

Inductive NumError := ErrSyntax | ErrRange.

Definition maxInt64 : Z := 2 ^ 63 - 1.
Definition minInt64 : Z := - 2 ^ 63.

Definition isDigit (c : ascii) : bool :=
  let n := N_of_ascii c in ((48 <=? n) && (n <=? 57))%N.

Definition digitVal (c : ascii) : Z := Z.of_N (N_of_ascii c) - 48.

(** The value of a non-empty string of decimal digits, read left to right
    with accumulator [acc]; [None] on any other byte. *)
Fixpoint digitsFrom (s : string) (acc : Z) : option Z :=
  match s with
  | EmptyString => Some acc
  | String c s' =>
      if isDigit c then digitsFrom s' (acc * 10 + digitVal c) else None
  end.

Definition digits (s : string) : option Z :=
  match s with
  | EmptyString => None
  | _ => digitsFrom s 0
  end.

(** [ParseInt s 10 64]: an optional sign, then digits.  A syntax error
    yields 0; a value out of range yields the nearest bound together with
    the range error. *)
Definition ParseInt (s : string) : Z * option NumError :=
  let '(neg, body) :=
    match s with
    | String c r =>
        if Ascii.eqb c "-" then (true, r)
        else if Ascii.eqb c "+" then (false, r)
        else (false, s)
    | EmptyString => (false, s)
    end in
  match digits body with
  | None => (0, Some ErrSyntax)
  | Some un =>
      if negb neg && (2 ^ 63 <=? un) then (maxInt64, Some ErrRange)
      else if neg && (2 ^ 63 <? un) then (minInt64, Some ErrRange)
      else (if neg then - un else un, None)
  end.

(** [Atoi] is [ParseInt] at the width of [int]; its short-input fast path
    computes the same result. *)
Definition Atoi (s : string) : Z * option NumError := ParseInt s.

(** Two's-complement wrap-around of 64-bit [int] arithmetic. *)
Definition wrap64 (z : Z) : Z := (z + 2 ^ 63) mod 2 ^ 64 - 2 ^ 63.

End Strconv.

(** [path/filepath] on a Unix host: [Clean], [Join], [Base], [Dir]. *)
Module Filepath.

Definition slash : ascii := "/"%char.

(** One step of [Clean] over the stack of components kept so far (the most
    recent first). *)
Definition cleanStep (rooted : bool) (stack : list string) (comp : string)
  : list string :=
  if String.eqb comp "" || String.eqb comp "." then stack
  else if String.eqb comp ".." then
    match stack with
    | top :: rest => if String.eqb top ".." then comp :: stack else rest
    | [] => if rooted then [] else [comp]
    end
  else comp :: stack.

Definition Clean (path : string) : string :=
  let rooted := match path with String "/" _ => true | _ => false end in
  let stack := fold_left (cleanStep rooted) (Strings.Split path slash) [] in
  let body := Strings.Join (rev stack) "/" in
  if rooted then "/" +:+ body
  else if String.eqb body "" then "." else body.

(** [Join]: the non-empty elements, joined by a separator and cleaned; the
    empty string when there is none. *)
Definition Join (elems : list string) : string :=
  match filter (fun e => negb (String.eqb e "")) elems with
  | [] => EmptyString
  | es => Clean (Strings.Join es "/")
  end.

(** [Base]: the last element of the path, ["."] for the empty path, ["/"]
    for a path of separators only. *)
Definition Base (path : string) : string :=
  if String.eqb path "" then "."
  else match filter (fun e => negb (String.eqb e ""))
                    (Strings.Split path slash) with
       | [] => "/"
       | e :: es => List.last es e
       end.

(** [Dir]: the path up to its last separator, cleaned. *)
Definition Dir (path : string) : string :=
  let pieces := Strings.Split path slash in
  Clean (Strings.Join (removelast pieces) "/" +:+
         match pieces with _ :: _ :: _ => "/" | _ => "" end).

End Filepath.

(** [regexp]: the patterns of the program are sequences of literal bytes and
    of one-or-more repetitions of a byte class, at most one of them a
    capturing group.  Matching is leftmost-first: at each start position the
    repetition is greedy and gives bytes back until the rest matches. *)
Module Regexp.

Inductive Item :=
| Lit (c : ascii)
| Plus (capture : bool) (cls : ascii -> bool).

Fixpoint lits (s : string) : list Item :=
  match s with
  | EmptyString => []
  | String c s' => Lit c :: lits s'
  end.

(** The text matched and the captured groups. *)
Definition Match : Type := string * list string.

(** Zero or more bytes of [cls], the longest run first, then [cont]. *)
Fixpoint star (cls : ascii -> bool) (cont : string -> option Match)
  (s : string) : option (string * Match) :=
  match s with
  | String c s' =>
      if cls c then
        match star cls cont s' with
        | Some (run, m) => Some (String c run, m)
        | None => option_map (pair EmptyString) (cont s)
        end
      else option_map (pair EmptyString) (cont s)
  | EmptyString => option_map (pair EmptyString) (cont s)
  end.

Definition plus (cls : ascii -> bool) (cont : string -> option Match)
  (s : string) : option (string * Match) :=
  match s with
  | String c s' =>
      if cls c then
        match star cls cont s' with
        | Some (run, m) => Some (String c run, m)
        | None => None
        end
      else None
  | EmptyString => None
  end.

(** A match of the whole pattern that starts at the head of [s]. *)
Fixpoint matchHere (p : list Item) (s : string) : option Match :=
  match p with
  | [] => Some (EmptyString, [])
  | Lit c :: p' =>
      match s with
      | String c' s' =>
          if Ascii.eqb c' c then
            match matchHere p' s' with
            | Some (w, g) => Some (String c' w, g)
            | None => None
            end
          else None
      | EmptyString => None
      end
  | Plus capture cls :: p' =>
      match plus cls (matchHere p') s with
      | Some (run, (w, g)) =>
          Some (run +:+ w, if capture then run :: g else g)
      | None => None
      end
  end.

(** The leftmost match. *)
Fixpoint find (p : list Item) (s : string) : option Match :=
  match matchHere p s with
  | Some m => Some m
  | None =>
      match s with
      | String _ s' => find p s'
      | EmptyString => None
      end
  end.

(** [FindString]: the text of the leftmost match, or the empty string. *)
Definition FindString (p : list Item) (s : string) : string :=
  match find p s with
  | Some (w, _) => w
  | None => EmptyString
  end.

(** [FindStringSubmatch]: the match followed by its groups, [nil] when
    there is no match. *)
Definition FindStringSubmatch (p : list Item) (s : string) : list string :=
  match find p s with
  | Some (w, g) => w :: g
  | None => []
  end.

(** The class [\d]. *)
Definition digit : ascii -> bool := Strconv.isDigit.

(** The class [[0-9,]]. *)
Definition digitOrComma (c : ascii) : bool :=
  Strconv.isDigit c || Ascii.eqb c ","%char.

End Regexp.

(** [time]: an instant with the zone the local clock gives it, and [Format]
    for the layout ["MST_2006-01-02_15.04.05"]. *)
Module Time.

(** [time.Now()]: seconds and nanoseconds since the Unix epoch, with the
    abbreviation and the offset (seconds east of UTC) of the local zone in
    force at that instant. *)
Record Time := {
  unixSec : Z;
  nanos : Z;
  zoneName : string;
  zoneOffset : Z
}.

(** [t.Before(u)] *)
Definition Before (t u : Time) : bool :=
  (unixSec t <? unixSec u) ||
  ((unixSec t =? unixSec u) && (nanos t <? nanos u)).

(** The proleptic Gregorian calendar, in eras of 400 years (146097 days)
    whose years start on 1 March.  The days that precede year [y] of an
    era: *)
Definition daysBeforeYear (y : Z) : Z := 365 * y + y / 4 - y / 100.

(** The year of the era and the day of that year, for a day of the era. *)
Definition yearOfEra (doe : Z) : Z :=
  (doe - doe / 1460 + doe / 36524 - doe / 146096) / 365.

Definition dayOfYear (doe : Z) : Z := doe - daysBeforeYear (yearOfEra doe).

(** The month counted from March and the day of the month, for a day of the
    year. *)
Definition monthIndex (doy : Z) : Z := (5 * doy + 2) / 153.

Definition dayOfMonth (doy : Z) : Z :=
  doy - (153 * monthIndex doy + 2) / 5 + 1.

(** The date (year, month, day) of a day number counted from 1970-01-01. *)
Definition civil (days : Z) : Z * Z * Z :=
  let z := days + 719468 in
  let era := z / 146097 in
  let doe := z mod 146097 in
  let y := yearOfEra doe + era * 400 in
  let mp := monthIndex (dayOfYear doe) in
  let m := if mp <? 10 then mp + 3 else mp - 9 in
  (if m <=? 2 then y + 1 else y, m, dayOfMonth (dayOfYear doe)).

(** The decimal digits of a non-negative number, most significant first,
    [width] of them at least. *)
Definition digitChar (n : Z) : ascii := ascii_of_N (Z.to_N (48 + n)).

Fixpoint digitsOf (fuel : nat) (width : nat) (n : Z) (acc : string) : string :=
  match fuel with
  | O => acc
  | S f =>
      let acc' := String (digitChar (n mod 10)) acc in
      if (n <? 10) && (width <=? 1)%nat then acc'
      else digitsOf f (Nat.pred width) (n / 10) acc'
  end.

(** [appendInt]: zero-padded to [width], a minus sign first when negative. *)
Definition appendInt (x : Z) (width : nat) : string :=
  if x <? 0 then "-" +:+ digitsOf 20 width (- x) EmptyString
  else digitsOf 20 width x EmptyString.

(** The zone element [MST]: the abbreviation, or the offset as [+hhmm]
    when the zone has none. *)
Definition zoneText (t : Time) : string :=
  if String.eqb (zoneName t) "" then
    let zone := Z.quot (zoneOffset t) 60 in
    (if zone <? 0 then "-" else "+") +:+
    appendInt (Z.quot (Z.abs zone) 60) 2 +:+
    appendInt (Z.rem (Z.abs zone) 60) 2
  else zoneName t.

(** Dates (year, month, day) in the order of the calendar. *)
Definition dateBefore (a b : Z * Z * Z) : Prop :=
  let '(y1, m1, d1) := a in
  let '(y2, m2, d2) := b in
  y1 < y2 \/ (y1 = y2 /\ (m1 < m2 \/ (m1 = m2 /\ d1 < d2))).

(** [t.Format("MST_2006-01-02_15.04.05")] *)
Definition Format (t : Time) : string :=
  let local := unixSec t + zoneOffset t in
  let '(year, month, day) := civil (local / 86400) in
  let sod := local mod 86400 in
  zoneText t +:+ "_" +:+
  appendInt year 4 +:+ "-" +:+ appendInt month 2 +:+ "-" +:+
  appendInt day 2 +:+ "_" +:+
  appendInt (sod / 3600) 2 +:+ "." +:+
  appendInt (sod mod 3600 / 60) 2 +:+ "." +:+
  appendInt (sod mod 60) 2.

End Time.

(** ** variables.go and config.go *)

Record Config := {
  Source : string;
  Destination : string;
  Keep : Z;
  CleanupAtPercent : Z;
  ExcludeList : string;
  LogFile : string;
  LockFile : string;
  DryRun : bool;
  ForceSystemRsync : bool;
  ShowProgress : bool;
  RsyncBin : string
}.

(** The fields of the configuration document, named by their JSON keys. *)
Record ConfigFile := {
  source : string;
  destination : string;
  keep : Z;
  cleanup_at_percent : Z;
  exclude_list : string;
  log_file : string;
  lock_file : string;
  dry_run : bool;
  force_system_rsync : bool;
  show_progress : bool
}.

Definition DefaultConfig : Config := {|
  Source := "/Volumes/external-0";
  Destination := "/Volumes/backup-0/backups";
  Keep := 30;
  CleanupAtPercent := 95;
  ExcludeList := "/Volumes/external-0/.backup-exclude.list";
  LogFile := "/Volumes/backup-0/backups/backup.log";
  LockFile := "/tmp/backupRunningLock";
  DryRun := false;
  ForceSystemRsync := false;
  ShowProgress := true;
  RsyncBin := ""
|}.

Definition RsyncBaseArgs : list string :=
  ["-a"; "-U"; "--numeric-ids"; "-H"; "-A"; "--partial"; "--itemize-changes";
   "--delete"; "--delete-excluded"; "--stats"].

Definition RsyncMacOSArgs : list string := ["-E"; "--fileflags"].

Definition RsyncSSHArgs : list string :=
  ["-z"; "--compress-level=6"; "-e";
   "ssh -o StrictHostKeyChecking=no -o UserKnownHostsFile=/dev/null"].

(** The only error [LoadConfig] returns. *)
Inductive ConfigError := PathsRequired.

Section LoadConfig.

(** [os.ReadFile] and [json.Unmarshal] into a zero-valued [ConfigFile];
    [None] stands for a non-nil error. *)
Variable os_ReadFile : string -> option string.
Variable json_Unmarshal : string -> option ConfigFile.

(** The configuration after the attempt to load it from the file. *)
Definition loadFromFile (filename : string) : Config :=
  let config := DefaultConfig in
  if negb (String.eqb filename "") then
    match os_ReadFile filename with
    | Some data =>
        match json_Unmarshal data with
        | Some configFile =>
            {| Source := source configFile;
               Destination := destination configFile;
               Keep := keep configFile;
               CleanupAtPercent := cleanup_at_percent configFile;
               ExcludeList := exclude_list configFile;
               LogFile := log_file configFile;
               LockFile := lock_file configFile;
               DryRun := dry_run configFile;
               ForceSystemRsync := force_system_rsync configFile;
               ShowProgress := show_progress configFile;
               RsyncBin := RsyncBin config |}
        | None => config
        end
    | None => config
    end
  else config.

Definition setKeep (config : Config) (k : Z) : Config :=
  {| Source := Source config; Destination := Destination config;
     Keep := k; CleanupAtPercent := CleanupAtPercent config;
     ExcludeList := ExcludeList config; LogFile := LogFile config;
     LockFile := LockFile config; DryRun := DryRun config;
     ForceSystemRsync := ForceSystemRsync config;
     ShowProgress := ShowProgress config; RsyncBin := RsyncBin config |}.

Definition setCleanupAtPercent (config : Config) (p : Z) : Config :=
  {| Source := Source config; Destination := Destination config;
     Keep := Keep config; CleanupAtPercent := p;
     ExcludeList := ExcludeList config; LogFile := LogFile config;
     LockFile := LockFile config; DryRun := DryRun config;
     ForceSystemRsync := ForceSystemRsync config;
     ShowProgress := ShowProgress config; RsyncBin := RsyncBin config |}.

(** [LoadConfig] returns the configuration together with the error. *)
Definition LoadConfig (filename : string) : Config * option ConfigError :=
  let config := loadFromFile filename in
  if String.eqb (Source config) "" || String.eqb (Destination config) ""
  then (config, Some PathsRequired)
  else
    let config :=
      if Keep config <? 1 then setKeep config 7 else config in
    let config :=
      if (CleanupAtPercent config <? 50) || (CleanupAtPercent config >? 95)
      then setCleanupAtPercent config 90 else config in
    (config, None).

End LoadConfig.

Definition setDryRun (config : Config) (d : bool) : Config :=
  {| Source := Source config; Destination := Destination config;
     Keep := Keep config; CleanupAtPercent := CleanupAtPercent config;
     ExcludeList := ExcludeList config; LogFile := LogFile config;
     LockFile := LockFile config; DryRun := d;
     ForceSystemRsync := ForceSystemRsync config;
     ShowProgress := ShowProgress config; RsyncBin := RsyncBin config |}.

Definition setRsyncBin (config : Config) (bin : string) : Config :=
  {| Source := Source config; Destination := Destination config;
     Keep := Keep config; CleanupAtPercent := CleanupAtPercent config;
     ExcludeList := ExcludeList config; LogFile := LogFile config;
     LockFile := LockFile config; DryRun := DryRun config;
     ForceSystemRsync := ForceSystemRsync config;
     ShowProgress := ShowProgress config; RsyncBin := bin |}.

(** ** main.go: the run object *)

(** The open log file [logFile] of the Go structure is not kept: a line logged
    is recorded in the [output] of the host state, whether or not the file is
    open. *)
Record Backup := {
  config : Config;
  timestamp : string;
  snapDir : string;
  latestLink : string
}.

(** [NewBackup], at the instant [now] that [time.Now()] returns. *)
Definition NewBackup (cfg : Config) (now : Time.Time) : Backup :=
  let timestamp := Time.Format now in
  {| config := cfg;
     timestamp := timestamp;
     snapDir := Filepath.Join [Destination cfg; timestamp +:+ "_INCOMPLETE"];
     latestLink := Filepath.Join [Destination cfg; "latest"] |}.

Definition withConfig (b : Backup) (cfg : Config) : Backup :=
  {| config := cfg; timestamp := timestamp b; snapDir := snapDir b;
     latestLink := latestLink b |}.

Definition withSnapDir (b : Backup) (dir : string) : Backup :=
  {| config := config b; timestamp := timestamp b; snapDir := dir;
     latestLink := latestLink b |}.

(** ** Errors, messages and the state of the host *)

(** One constructor per error the program creates; [Wrapped] is
    [fmt.Errorf("<context>: %v", err)]. *)
Inductive Error :=
| SourceEmpty
| DestinationEmpty
| KeepTooSmall
| PercentOutOfBounds
| DestinationCreate
| SourceMissing (src : string)
| SourceNotMounted (src : string)
| DestinationNotMounted (dst : string)
| DiskCheckCommand
| DiskCheckOutput
| DiskCheckFormat
| DiskCheckParse (e : Strconv.NumError)
| DiskThresholdExceeded (usage threshold : Z)
| AlreadyRunning (lock : string)
| LockIOError
| LogDirError
| LogOpenError
| BinaryNotFound
| IncompatibleBinary
| ProcessPipeError
| ProcessStartError
| ProcessExecutionError
| SnapshotMissing (dir : string)
| SnapshotUnreadable
| SnapshotEmpty
| FinalizeRenameError
| SymlinkError
| ReadDirError
| RemoveAllError
| Wrapped (context : string) (cause : Error).

(** An argument of a [b.log] call. *)
Inductive Arg :=
| AStr (s : string)
| AInt (n : Z)
| AFloat (f : float)
| AErr (e : Error).

(** A [b.log] call: the format and its arguments.  The time stamp that
    prefixes the line is not recorded. *)
Record LogLine := { format : string; args : list Arg }.

(** An external command or a mutating system call. *)
Inductive Call :=
| Exec (name : string) (argv : list string)
| Mkdir (path : string)
| MkdirAll (path : string)
| Remove (path : string)
| RemoveAll (path : string)
| Rename (oldpath newpath : string)
| Symlink (oldname newname : string).

(** A child of the destination directory. *)
Inductive EntryKind :=
| KDir (items : nat)
| KFile
| KSymlink (target : string).

Record DirEntry := { Name : string; Kind : EntryKind }.

Definition IsDir (e : DirEntry) : bool :=
  match Kind e with KDir _ => true | _ => false end.

(** The part of the host the run changes: the children of the destination
    directory in the order [os.ReadDir] lists them (the snapshots, the
    pointer, anything else that lives there), the lock directory, the lines
    logged and the calls made, both oldest first.  The lock directory and the
    log file are objects of their own, apart from the destination's children;
    the contents of the log file are not kept. *)
Record World := {
  dest : list DirEntry;
  lockHeld : bool;
  output : list LogLine;
  calls : list Call
}.

Inductive RsyncStatus := PipeFails | StartFails | ExitNonZero | ExitZero.

Inductive StatResult := StatOk | StatNotExist | StatError.

(** What the host answers to the run. *)
Record Env := {
  GOOS : string;
  (** the result of [os.Stat(path)] *)
  stat : string -> StatResult;
  (** [validatePaths] *)
  mkdirAllFails : bool;
  dfFails : string -> bool;
  (** the standard output of [df -h <destination>], [None] when it fails *)
  dfOutput : option string;
  (** [os.Mkdir] of the lock fails for another reason than its existence *)
  lockMkdirFails : bool;
  (** [setupLogging] and [cleanupLog] *)
  logDirFails : bool;
  logOpenFails : bool;
  logReadFails : bool;
  logJobCount : Z;
  tailFails : bool;
  (** the standard output of [<bin> --version], [None] when it fails *)
  versionOutput : string -> option string;
  (** the transfer: how the child ends, what it prints, and the number of
      entries of the snapshot directory it leaves ([None]: no directory) *)
  rsyncStatus : RsyncStatus;
  rsyncStdout : string;
  rsyncStderr : string;
  rsyncLeaves : option nat;
  (** failures of the remaining system calls *)
  renameFails : bool;
  removeFails : bool;
  symlinkFails : bool;
  readDirFails : bool;
  removeAllFails : string -> bool
}.

(** The state-and-error monad of the methods of [Backup]. *)
Definition M (A : Type) : Type := World -> (Error + A) * World.

Definition ret {A} (a : A) : M A := fun w => (inr a, w).

Definition fail {A} (e : Error) : M A := fun w => (inl e, w).

Definition bind {A B} (m : M A) (k : A -> M B) : M B :=
  fun w =>
    match m w with
    | (inl e, w') => (inl e, w')
    | (inr a, w') => k a w'
    end.

Notation "x <- m ;; k" := (bind m (fun x => k))
  (at level 100, m at next level, k at level 200, right associativity).
Notation "m ;;; k" := (bind m (fun _ => k))
  (at level 100, k at level 200, right associativity).

(** [if err := m; err != nil { return fmt.Errorf("<context>: %v", err) }] *)
Definition wrap {A} (context : string) (m : M A) : M A :=
  fun w =>
    match m w with
    | (inl e, w') => (inl (Wrapped context e), w')
    | r => r
    end.

(** [defer f()] before [body]: [f] runs when [body] returns, whatever it
    returns. *)
Definition defer {A} (f : World -> World) (body : M A) : M A :=
  fun w => let '(r, w') := body w in (r, f w').

Definition log (fmt : string) (a : list Arg) : M unit :=
  fun w => (inr tt,
            {| dest := dest w; lockHeld := lockHeld w;
               output := output w ++ [{| format := fmt; args := a |}];
               calls := calls w |}).

Definition call (c : Call) : M unit :=
  fun w => (inr tt,
            {| dest := dest w; lockHeld := lockHeld w; output := output w;
               calls := calls w ++ [c] |}).

Definition setDest (d : list DirEntry) : M unit :=
  fun w => (inr tt,
            {| dest := d; lockHeld := lockHeld w; output := output w;
               calls := calls w |}).

Definition setLock (held : bool) : M unit :=
  fun w => (inr tt,
            {| dest := dest w; lockHeld := held; output := output w;
               calls := calls w |}).

Definition getWorld : M World := fun w => (inr w, w).

(** The children of the destination, by name. *)
Definition lookupEntry (name : string) (d : list DirEntry) : option DirEntry :=
  List.find (fun e => String.eqb (Name e) name) d.

Definition removeEntry (name : string) (d : list DirEntry) : list DirEntry :=
  filter (fun e => negb (String.eqb (Name e) name)) d.

(** A new child takes its place in the listing, which is ordered by name. *)
Fixpoint insertEntry (e : DirEntry) (d : list DirEntry) : list DirEntry :=
  match d with
  | [] => [e]
  | x :: d' =>
      if String.ltb (Name e) (Name x) then e :: d
      else x :: insertEntry e d'
  end.

(** ** main.go: the methods of [Backup] *)

Definition newline : ascii := "010"%char.

Definition validateConfig (b : Backup) : M unit :=
  if String.eqb (Source (config b)) "" then fail SourceEmpty
  else if String.eqb (Destination (config b)) "" then fail DestinationEmpty
  else if Keep (config b) <? 1 then fail KeepTooSmall
  else if (CleanupAtPercent (config b) <? 50)
          || (CleanupAtPercent (config b) >? 95)
  then fail PercentOutOfBounds
  else ret tt.

Definition isSSHPath (path : string) : bool :=
  Strings.Contains path "@" && Strings.Contains path ":".

Definition checkDiskSpace (b : Backup) (env : Env) : M unit :=
  if isSSHPath (Destination (config b)) then ret tt
  else
    call (Exec "df" ["-h"; Destination (config b)]) ;;;
    match dfOutput env with
    | None => fail DiskCheckCommand
    | Some out =>
        let lines := Strings.Split out newline in
        if (length lines <? 2)%nat then fail DiskCheckOutput
        else
          let fields := Strings.Fields (nth 1 lines "") in
          if (length fields <? 5)%nat then fail DiskCheckFormat
          else
            let usageStr := Strings.TrimSuffix (nth 4 fields "") "%" in
            match Strconv.Atoi usageStr with
            | (_, Some e) => fail (DiskCheckParse e)
            | (usage, None) =>
                if usage >=? CleanupAtPercent (config b)
                then fail (DiskThresholdExceeded usage
                             (CleanupAtPercent (config b)))
                else log "Disk usage: %d%% (threshold: %d%%)"
                       [AInt usage; AInt (CleanupAtPercent (config b))]
            end
    end.

(** The child of the destination that a path of the run names. *)
Definition childName (path : string) : string := Filepath.Base path.

Definition verifyBackup (b : Backup) : M unit :=
  if DryRun (config b) then ret tt
  else
    w <- getWorld ;;
    match lookupEntry (childName (snapDir b)) (dest w) with
    | None => fail (SnapshotMissing (snapDir b))
    | Some e =>
        match Kind e with
        | KDir items =>
            if (items =? 0)%nat then fail SnapshotEmpty
            else log "Backup verification: %d items in backup"
                   [AInt (Z.of_nat items)]
        | _ => fail SnapshotUnreadable
        end
    end.

Definition validatePaths (b : Backup) (env : Env) : M unit :=
  call (MkdirAll (Destination (config b))) ;;;
  if mkdirAllFails env then fail DestinationCreate
  else
    match stat env (Source (config b)) with
    | StatNotExist => fail (SourceMissing (Source (config b)))
    | _ =>
        call (Exec "df" [Source (config b)]) ;;;
        if dfFails env (Source (config b))
        then fail (SourceNotMounted (Source (config b)))
        else
          call (Exec "df" [Destination (config b)]) ;;;
          if dfFails env (Destination (config b))
          then fail (DestinationNotMounted (Destination (config b)))
          else ret tt
    end.

Definition createLock (b : Backup) (env : Env) : M unit :=
  call (Mkdir (LockFile (config b))) ;;;
  w <- getWorld ;;
  if lockHeld w then fail (AlreadyRunning (LockFile (config b)))
  else if lockMkdirFails env then fail LockIOError
  else setLock true.

(** [removeLock] returns nothing; it is run by [defer]. *)
Definition removeLock (b : Backup) (env : Env) (w : World) : World :=
  let w := snd (call (RemoveAll (LockFile (config b))) w) in
  if removeAllFails env (LockFile (config b)) then w
  else snd (setLock false w).

(** [cleanup], the handler of the signal listener: [logFileOpen] is
    [b.logFile != nil]; the result is the status given to [os.Exit] and the
    host the process leaves. *)
Definition cleanup (b : Backup) (env : Env) (logFileOpen : bool)
  (sig : string) (exitCode : Z) (w : World) : Z * World :=
  let w :=
    if logFileOpen
    then snd (log "Backup interrupted by signal: %v" [AStr sig] w)
    else w in
  (exitCode, removeLock b env w).

Definition cleanupLog (b : Backup) (env : Env) : M unit :=
  if logReadFails env then ret tt
  else if logJobCount env >=? 30 then
    call (Exec "tail" ["-n"; "500"; LogFile (config b)]) ;;;
    if tailFails env then ret tt
    else
      call (Rename (LogFile (config b) +:+ ".tmp") (LogFile (config b))) ;;;
      log "Log cleaned up (was %d jobs, kept last 500 lines)"
        [AInt (logJobCount env)]
  else ret tt.

Definition setupLogging (b : Backup) (env : Env) : M unit :=
  call (MkdirAll (Filepath.Dir (LogFile (config b)))) ;;;
  if logDirFails env then fail LogDirError
  else if logOpenFails env then fail LogOpenError
  else cleanupLog b env.

(** [\d+\.\d+\.\d+] *)
Definition versionPattern : list Regexp.Item :=
  [Regexp.Plus false Regexp.digit; Regexp.Lit ".";
   Regexp.Plus false Regexp.digit; Regexp.Lit ".";
   Regexp.Plus false Regexp.digit].

(** [getRsyncVersion] returns the version together with the error. *)
Definition getRsyncVersion (b : Backup) (env : Env)
  : M (string * option Error) :=
  call (Exec (RsyncBin (config b)) ["--version"]) ;;;
  match versionOutput env (RsyncBin (config b)) with
  | None => ret ("", Some ProcessExecutionError)
  | Some out => ret (Regexp.FindString versionPattern out, None)
  end.

Definition isOldRsync (version : string) : bool :=
  let parts := Strings.Split version "."%char in
  if (length parts <? 3)%nat then true
  else
    let major := fst (Strconv.Atoi (nth 0 parts "")) in
    let minor := fst (Strconv.Atoi (nth 1 parts "")) in
    let patch := fst (Strconv.Atoi (nth 2 parts "")) in
    let versionNum :=
      Strconv.wrap64
        (Strconv.wrap64 (Strconv.wrap64 (major * 10000)
                         + Strconv.wrap64 (minor * 100))
         + patch) in
    versionNum <? 30200.

Definition rsyncPaths : list string :=
  ["/opt/homebrew/bin/rsync"; "/usr/local/bin/rsync"; "/usr/bin/rsync"].

(** The loop over the candidate paths: the first that exists is taken. *)
Fixpoint firstExisting (env : Env) (paths : list string) (bin : string)
  : string :=
  match paths with
  | [] => bin
  | path :: rest =>
      match stat env path with
      | StatOk => path
      | _ => firstExisting env rest bin
      end
  end.

(** [findRsync] writes [b.config.RsyncBin]: it returns the run object. *)
Definition findRsync (b : Backup) (env : Env) : M Backup :=
  if ForceSystemRsync (config b) then
    let b := withConfig b (setRsyncBin (config b) "/usr/bin/rsync") in
    log "Using system rsync (forced by ForceSystemRsync=true)" [] ;;;
    ret b
  else
    let b :=
      withConfig b
        (setRsyncBin (config b)
           (firstExisting env rsyncPaths (RsyncBin (config b)))) in
    if String.eqb (RsyncBin (config b)) "" then fail BinaryNotFound
    else
      (if String.eqb (RsyncBin (config b)) "/usr/bin/rsync"
          && negb (ForceSystemRsync (config b))
       then
         r <- getRsyncVersion b env ;;
         match r with
         | (version, None) =>
             if isOldRsync version then fail IncompatibleBinary else ret tt
         | (_, Some _) => ret tt
         end
       else ret tt) ;;;
      log "Using rsync: %s" [AStr (RsyncBin (config b))] ;;;
      ret b.

Definition getLastBackup (b : Backup) : M string :=
  w <- getWorld ;;
  match lookupEntry (childName (latestLink b)) (dest w) with
  | Some {| Kind := KSymlink target |} => ret (Filepath.Base target)
  | _ => ret "(none)"
  end.

(** The patterns of [parseTransferredGB], in the order they are tried. *)
Definition transferPatterns : list (list Regexp.Item) :=
  [Regexp.lits "Total transferred file size: "
     ++ [Regexp.Plus true Regexp.digitOrComma] ++ Regexp.lits " bytes";
   Regexp.lits "sent "
     ++ [Regexp.Plus true Regexp.digitOrComma] ++ Regexp.lits " bytes";
   Regexp.lits "total size is " ++ [Regexp.Plus true Regexp.digitOrComma]].

(** [float64(bytes) / (1024 * 1024 * 1024)]; [bytes] is read from digits
    only and is not negative. *)
Definition bytesToGB (bytes : Z) : float :=
  PrimFloat.div (PrimFloat.of_uint63 (Uint63.of_Z bytes))
                (PrimFloat.of_uint63 (Uint63.of_Z (1024 * 1024 * 1024))).

Fixpoint parseWith (patterns : list (list Regexp.Item)) (statsOutput : string)
  : float :=
  match patterns with
  | [] => 0%float
  | re :: rest =>
      let matches := Regexp.FindStringSubmatch re statsOutput in
      if (1 <? length matches)%nat then
        let bytesStr := Strings.ReplaceAll (nth 1 matches "") "," "" in
        match Strconv.ParseInt bytesStr with
        | (bytes, None) => bytesToGB bytes
        | (_, Some _) => parseWith rest statsOutput
        end
      else parseWith rest statsOutput
  end.

Definition parseTransferredGB (statsOutput : string) : float :=
  parseWith transferPatterns statsOutput.

(** The first part of [runRsync]: the argument vector. *)
Definition rsyncArgs (b : Backup) (env : Env) (lastBackup : string)
  : M (list string) :=
  log "SRC=%s DST=%s"
    [AStr (Source (config b)); AStr (Destination (config b))] ;;;
  let args := RsyncBaseArgs in
  args <-
    (if isSSHPath (Source (config b)) || isSSHPath (Destination (config b))
     then
       log "SSH transfer detected - added compression and SSH options" [] ;;;
       ret (args ++ RsyncSSHArgs)
     else ret args) ;;
  let args :=
    if ShowProgress (config b) then args ++ ["--progress"] else args in
  r <- getRsyncVersion b env ;;
  args <-
    match r with
    | (version, None) =>
        log "Detected rsync version: %s" [AStr version] ;;;
        if String.eqb (GOOS env) "darwin" && negb (isOldRsync version) then
          log "Added macOS-specific flags (modern rsync with full macOS support)" [] ;;;
          ret (args ++ RsyncMacOSArgs)
        else if String.eqb (GOOS env) "darwin" then
          log "Warning: Old rsync version - limited macOS support" [] ;;;
          ret args
        else ret args
    | (_, Some _) => ret args
    end ;;
  args <-
    (if negb (String.eqb lastBackup "(none)") then
       let lastBackupPath :=
         Filepath.Join [Destination (config b); lastBackup] in
       match stat env lastBackupPath with
       | StatOk =>
           log "Using link-dest: %s" [AStr lastBackupPath] ;;;
           ret (args ++ ["--link-dest=" +:+ lastBackupPath])
       | _ => ret args
       end
     else
       log "No previous backup found for hard linking" [] ;;;
       ret args) ;;
  args <-
    match stat env (ExcludeList (config b)) with
    | StatOk => ret (args ++ ["--exclude-from=" +:+ ExcludeList (config b)])
    | _ =>
        if negb (String.eqb (ExcludeList (config b)) "") then
          log "Warning: exclude list not found at %s — continuing without excludes"
            [AStr (ExcludeList (config b))] ;;;
          ret args
        else ret args
    end ;;
  args <-
    (if DryRun (config b) then
       log "DRY RUN MODE - no changes will be made" [] ;;;
       ret (args ++ ["--dry-run"])
     else ret args) ;;
  ret (args ++ [Source (config b) +:+ "/"; snapDir b]).

(** What the child process does to the destination: with [--dry-run] in its
    arguments nothing; otherwise it leaves the directory named by its last
    argument with the number of entries the host reports. *)
Definition rsyncEffect (env : Env) (argv : list string) : M unit :=
  if existsb (String.eqb "--dry-run") argv then ret tt
  else
    match rsyncLeaves env with
    | None => ret tt
    | Some items =>
        w <- getWorld ;;
        let name := childName (List.last argv "") in
        setDest (insertEntry {| Name := name; Kind := KDir items |}
                   (removeEntry name (dest w)))
    end.

Definition runRsync (b : Backup) (env : Env) (lastBackup : string) : M unit :=
  args <- rsyncArgs b env lastBackup ;;
  let cmdStr := RsyncBin (config b) +:+ " " +:+ Strings.Join args " " in
  log "Running rsync: %s" [AStr cmdStr] ;;;
  match rsyncStatus env with
  | PipeFails => fail ProcessPipeError
  | StartFails =>
      call (Exec (RsyncBin (config b)) args) ;;; fail ProcessStartError
  | ExitNonZero =>
      call (Exec (RsyncBin (config b)) args) ;;;
      rsyncEffect env args ;;;
      fail ProcessExecutionError
  | ExitZero =>
      call (Exec (RsyncBin (config b)) args) ;;;
      rsyncEffect env args ;;;
      let combinedOutput := rsyncStdout env +:+ rsyncStderr env in
      let gb := parseTransferredGB combinedOutput in
      log "Data transferred: %.2f GB" [AFloat gb]
  end.

(** [os.Rename] of one child of the destination onto another name: the old
    name must exist, and the new name must be free or an empty directory. *)
Definition renameEntry (env : Env) (old new : string) (d : list DirEntry)
  : option (list DirEntry) :=
  if renameFails env then None
  else
    match lookupEntry old d with
    | None => None
    | Some e =>
        match lookupEntry new d with
        | Some {| Kind := KDir O |} | None =>
            Some (insertEntry {| Name := new; Kind := Kind e |}
                    (removeEntry new (removeEntry old d)))
        | Some _ => None
        end
    end.

(** [finalizeBackup] writes [b.snapDir]: it returns the run object. *)
Definition finalizeBackup (b : Backup) (env : Env) : M Backup :=
  if DryRun (config b) then ret b
  else
    let finalDir := Filepath.Join [Destination (config b); timestamp b] in
    call (Rename (snapDir b) finalDir) ;;;
    w <- getWorld ;;
    match renameEntry env (childName (snapDir b)) (childName finalDir)
            (dest w) with
    | None => fail FinalizeRenameError
    | Some d =>
        setDest d ;;;
        let b := withSnapDir b finalDir in
        log "Backup finalized: %s" [AStr (timestamp b)] ;;;
        ret b
    end.

(** [os.Remove]: a file, a symbolic link or an empty directory. *)
Definition removeFile (env : Env) (name : string) (d : list DirEntry)
  : list DirEntry :=
  if removeFails env then d
  else
    match lookupEntry name d with
    | Some {| Kind := KDir (S _) |} => d
    | _ => removeEntry name d
    end.

Definition updateLatestLink (b : Backup) (env : Env) : M unit :=
  call (Remove (latestLink b)) ;;;
  w <- getWorld ;;
  setDest (removeFile env (childName (latestLink b)) (dest w)) ;;;
  call (Symlink (timestamp b) (latestLink b)) ;;;
  w <- getWorld ;;
  match lookupEntry (childName (latestLink b)) (dest w) with
  | Some _ => fail SymlinkError
  | None =>
      if symlinkFails env then fail SymlinkError
      else setDest (insertEntry {| Name := childName (latestLink b);
                                   Kind := KSymlink (timestamp b) |}
                      (dest w))
  end.

(** [backups[i] > backups[j]] on strings: byte-wise lexical order. *)
Definition gtb (a b : string) : bool :=
  match String.compare a b with Gt => true | _ => false end.

(** [backups[i], backups[j] = backups[j], backups[i]] *)
Definition swap (backups : list string) (i j : nat) : list string :=
  match backups !! i, backups !! j with
  | Some a, Some c => <[j:=a]> (<[i:=c]> backups)
  | _, _ => backups
  end.

(** The body of the inner loop of the sort. *)
Definition sortStep (i : nat) (backups : list string) (j : nat) : list string :=
  match backups !! i, backups !! j with
  | Some a, Some c => if gtb a c then swap backups i j else backups
  | _, _ => backups
  end.

(** [for j := i + 1; j < len(backups); j++] *)
Definition sortInner (backups : list string) (i : nat) : list string :=
  fold_left (sortStep i) (seq (i + 1) (length backups - (i + 1))) backups.

(** [for i := 0; i < len(backups)-1; i++] *)
Definition sortBackups (backups : list string) : list string :=
  fold_left sortInner (seq 0 (length backups - 1)) backups.

(** The children [cleanupOldBackups] counts as backups. *)
Definition isBackup (entry : DirEntry) : bool :=
  IsDir entry && negb (String.eqb (Name entry) "latest")
  && negb (Strings.HasSuffix (Name entry) "_INCOMPLETE").

(** The body of the removal loop, for [backups[i]]. *)
Definition removeBackup (b : Backup) (env : Env) (name : string) : M unit :=
  let backupPath := Filepath.Join [Destination (config b); name] in
  log "Removing old backup: %s" [AStr name] ;;;
  call (RemoveAll backupPath) ;;;
  if removeAllFails env backupPath then
    log "Warning: failed to remove %s: %v" [AStr backupPath; AErr RemoveAllError]
  else
    w <- getWorld ;;
    setDest (removeEntry name (dest w)).

Fixpoint forEach {A} (body : A -> M unit) (l : list A) : M unit :=
  match l with
  | [] => ret tt
  | x :: l' => body x ;;; forEach body l'
  end.

(** The names [cleanupOldBackups] removes from a listing: the first
    [len(backups) - Keep] of the sorted backups. *)
Definition backupsToRemove (keepCount : Z) (entries : list DirEntry)
  : list string :=
  let backups := map Name (filter isBackup entries) in
  if Z.of_nat (length backups) <=? keepCount then []
  else
    let backups := sortBackups backups in
    let toRemove := Z.of_nat (length backups) - keepCount in
    take (Z.to_nat toRemove) backups.

Definition cleanupOldBackups (b : Backup) (env : Env) : M unit :=
  if Keep (config b) <=? 0 then ret tt
  else
    w <- getWorld ;;
    if readDirFails env then fail ReadDirError
    else forEach (removeBackup b env)
           (backupsToRemove (Keep (config b)) (dest w)).

(** [Run] is written in three parts.  The second, lines 183-213, under the
    lock: from the opening of the log to the finalized snapshot. *)
Definition snapshotStage (b : Backup) (env : Env) : M Backup :=
  wrap "failed to setup logging" (setupLogging b env) ;;;
  log "Starting backup: %s" [AStr (timestamp b)] ;;;
  b <- wrap "failed to find rsync" (findRsync b env) ;;
  lastBackup <- getLastBackup b ;;
  log "Last backup: %s" [AStr lastBackup] ;;;
  wrap "rsync failed" (runRsync b env lastBackup) ;;;
  wrap "backup verification failed" (verifyBackup b) ;;;
  wrap "failed to finalize backup" (finalizeBackup b env).

(** The third, lines 215-226: the pointer, the retention sweep and the last
    message. *)
Definition publishStage (b : Backup) (env : Env) : M unit :=
  wrap "failed to update latest link" (updateLatestLink b env) ;;;
  (fun w =>
     match cleanupOldBackups b env w with
     | (inl err, w') => log "Warning: cleanup failed: %v" [AErr err] w'
     | r => r
     end) ;;;
  log "Backup completed successfully" [].

(** Lines 154-181: the checks that precede the lock, and the lock.  The
    signal listener that [Run] starts after the first check runs beside this
    sequence and is not part of it: see [interruptedBeforeLock] below. *)
Definition preflight (b : Backup) (env : Env) : M unit :=
  wrap "config validation failed" (validateConfig b) ;;;
  wrap "path validation failed" (validatePaths b env) ;;;
  wrap "disk space check failed" (checkDiskSpace b env) ;;;
  wrap "failed to create lock" (createLock b env).

(** The checks of [Run] between the start of the signal listener (lines
    159-165) and the lock. *)
Definition checksBeforeLock (b : Backup) (env : Env) : list (M unit) :=
  [wrap "path validation failed" (validatePaths b env);
   wrap "disk space check failed" (checkDiskSpace b env)].

(** The process when a signal is delivered to the listener after
    [validateConfig] and the first [n] of the checks before the lock have
    returned without an error: the listener calls [b.cleanup(sig, 1)], at a
    time when no log file is open.  The result is the exit status and the
    host the process leaves; [None] when a check has failed, so that [Run]
    has returned. *)
Definition interruptedBeforeLock (b : Backup) (env : Env) (n : nat)
  (sig : string) (w : World) : option (Z * World) :=
  match (wrap "config validation failed" (validateConfig b) ;;;
         forEach (fun check => check) (take n (checksBeforeLock b env))) w with
  | (inl _, _) => None
  | (inr _, w1) => Some (cleanup b env false sig 1 w1)
  end.

Definition Run (b : Backup) (env : Env) : M unit :=
  preflight b env ;;;
  defer (removeLock b env)
    (b <- snapshotStage b env ;;
     publishStage b env).

(** [main] after the flags are parsed and the effective user is known: the
    exit status of the process and the host it leaves. *)
Definition main (os_ReadFile : string -> option string)
  (json_Unmarshal : string -> option ConfigFile)
  (configFile : string) (dryRun help : bool) (euid : Z)
  (now : Time.Time) (env : Env) (w : World) : Z * World :=
  if help then (0, w)
  else if negb (euid =? 0) then (1, w)
  else
    match LoadConfig os_ReadFile json_Unmarshal configFile with
    | (_, Some _) => (1, w)
    | (cfg, None) =>
        let cfg := if dryRun then setDryRun cfg true else cfg in
        match Run (NewBackup cfg now) env w with
        | (inl _, w') => (1, w')
        | (inr _, w') => (0, w')
        end
    end.

(** ** Notions of the specification *)

(** The usage report as the specification reads it: the fifth
    white-space-delimited field of the second line, a percentage. *)
Definition usageField (report : string) : option string :=
  match Strings.Split report newline with
  | _ :: line :: _ =>
      match Strings.Fields line with
      | _ :: _ :: _ :: _ :: field :: _ => Some field
      | _ => None
      end
  | _ => None
  end.

Definition parsedUsage (report : string) : option Z :=
  match usageField report with
  | Some field =>
      match Strconv.Atoi (Strings.TrimSuffix field "%") with
      | (usage, None) => Some usage
      | (_, Some _) => None
      end
  | None => None
  end.

(** No match of the pattern starts at any of the first [n] positions of the
    text. *)
Fixpoint noMatchWithin (p : list Regexp.Item) (n : nat) (s : string) : bool :=
  match n with
  | O => true
  | S n' =>
      match Regexp.matchHere p s with
      | Some _ => false
      | None =>
          match s with
          | String _ s' => noMatchWithin p n' s'
          | EmptyString => true
          end
      end
  end.

(** The three patterns of the transfer statistics. *)
Definition totalPattern : list Regexp.Item := nth 0 transferPatterns [].
Definition sentPattern : list Regexp.Item := nth 1 transferPatterns [].
Definition sizePattern : list Regexp.Item := nth 2 transferPatterns [].

(** The count a pattern reads in a text: the group of its leftmost match,
    commas stripped, when that is a number [ParseInt] reads. *)
Definition readableCount (re : list Regexp.Item) (text : string) : option Z :=
  match Regexp.find re text with
  | Some (_, group :: _) =>
      match Strconv.ParseInt (Strings.ReplaceAll group "," "") with
      | (bytes, None) => Some bytes
      | (_, Some _) => None
      end
  | _ => None
  end.

(** The sentence of the statistics that reports one gigabyte. *)
Definition oneGigabyteLine : string :=
  "Total transferred file size: 1,073,741,824 bytes".



(** [major*10000 + minor*100 + patch] in the arithmetic of [int]. *)
Definition versionNum (major minor patch : Z) : Z :=
  Strconv.wrap64
    (Strconv.wrap64 (Strconv.wrap64 (major * 10000)
                     + Strconv.wrap64 (minor * 100))
     + patch).

(** A version [major.minor.patch] is below 3.2.0. *)
Definition belowMinimum (major minor patch : Z) : bool :=
  (major <? 3) || ((major =? 3) && (minor <? 2)).

(** The argument vector as the specification orders it: the base flags, the
    remote-transport flags, the progress flag, the platform flags, the
    incremental-seed flag, the exclusion-file flag, the dry-run flag, then the
    source with its trailing separator and the in-progress destination. *)
Definition argVector (cfg : Config) (version : option string) (goos : string)
  (remote : bool) (prior : option string) (excludeExists : bool)
  (dryRun : bool) (inProgress : string) : list string :=
  RsyncBaseArgs
  ++ (if remote then RsyncSSHArgs else [])
  ++ (if ShowProgress cfg then ["--progress"] else [])
  ++ match version with
     | Some v =>
         if String.eqb goos "darwin" && negb (isOldRsync v)
         then RsyncMacOSArgs else []
     | None => []
     end
  ++ match prior with
     | Some path => ["--link-dest=" +:+ path]
     | None => []
     end
  ++ (if excludeExists then ["--exclude-from=" +:+ ExcludeList cfg] else [])
  ++ (if dryRun then ["--dry-run"] else [])
  ++ [Source cfg +:+ "/"; inProgress].

(** What a run observes of its host when it assembles the arguments: the
    version the binary reports, whether a path is remote, the prior snapshot
    the pointer leads to when it exists, and whether the exclusion file
    exists. *)
Definition reportedVersion (b : Backup) (env : Env) : option string :=
  match versionOutput env (RsyncBin (config b)) with
  | Some out => Some (Regexp.FindString versionPattern out)
  | None => None
  end.

Definition remoteTransfer (cfg : Config) : bool :=
  isSSHPath (Source cfg) || isSSHPath (Destination cfg).

Definition priorSnapshot (b : Backup) (env : Env) (lastBackup : string)
  : option string :=
  if String.eqb lastBackup "(none)" then None
  else
    match stat env (Filepath.Join [Destination (config b); lastBackup]) with
    | StatOk => Some (Filepath.Join [Destination (config b); lastBackup])
    | _ => None
    end.

Definition excludeFileExists (b : Backup) (env : Env) : bool :=
  match stat env (ExcludeList (config b)) with StatOk => true | _ => false end.

(** The inner loop of the sort as a recursion on the slice: [x] is the
    element at index [i], [rest] the elements behind it; the result is the
    element left at index [i] and the elements left behind it. *)
Fixpoint sift (x : string) (rest : list string) : string * list string :=
  match rest with
  | [] => (x, [])
  | y :: r =>
      if gtb x y then (fst (sift y r), x :: snd (sift y r))
      else (fst (sift x r), y :: snd (sift x r))
  end.

(** The first [k] rounds of the outer loop, likewise. *)
Fixpoint selectionSort (k : nat) (l : list string) : list string :=
  match k, l with
  | S k', x :: rest => fst (sift x rest) :: selectionSort k' (snd (sift x rest))
  | _, _ => l
  end.

(** The finalized snapshots of a listing, by name. *)
Definition finalizedNames (entries : list DirEntry) : list string :=
  map Name (filter isBackup entries).

(** The candidates as the claim words them: the children that are not the
    pointer entry and do not carry the incomplete suffix, of any kind. *)
Definition candidatesByName (entries : list DirEntry) : list string :=
  map Name
    (filter (fun e => negb (String.eqb (Name e) "latest")
                      && negb (Strings.HasSuffix (Name e) "_INCOMPLETE"))
       entries).

(** A name is not among the names removed. *)
Definition kept (removed : list string) (name : string) : bool :=
  negb (existsb (String.eqb name) removed).

(** The listing without the children of the given names. *)
Definition withoutNames (names : list string) (entries : list DirEntry)
  : list DirEntry :=
  filter (fun e => kept names (Name e)) entries.

(** A path holds the byte [c]. *)
Definition hasByte (c : ascii) (path : string) : Prop :=
  In c (list_ascii_of_string path).

(** The errors of the disk check that report a usage report it cannot read. *)
Definition isDiskCheckParseError (e : Error) : Prop :=
  e = DiskCheckOutput \/ e = DiskCheckFormat \/ exists n, e = DiskCheckParse n.

(** ** config.go: [SaveConfig] *)

(** The configuration files of the host, by name. *)
Definition Files : Type := string -> option string.

(** The files after [os.WriteFile] has written [data] under [name]. *)
Definition writeFile (files : Files) (name data : string) : Files :=
  fun f => if String.eqb f name then Some data else files f.

Inductive SaveError := MarshalError | WriteError.

(** The document [SaveConfig] builds.  Its composite literal names nine
    fields; [ShowProgress] is not among them and keeps its zero value. *)
Definition configFileOf (config : Config) : ConfigFile := {|
  source := Source config;
  destination := Destination config;
  keep := Keep config;
  cleanup_at_percent := CleanupAtPercent config;
  exclude_list := ExcludeList config;
  log_file := LogFile config;
  lock_file := LockFile config;
  dry_run := DryRun config;
  force_system_rsync := ForceSystemRsync config;
  show_progress := false
|}.

Section SaveConfig.

(** [json.MarshalIndent] ([None] stands for a non-nil error), whether
    [os.WriteFile] fails for a name, and the files a failed write leaves. *)
Variable json_MarshalIndent : ConfigFile -> option string.
Variable writeFails : string -> bool.
Variable failedWrite : Files -> string -> string -> Files.

(** [SaveConfig] returns the error together with the files it leaves. *)
Definition SaveConfig (config : Config) (filename : string) (files : Files)
  : option SaveError * Files :=
  let configFile := configFileOf config in
  match json_MarshalIndent configFile with
  | None => (Some MarshalError, files)
  | Some data =>
      if writeFails filename
      then (Some WriteError, failedWrite files filename data)
      else (None, writeFile files filename data)
  end.

End SaveConfig.

(** ** The access check: [checkFullDiskAccess] *)

(** [syscall.Errno], by number. *)
Definition EPERM : Z := 1.
Definition ENOENT : Z := 2.
Definition EACCES : Z := 13.

(** The errors the probes meet: a path error over an errno (what
    [os.Stat], [os.Open], [Readdirnames] and [Read] return on a Unix host),
    [io.EOF], or an error of another shape, of which all that matters is
    what [errors.Is] answers for [os.ErrNotExist] and [os.ErrPermission]. *)
Inductive OsError :=
| PathError (errno : Z)
| EOF
| OtherError (notExist permission : bool).

(** [errors.Is(err, os.ErrNotExist)] and [errors.Is(err, os.ErrPermission)];
    for a path error they ask the errno under it. *)
Definition isNotExist (err : OsError) : bool :=
  match err with
  | PathError errno => errno =? ENOENT
  | EOF => false
  | OtherError notExist _ => notExist
  end.

Definition isPermission (err : OsError) : bool :=
  match err with
  | PathError errno => (errno =? EACCES) || (errno =? EPERM)
  | EOF => false
  | OtherError _ permission => permission
  end.

(** The type assertions to a path error and to the errno under it, and
    the comparison of that errno with [EACCES] and [EPERM]. *)
Definition deniedErrno (err : OsError) : bool :=
  match err with
  | PathError errno => (errno =? EACCES) || (errno =? EPERM)
  | _ => false
  end.

(** What the host answers to the probes of a path. *)
Record Access := {
  (** [filepath.EvalSymlinks], [None] when it fails *)
  evalSymlinks : string -> option string;
  (** [os.Stat]: the error, or [info.IsDir()] *)
  statPath : string -> OsError + bool;
  (** the errors of [os.Open], [f.Readdirnames(1)] and [f.Read(buf)],
      [None] when there is none *)
  openPath : string -> option OsError;
  readdirnames : string -> option OsError;
  readByte : string -> option OsError
}.

(** The branch shared by the two calls of [os.Open]. *)
Definition openFailure (err : OsError) : string * option OsError :=
  if isPermission err then ("permission-denied", Some err)
  else if deniedErrno err then ("permission-denied", Some err)
  else ("other-open-error", Some err).

(** The closure [tryRead]: the status and the error. *)
Definition tryRead (host : Access) (p : string) : string * option OsError :=
  let p :=
    match evalSymlinks host p with
    | Some resolved => resolved
    | None => p
    end in
  match statPath host p with
  | inl err =>
      if isNotExist err then ("not-exist", Some err)
      else if deniedErrno err then ("permission-denied", Some err)
      else ("other-stat-error", Some err)
  | inr true =>
      match openPath host p with
      | Some err => openFailure err
      | None =>
          match readdirnames host p with
          | Some EOF | None => ("ok", None)
          | Some err =>
              if deniedErrno err then ("permission-denied", Some err)
              else ("other-readdir-error", Some err)
          end
      end
  | inr false =>
      match openPath host p with
      | Some err => openFailure err
      | None =>
          match readByte host p with
          | Some EOF | None => ("ok", None)
          | Some err =>
              if deniedErrno err then ("permission-denied", Some err)
              else ("other-read-error", Some err)
          end
      end
  end.

(** The protected paths, for the value [home] of [os.Getenv("HOME")]. *)
Definition testPaths (home : string) : list string :=
  ["/Users/Shared/Library/Mail";
   "/Library/Mail";
   Filepath.Join [home; "Library/Messages"];
   Filepath.Join [home; "Library/Safari"];
   "/var/db/backupd";
   "/private/var/db";
   "/System/Library/CoreServices"].

(** [p == "" || (p[:1] == "." && os.Getenv("HOME") == "")] *)
Definition skipPath (home p : string) : bool :=
  String.eqb p ""
  || (String.eqb (String.substring 0 1 p) "." && String.eqb home "").

(** The loop over the paths: [permFailures] collects, for every path whose
    status is a permission denial, the path and the error. *)
Fixpoint probePaths (host : Access) (home : string) (paths : list string)
  (permFailures : list (string * option OsError))
  : list (string * option OsError) :=
  match paths with
  | [] => permFailures
  | p :: rest =>
      if skipPath home p then probePaths host home rest permFailures
      else
        let '(status, err) := tryRead host p in
        if String.eqb status "ok"
        then probePaths host home rest permFailures
        else if String.eqb status "permission-denied"
        then probePaths host home rest (permFailures ++ [(p, err)])
        else probePaths host home rest permFailures
  end.

(** The error of [checkFullDiskAccess], with the denials it lists. *)
Inductive AccessError :=
| AccessNotGranted (permFailures : list (string * option OsError)).

Definition checkFullDiskAccess (host : Access) (home : string)
  : option AccessError :=
  let permFailures := probePaths host home (testPaths home) [] in
  if (0 <? length permFailures)%nat then Some (AccessNotGranted permFailures)
  else None.

(** The path the probes of [tryRead] work on. *)
Definition resolvedPath (host : Access) (p : string) : string :=
  match evalSymlinks host p with
  | Some resolved => resolved
  | None => p
  end.

(** The error of the first probe of a path that fails: [os.Stat], then
    [os.Open], then the read of one directory entry or of one byte, for
    which [io.EOF] is no failure. *)
Definition firstFailure (host : Access) (p : string) : option OsError :=
  match statPath host p with
  | inl err => Some err
  | inr isDir =>
      match openPath host p with
      | Some err => Some err
      | None =>
          match (if isDir then readdirnames host p else readByte host p) with
          | Some EOF => None
          | r => r
          end
      end
  end.

(** The first failure on a path is a denial: a path error over [EACCES] or
    [EPERM], or, from [os.Open], any error that is [os.ErrPermission]. *)
Definition denied (host : Access) (p : string) : bool :=
  let p := resolvedPath host p in
  match statPath host p with
  | inl err => deniedErrno err
  | inr isDir =>
      match openPath host p with
      | Some err => isPermission err || deniedErrno err
      | None =>
          match (if isDir then readdirnames host p else readByte host p) with
          | Some err => deniedErrno err
          | None => false
          end
      end
  end.

(** ** What a computation leaves of the host *)

(** A relation between the host before and the host after holds for every
    run of a computation. *)
Definition always {A} (R : World -> World -> Prop) (m : M A) : Prop :=
  forall w, R w (snd (m w)).

(** Every error of a computation satisfies [P]. *)
Definition raises {A} (P : Error -> Prop) (m : M A) : Prop :=
  forall w e, fst (m w) = inl e -> P e.

(** The destination and the lock are as they were. *)
Definition untouched (w w' : World) : Prop :=
  dest w' = dest w /\ lockHeld w' = lockHeld w.

(** The calls made in between all satisfy [P]. *)
Definition callsAdded (P : Call -> Prop) (w w' : World) : Prop :=
  exists cs, calls w' = calls w ++ cs /\ Forall P cs.

(** The lines logged and the calls made before are still there, in their
    places. *)
Definition grows (w w' : World) : Prop :=
  (exists lines, output w' = output w ++ lines)
  /\ (exists cs, calls w' = calls w ++ cs).

(** The calls of the checks that precede the lock, and of the lock. *)
Definition preflightCall (b : Backup) (c : Call) : Prop :=
  In c [MkdirAll (Destination (config b));
        Exec "df" [Source (config b)];
        Exec "df" [Destination (config b)];
        Exec "df" ["-h"; Destination (config b)];
        Mkdir (LockFile (config b))].

(** A call that leaves the pointer and the snapshots in place: no
    [os.Remove], no [os.Symlink], and [os.RemoveAll] of the lock only. *)
Definition sparesPointer (lock : string) (c : Call) : Prop :=
  match c with
  | Remove _ | Symlink _ _ => False
  | RemoveAll path => path = lock
  | _ => True
  end.

(** The errors [Run] returns: the context of the step that failed and the
    error of that step. *)
Definition stepFailure (b : Backup) (context : string) (cause : Error)
  : Prop :=
  (context = "config validation failed"
   /\ In cause [SourceEmpty; DestinationEmpty; KeepTooSmall;
                PercentOutOfBounds])
  \/ (context = "path validation failed"
      /\ In cause [DestinationCreate;
                   SourceMissing (Source (config b));
                   SourceNotMounted (Source (config b));
                   DestinationNotMounted (Destination (config b))])
  \/ (context = "disk space check failed"
      /\ (In cause [DiskCheckCommand; DiskCheckOutput; DiskCheckFormat]
          \/ (exists e, cause = DiskCheckParse e)
          \/ (exists usage,
                 cause = DiskThresholdExceeded usage
                           (CleanupAtPercent (config b))
                 /\ CleanupAtPercent (config b) <= usage)))
  \/ (context = "failed to create lock"
      /\ In cause [AlreadyRunning (LockFile (config b)); LockIOError])
  \/ (context = "failed to setup logging"
      /\ In cause [LogDirError; LogOpenError])
  \/ (context = "failed to find rsync"
      /\ In cause [BinaryNotFound; IncompatibleBinary])
  \/ (context = "rsync failed"
      /\ In cause [ProcessPipeError; ProcessStartError;
                   ProcessExecutionError])
  \/ (context = "backup verification failed"
      /\ In cause [SnapshotMissing (snapDir b); SnapshotUnreadable;
                   SnapshotEmpty])
  \/ (context = "failed to finalize backup" /\ cause = FinalizeRenameError)
  \/ (context = "failed to update latest link" /\ cause = SymlinkError).

(** ** Concrete hosts and configurations *)

Module Sample.

Definition nl : string := String newline "".

Definition cfg : Config := {|
  Source := "/data";
  Destination := "/backups";
  Keep := 2;
  CleanupAtPercent := 95;
  ExcludeList := "";
  LogFile := "/var/log/backup.log";
  LockFile := "/tmp/backupRunningLock";
  DryRun := false;
  ForceSystemRsync := false;
  ShowProgress := false;
  RsyncBin := ""
|}.

(** A usage report whose percentage column reads [use]. *)
Definition dfReport (use : string) : string :=
  "Filesystem      Size  Used Avail Use% Mounted on" +:+ nl +:+
  "/dev/sda1       100G   50G   50G  " +:+ use +:+ " /backups" +:+ nl.

Definition versionText (v : string) : string :=
  "rsync  version " +:+ v +:+ "  protocol version 31" +:+ nl.

(** A Linux host with a recent rsync under [/usr/local/bin], a disk that
    is [use] full, and a transfer that leaves three entries. *)
Definition env (use : string) : Env := {|
  GOOS := "linux";
  stat := fun path =>
    if String.eqb path "/usr/local/bin/rsync" then StatOk
    else if String.eqb path "/data" then StatOk
    else if String.eqb path "/backups/CEST_2025-10-02_13.14.08" then StatOk
    else StatNotExist;
  mkdirAllFails := false;
  dfFails := fun _ => false;
  dfOutput := Some (dfReport use);
  lockMkdirFails := false;
  logDirFails := false;
  logOpenFails := false;
  logReadFails := false;
  logJobCount := 3;
  tailFails := false;
  versionOutput := fun _ => Some (versionText "3.2.7");
  rsyncStatus := ExitZero;
  rsyncStdout :=
    "Total transferred file size: 1,073,741,824 bytes" +:+ nl;
  rsyncStderr := "";
  rsyncLeaves := Some 3%nat;
  renameFails := false;
  removeFails := false;
  symlinkFails := false;
  readDirFails := false;
  removeAllFails := fun _ => false
|}.

(** The same host when [os.Symlink] fails. *)
Definition envNoSymlink : Env := {|
  GOOS := GOOS (env "40%"); stat := stat (env "40%");
  mkdirAllFails := false; dfFails := dfFails (env "40%");
  dfOutput := dfOutput (env "40%"); lockMkdirFails := false;
  logDirFails := false; logOpenFails := false; logReadFails := false;
  logJobCount := 3;
  tailFails := false; versionOutput := versionOutput (env "40%");
  rsyncStatus := ExitZero; rsyncStdout := rsyncStdout (env "40%");
  rsyncStderr := ""; rsyncLeaves := Some 3%nat;
  renameFails := false; removeFails := false;
  symlinkFails := true;
  readDirFails := false; removeAllFails := fun _ => false
|}.

(** The same host when the destination cannot be listed. *)
Definition envNoReadDir : Env := {|
  GOOS := GOOS (env "40%"); stat := stat (env "40%");
  mkdirAllFails := false; dfFails := dfFails (env "40%");
  dfOutput := dfOutput (env "40%"); lockMkdirFails := false;
  logDirFails := false; logOpenFails := false; logReadFails := false;
  logJobCount := 3;
  tailFails := false; versionOutput := versionOutput (env "40%");
  rsyncStatus := ExitZero; rsyncStdout := rsyncStdout (env "40%");
  rsyncStderr := ""; rsyncLeaves := Some 3%nat;
  renameFails := false; removeFails := false; symlinkFails := false;
  readDirFails := true;
  removeAllFails := fun _ => false
|}.



(** Statistics in which an earlier sentence of the same shape precedes the
    one-gigabyte sentence. *)
Definition statsTwice : string :=
  "Total transferred file size: 5 bytes" +:+ nl +:+ oneGigabyteLine +:+ nl.

(** The statistics a transfer of one gigabyte prints. *)
Definition statsReal : string :=
  "Number of files: 1 (reg: 1)" +:+ nl +:+
  "Total file size: 1,073,741,824 bytes" +:+ nl.

Definition statsTail : string :=
  nl +:+ "sent 1,074,004,056 bytes  received 35 bytes" +:+ nl +:+
  "total size is 1,073,741,824  speedup is 1.00" +:+ nl.

Definition snapshot (name : string) : DirEntry :=
  {| Name := name; Kind := KDir 3 |}.

Definition world (d : list DirEntry) : World :=
  {| dest := d; lockHeld := false; output := []; calls := [] |}.

(** 3 October 2025, 13:14:08 Central European Summer Time. *)
Definition now : Time.Time :=
  {| Time.unixSec := 1759490048; Time.nanos := 0;
     Time.zoneName := "CEST"; Time.zoneOffset := 7200 |}.

(** The run of [cfg] that starts at [now]. *)
Definition backup : Backup := NewBackup cfg now.

(** A dry run that keeps one snapshot, on a destination that holds two
    snapshots and the pointer to the newer one. *)
Definition cfgDry : Config := setDryRun (setKeep cfg 1) true.

Definition backupDry : Backup := NewBackup cfgDry now.

Definition twoSnapshots : list DirEntry :=
  [snapshot "CEST_2025-10-01_13.14.08";
   snapshot "CEST_2025-10-02_13.14.08";
   {| Name := "latest"; Kind := KSymlink "CEST_2025-10-02_13.14.08" |}].

(** A destination that holds two snapshots and the log file. *)
Definition withLogFile : list DirEntry :=
  [snapshot "CEST_2025-10-01_13.14.08";
   snapshot "CEST_2025-10-02_13.14.08";
   {| Name := "backup.log"; Kind := KFile |}].

(** A destination that holds three snapshots, an unfinished one, the log
    file and the pointer. *)
Definition threeSnapshots : list DirEntry :=
  [snapshot "CEST_2025-10-01_13.14.08";
   snapshot "CEST_2025-10-02_13.14.08";
   snapshot "CEST_2025-10-03_13.14.08";
   snapshot "CEST_2025-10-04_13.14.08_INCOMPLETE";
   {| Name := "backup.log"; Kind := KFile |};
   {| Name := "latest"; Kind := KSymlink "CEST_2025-10-03_13.14.08" |}].

(** The last second of winter time and the first of summer time, in
    central Europe, 30 March 2025. *)
Definition winterEnd : Time.Time :=
  {| Time.unixSec := 1743296399; Time.nanos := 0;
     Time.zoneName := "CET"; Time.zoneOffset := 3600 |}.

Definition summerStart : Time.Time :=
  {| Time.unixSec := 1743296400; Time.nanos := 0;
     Time.zoneName := "CEST"; Time.zoneOffset := 7200 |}.

(** One minute later. *)
Definition later : Time.Time :=
  {| Time.unixSec := 1759490108; Time.nanos := 0;
     Time.zoneName := "CEST"; Time.zoneOffset := 7200 |}.

Definition backupLater : Backup := NewBackup cfg later.

(** A host whose [config.json] decodes to a document with a retention
    count of 0 and a threshold of 120, and whose [broken.json] does not
    decode. *)
Definition readFile (filename : string) : option string :=
  if String.eqb filename "config.json" then Some "document"
  else if String.eqb filename "broken.json" then Some "{"
  else None.

Definition unmarshal (data : string) : option ConfigFile :=
  if String.eqb data "document" then
    Some {| source := "/data"; destination := "/backups"; keep := 0;
            cleanup_at_percent := 120; exclude_list := "";
            log_file := "/var/log/backup.log";
            lock_file := "/tmp/backupRunningLock"; dry_run := false;
            force_system_rsync := false; show_progress := false |}
  else None.

(** The host of [env] when the transfer ends with a non-zero status. *)
Definition envNoTransfer : Env := {|
  GOOS := GOOS (env "40%"); stat := stat (env "40%");
  mkdirAllFails := false; dfFails := dfFails (env "40%");
  dfOutput := dfOutput (env "40%"); lockMkdirFails := false;
  logDirFails := false; logOpenFails := false; logReadFails := false;
  logJobCount := 3;
  tailFails := false; versionOutput := versionOutput (env "40%");
  rsyncStatus := ExitNonZero;
  rsyncStdout := ""; rsyncStderr := "rsync error"; rsyncLeaves := Some 1%nat;
  renameFails := false; removeFails := false; symlinkFails := false;
  readDirFails := false; removeAllFails := fun _ => false
|}.

(** A host on which none of the three paths holds an rsync binary. *)
Definition envNoBinary : Env := {|
  GOOS := "linux";
  stat := fun path =>
    if String.eqb path "/data" then StatOk else StatNotExist;
  mkdirAllFails := false; dfFails := fun _ => false;
  dfOutput := Some (dfReport "40%"); lockMkdirFails := false;
  logDirFails := false; logOpenFails := false; logReadFails := false;
  logJobCount := 3;
  tailFails := false;
  versionOutput := fun _ => None;
  rsyncStatus := StartFails; rsyncStdout := ""; rsyncStderr := "";
  rsyncLeaves := None; renameFails := false; removeFails := false;
  symlinkFails := false; readDirFails := false;
  removeAllFails := fun _ => false
|}.

(** One day before [now]. *)
Definition dayBefore : Time.Time :=
  {| Time.unixSec := 1759403648; Time.nanos := 0;
     Time.zoneName := "CEST"; Time.zoneOffset := 7200 |}.

(** The no-break space U+00A0 and the ideographic space U+3000, in UTF-8. *)
Definition noBreakSpace : string :=
  String (ascii_of_N 0xC2) (String (ascii_of_N 0xA0) "").

Definition ideographicSpace : string :=
  String (ascii_of_N 0xE3)
    (String (ascii_of_N 0x80) (String (ascii_of_N 0x80) "")).

(** Statistics whose first sentence holds a count beyond 64 bits. *)
Definition statsOverflow : string :=
  "Total transferred file size: 99,999,999,999,999,999,999 bytes" +:+ nl +:+
  "sent 1,073,741,824 bytes  received 35 bytes" +:+ nl.

(** The run of [cfg] with a retention count of 1 that starts in the first
    second of summer time, on a destination that holds the snapshot of the
    last second of winter time and the pointer to it. *)
Definition backupSummer : Backup := NewBackup (setKeep cfg 1) summerStart.

Definition winterSnapshot : list DirEntry :=
  [snapshot "CET_2025-03-30_01.59.59";
   {| Name := "latest"; Kind := KSymlink "CET_2025-03-30_01.59.59" |}].

End Sample.

(** * Properties *)

Ltac case_if :=
  match goal with
  | |- context [if ?c then _ else _] => destruct c eqn:?
  end.

(** ** Configuration loading *)

Section LoadConfigFacts.

Variable os_ReadFile : string -> option string.
Variable json_Unmarshal : string -> option ConfigFile.

Lemma loadFromFile_default (filename : string) :
  (os_ReadFile filename = None \/
   exists data, os_ReadFile filename = Some data
                /\ json_Unmarshal data = None) ->
  loadFromFile os_ReadFile json_Unmarshal filename = DefaultConfig.
Proof.
  unfold loadFromFile.
  intros [Hr | [data [Hr Hu]]]; rewrite Hr; [|rewrite Hu];
    destruct (negb (String.eqb filename "")); reflexivity.
Qed.

(** C10: [LoadConfig] repairs a retention count below 1 (to 7) and a
    threshold outside 50..95 (to 90) instead of rejecting them, so a
    configuration returned without error has retention at least 1 and a
    threshold within 50..95; a file that cannot be read or decoded yields
    the built-in defaults without error; the only error is an empty source
    or destination path. *)
Theorem LoadConfig_repairs_and_defaults (filename : string) :
  let loaded := loadFromFile os_ReadFile json_Unmarshal filename in
  let r := LoadConfig os_ReadFile json_Unmarshal filename in
  (snd r = None ->
   1 <= Keep (fst r) /\ 50 <= CleanupAtPercent (fst r) <= 95
   /\ Keep (fst r) = (if Keep loaded <? 1 then 7 else Keep loaded)
   /\ CleanupAtPercent (fst r) =
        (if (CleanupAtPercent loaded <? 50) || (CleanupAtPercent loaded >? 95)
         then 90 else CleanupAtPercent loaded)
   /\ Source (fst r) = Source loaded
   /\ Destination (fst r) = Destination loaded)
  /\ ((os_ReadFile filename = None \/
       exists data, os_ReadFile filename = Some data
                    /\ json_Unmarshal data = None) ->
      r = (DefaultConfig, None))
  /\ (snd r <> None <-> Source loaded = "" \/ Destination loaded = "").
Proof.
  intros loaded r. subst r. unfold LoadConfig. fold loaded.
  split; [|split].
  - destruct (String.eqb (Source loaded) "" || String.eqb (Destination loaded) "");
      [discriminate|]. intros _.
    destruct (Keep loaded <? 1) eqn:Hk;
      destruct ((CleanupAtPercent loaded <? 50) || (CleanupAtPercent loaded >? 95)) eqn:Hp;
      cbn [fst setKeep setCleanupAtPercent Keep CleanupAtPercent Source Destination];
      rewrite ?Hk, ?Hp; cbn [fst setKeep setCleanupAtPercent Keep CleanupAtPercent Source Destination];
      try (apply orb_false_iff in Hp; destruct Hp as [Hp1 Hp2]);
      repeat split; try reflexivity; lia.
  - intros H. subst loaded. rewrite (loadFromFile_default filename H). reflexivity.
  - destruct (String.eqb (Source loaded) "") eqn:Hs;
      destruct (String.eqb (Destination loaded) "") eqn:Hd; cbn [orb snd];
      rewrite ?String.eqb_eq in *; rewrite ?String.eqb_neq in *;
      split; intros H; try congruence; auto; try (intros; discriminate).
    + destruct H; contradiction.
Qed.

End LoadConfigFacts.

Lemma LoadConfig_repairs_witness :
  let r := LoadConfig Sample.readFile Sample.unmarshal "config.json" in
  snd r = None /\ Keep (fst r) = 7 /\ CleanupAtPercent (fst r) = 90
  /\ LoadConfig Sample.readFile Sample.unmarshal "broken.json"
     = (DefaultConfig, None).
Proof.
  pose proof (LoadConfig_repairs_and_defaults Sample.readFile Sample.unmarshal
                "config.json") as (H1 & _ & _).
  pose proof (LoadConfig_repairs_and_defaults Sample.readFile Sample.unmarshal
                "broken.json") as (_ & H2 & _).
  cbv zeta in *.
  assert (E : snd (LoadConfig Sample.readFile Sample.unmarshal "config.json")
              = None) by reflexivity.
  destruct (H1 E) as (_ & _ & Hk & Hp & _).
  split; [exact E|]. split; [exact Hk|]. split; [exact Hp|].
  apply H2. right. exists "{". split; reflexivity.
Defined.

(** ** The disk-space guard *)

Lemma Contains_byte (c : ascii) (s : string) :
  Strings.Contains s (String c "") = true <-> hasByte c s.
Proof.
  unfold hasByte. induction s as [|a s IH]; simpl.
  - split; [discriminate | tauto].
  - destruct (ascii_dec c a) as [->|Hne].
    + destruct s; simpl; tauto.
    + rewrite IH. split; [tauto|]. intros [H|H]; [congruence|assumption].
Qed.

Lemma isSSHPath_bytes (path : string) :
  isSSHPath path = true <-> hasByte "@" path /\ hasByte ":" path.
Proof.
  unfold isSSHPath. rewrite andb_true_iff, !Contains_byte. reflexivity.
Qed.

Lemma parsedUsage_unfold (report : string) :
  parsedUsage report =
  let lines := Strings.Split report newline in
  if (length lines <? 2)%nat then None
  else
    let fields := Strings.Fields (nth 1 lines "") in
    if (length fields <? 5)%nat then None
    else match Strconv.Atoi (Strings.TrimSuffix (nth 4 fields "") "%") with
         | (usage, None) => Some usage
         | (_, Some _) => None
         end.
Proof.
  unfold parsedUsage, usageField.
  destruct (Strings.Split report newline) as [|l0 [|l1 ls]]; try reflexivity.
  cbn [length nth Nat.ltb Nat.leb].
  destruct (Strings.Fields l1) as [|f0 [|f1 [|f2 [|f3 [|f4 fs]]]]]; reflexivity.
Qed.

(** The fields of a line are cut as [strings.Fields] cuts them: on ASCII
    white space, and on the white space of Unicode as well once the line
    holds a byte that is not ASCII; a byte sequence that is not UTF-8 is no
    white space. *)
Example Fields_unicode_space :
  Strings.Fields ("50G" +:+ Sample.noBreakSpace +:+ "96% /backups")
  = ["50G"; "96%"; "/backups"]
  /\ Strings.Fields ("50G" +:+ Sample.ideographicSpace +:+ "96%")
     = ["50G"; "96%"]
  /\ Strings.Fields ("50G" +:+ String (ascii_of_N 160) "96%")
     = ["50G" +:+ String (ascii_of_N 160) "96%"]
  /\ Strings.Fields (String "009" " 50G  96% ") = ["50G"; "96%"].
Proof. vm_compute. repeat split. Qed.

(** C8: the disk check is skipped, with no probe, exactly when the
    destination holds both an at-sign and a colon; otherwise it probes, fails
    with the threshold error exactly when the parsed usage reaches the
    threshold, and answers a report it cannot parse (too few lines, too few
    fields, no number) with a parse error, never with success. *)
Theorem checkDiskSpace_guard (b : Backup) (env : Env) (w : World) :
  let dst := Destination (config b) in
  let thr := CleanupAtPercent (config b) in
  let r := checkDiskSpace b env w in
  let remote := hasByte "@" dst /\ hasByte ":" dst in
  (remote -> r = (inr tt, w))
  /\ (~ remote -> calls (snd r) = calls w ++ [Exec "df" ["-h"; dst]])
  /\ (~ remote -> dfOutput env = None -> fst r = inl DiskCheckCommand)
  /\ (~ remote -> forall report, dfOutput env = Some report ->
      ((exists usage t, fst r = inl (DiskThresholdExceeded usage t)) <->
       (exists usage, parsedUsage report = Some usage /\ thr <= usage))
      /\ (forall usage, parsedUsage report = Some usage ->
          fst r = if usage >=? thr
                  then inl (DiskThresholdExceeded usage thr) else inr tt)
      /\ (parsedUsage report = None ->
          exists e, fst r = inl e /\ isDiskCheckParseError e)).
Proof.
  intros dst thr r remote. subst r remote. unfold checkDiskSpace. fold dst thr.
  pose proof (isSSHPath_bytes dst) as Hssh.
  destruct (isSSHPath dst) eqn:E.
  - assert (Hr : hasByte "@" dst /\ hasByte ":" dst) by (apply Hssh; reflexivity).
    split; [reflexivity|]. repeat split; intros Hn; contradiction.
  - assert (Hr : ~ (hasByte "@" dst /\ hasByte ":" dst))
      by (intros H; apply Hssh in H; discriminate).
    split; [intros H; contradiction|].
    unfold bind at 1. cbn [call].
    set (w1 := {| dest := dest w; lockHeld := lockHeld w; output := output w;
                  calls := calls w ++ [Exec "df" ["-h"; dst]] |}).
    split; [|split].
    + intros _. destruct (dfOutput env) as [report|]; [|reflexivity].
      destruct (length (Strings.Split report newline) <? 2)%nat; [reflexivity|].
      destruct (length (Strings.Fields (nth 1 (Strings.Split report newline) "")) <? 5)%nat;
        [reflexivity|].
      destruct (Strconv.Atoi _) as [usage [e|]]; [reflexivity|].
      destruct (usage >=? thr); reflexivity.
    + intros _ ->. reflexivity.
    + intros _ report ->. rewrite parsedUsage_unfold. cbv zeta.
      destruct (length (Strings.Split report newline) <? 2)%nat.
      { cbn. split; [|split].
        - split; [intros (u & t & H); discriminate | intros (u & H & _); discriminate].
        - intros u H; discriminate.
        - intros _. eexists; split; [reflexivity|]. left; reflexivity. }
      destruct (length (Strings.Fields (nth 1 (Strings.Split report newline) "")) <? 5)%nat.
      { cbn. split; [|split].
        - split; [intros (u & t & H); discriminate | intros (u & H & _); discriminate].
        - intros u H; discriminate.
        - intros _. eexists; split; [reflexivity|]. right; left; reflexivity. }
      destruct (Strconv.Atoi _) as [usage [e|]].
      { cbn. split; [|split].
        - split; [intros (u & t & H); discriminate | intros (u & H & _); discriminate].
        - intros u H; discriminate.
        - intros _. eexists; split; [reflexivity|]. right; right; eexists; reflexivity. }
      destruct (usage >=? thr) eqn:Hge; cbn.
      * split; [|split].
        -- split; [intros _; exists usage; split; [reflexivity|lia] | intros _; eauto].
        -- intros u [= <-]. rewrite Hge. reflexivity.
        -- discriminate.
      * split; [|split].
        -- split; [intros (u & t & H); discriminate | intros (u & [= <-] & H); lia].
        -- intros u [= <-]. rewrite Hge. reflexivity.
        -- discriminate.
Qed.

(** ** The run aborts on a full disk before it takes the lock *)

Lemma validateConfig_pure (b : Backup) (w : World) :
  snd (validateConfig b w) = w.
Proof.
  unfold validateConfig.
  repeat match goal with |- context [if ?c then _ else _] => destruct c end;
    reflexivity.
Qed.

Lemma validatePaths_ok (b : Backup) (env : Env) (w w1 : World) :
  validatePaths b env w = (inr tt, w1) ->
  dest w1 = dest w /\ lockHeld w1 = lockHeld w /\ output w1 = output w
  /\ calls w1 = calls w ++ [MkdirAll (Destination (config b));
                            Exec "df" [Source (config b)];
                            Exec "df" [Destination (config b)]].
Proof.
  unfold validatePaths, bind, call, fail, ret. cbn.
  destruct (mkdirAllFails env); [discriminate|].
  destruct (stat env (Source (config b))); try discriminate;
    cbn; destruct (dfFails env (Source (config b))); try discriminate;
    cbn; destruct (dfFails env (Destination (config b))); try discriminate;
    intros [= <-]; cbn; rewrite <- !app_assoc; auto.
Qed.

Lemma checkDiskSpace_threshold (b : Backup) (env : Env) (w : World) (usage thr : Z) :
  fst (checkDiskSpace b env w) = inl (DiskThresholdExceeded usage thr) ->
  checkDiskSpace b env w =
    (inl (DiskThresholdExceeded usage thr),
     {| dest := dest w; lockHeld := lockHeld w; output := output w;
        calls := calls w ++ [Exec "df" ["-h"; Destination (config b)]] |}).
Proof.
  unfold checkDiskSpace, bind, call, fail, ret, log.
  destruct (isSSHPath _); [discriminate|]. cbn.
  destruct (dfOutput env) as [report|]; [|discriminate].
  case_if; [discriminate|].
  case_if; [discriminate|].
  destruct (Strconv.Atoi _) as [u [e|]]; [discriminate|].
  case_if; [|discriminate].
  cbn. intros [= <- <-]. reflexivity.
Qed.

(** C6: when the disk check fails with the threshold error, [Run] returns
    that error, wrapped, having made only the probes of the path validation
    and of the disk check: the lock directory is never created, and the lock
    and the destination are as they were before the run. *)
Theorem disk_threshold_aborts_before_lock
  (b : Backup) (env : Env) (w w1 : World) (usage thr : Z) :
  fst (validateConfig b w) = inr tt ->
  validatePaths b env w = (inr tt, w1) ->
  fst (checkDiskSpace b env w1) = inl (DiskThresholdExceeded usage thr) ->
  let r := Run b env w in
  fst r = inl (Wrapped "disk space check failed"
                 (DiskThresholdExceeded usage thr))
  /\ calls (snd r) =
       calls w ++ [MkdirAll (Destination (config b));
                   Exec "df" [Source (config b)];
                   Exec "df" [Destination (config b)];
                   Exec "df" ["-h"; Destination (config b)]]
  /\ ~ In (Mkdir (LockFile (config b)))
          [MkdirAll (Destination (config b));
           Exec "df" [Source (config b)];
           Exec "df" [Destination (config b)];
           Exec "df" ["-h"; Destination (config b)]]
  /\ lockHeld (snd r) = lockHeld w
  /\ dest (snd r) = dest w.
Proof.
  intros Hcfg Hpaths Hdisk r. subst r.
  pose proof (validateConfig_pure b w) as Hpure.
  destruct (validateConfig b w) as [[e|[]] w0] eqn:Ecfg; [discriminate|].
  cbn in Hpure. subst w0.
  destruct (validatePaths_ok _ _ _ _ Hpaths) as (Hd & Hl & _ & Hc).
  apply checkDiskSpace_threshold in Hdisk.
  assert (HR : Run b env w =
               (inl (Wrapped "disk space check failed"
                       (DiskThresholdExceeded usage thr)),
                {| dest := dest w1; lockHeld := lockHeld w1;
                   output := output w1;
                   calls := calls w1
                            ++ [Exec "df" ["-h"; Destination (config b)]] |})).
  { unfold Run, preflight. unfold bind at 1. unfold bind at 1, wrap at 1.
    rewrite Ecfg.
    unfold bind at 1, wrap at 1. rewrite Hpaths.
    unfold bind at 1, wrap at 1. rewrite Hdisk. reflexivity. }
  rewrite HR. cbn [fst snd calls lockHeld dest].
  rewrite Hc, Hd, Hl, <- app_assoc. cbn [app].
  repeat split; try reflexivity.
  intros [H|[H|[H|[H|[]]]]]; discriminate.
Qed.

Lemma disk_threshold_witness :
  let b := NewBackup Sample.cfg Sample.now in
  let r := Run b (Sample.env "96%") (Sample.world []) in
  fst (checkDiskSpace b (Sample.env "96%")
         (snd (validatePaths b (Sample.env "96%") (Sample.world []))))
  = inl (DiskThresholdExceeded 96 95)
  /\ fst r = inl (Wrapped "disk space check failed"
                    (DiskThresholdExceeded 96 95))
  /\ lockHeld (snd r) = false.
Proof.
  intros b r.
  assert (H3 : fst (checkDiskSpace b (Sample.env "96%")
                      (snd (validatePaths b (Sample.env "96%") (Sample.world []))))
               = inl (DiskThresholdExceeded 96 95)) by (vm_compute; reflexivity).
  split; [exact H3|].
  pose proof (disk_threshold_aborts_before_lock b (Sample.env "96%")
                (Sample.world [])
                (snd (validatePaths b (Sample.env "96%") (Sample.world [])))
                96 95) as H.
  destruct H as (Hr & _ & _ & Hl & _);
    [vm_compute; reflexivity | vm_compute; reflexivity | exact H3 |].
  split; [exact Hr | exact Hl].
Defined.

Lemma checkDiskSpace_guard_witness :
  let b := NewBackup Sample.cfg Sample.now in
  fst (checkDiskSpace b (Sample.env "96%") (Sample.world []))
  = inl (DiskThresholdExceeded 96 95)
  /\ fst (checkDiskSpace b (Sample.env "94%") (Sample.world [])) = inr tt
  /\ (exists e, fst (checkDiskSpace b (Sample.env "full") (Sample.world []))
                = inl e /\ isDiskCheckParseError e).
Proof.
  intros b.
  assert (Hlocal : ~ (hasByte "@" (Destination (config b))
                      /\ hasByte ":" (Destination (config b)))).
  { intros [H _]. vm_compute in H. intuition discriminate. }
  pose proof (checkDiskSpace_guard b (Sample.env "96%") (Sample.world []))
    as (_ & _ & _ & H96).
  pose proof (checkDiskSpace_guard b (Sample.env "94%") (Sample.world []))
    as (_ & _ & _ & H94).
  pose proof (checkDiskSpace_guard b (Sample.env "full") (Sample.world []))
    as (_ & _ & _ & Hfull).
  cbv zeta in *.
  destruct (H96 Hlocal _ eq_refl) as (_ & H96' & _).
  destruct (H94 Hlocal _ eq_refl) as (_ & H94' & _).
  destruct (Hfull Hlocal _ eq_refl) as (_ & _ & Hfull').
  split; [exact (H96' 96 eq_refl)|].
  split; [exact (H94' 94 eq_refl)|].
  apply Hfull'. reflexivity.
Defined.

(** ** Transfer statistics *)

Lemma find_skip (p : list Regexp.Item) (pre s : string) :
  noMatchWithin p (String.length pre) (pre +:+ s) = true ->
  Regexp.find p (pre +:+ s) = Regexp.find p s.
Proof.
  induction pre as [|c pre IH]; [reflexivity|].
  change (String c pre +:+ s) with (String c (pre +:+ s)).
  cbn [String.length noMatchWithin].
  destruct (Regexp.matchHere p (String c (pre +:+ s))) eqn:E; [discriminate|].
  intros H. cbn [Regexp.find]. rewrite E. apply IH, H.
Qed.

Lemma parseWith_no_match (patterns : list (list Regexp.Item)) (text : string) :
  (forall re, In re patterns -> Regexp.find re text = None) ->
  parseWith patterns text = 0%float.
Proof.
  induction patterns as [|re rest IH]; intros H; [reflexivity|].
  cbn [parseWith]. unfold Regexp.FindStringSubmatch.
  rewrite (H re (or_introl eq_refl)). cbn.
  apply IH. intros re' Hin. apply H. right. exact Hin.
Qed.

(** C9 (amended): the patterns are tried in a fixed order and the leftmost
    match of the first pattern that matches with a readable count wins, a
    pattern whose leftmost match holds a count [ParseInt] cannot read being
    passed over like one that does not match; a text in which no sentence
    of the first shape starts before the sentence
    "Total transferred file size: 1,073,741,824 bytes" yields exactly 1
    (commas stripped, bytes divided by 1024^3); a text that matches none of
    the patterns yields 0. *)
Theorem parseTransferredGB_first_match :
  (forall pre post,
      noMatchWithin totalPattern (String.length pre)
        (pre +:+ (oneGigabyteLine +:+ post)) = true ->
      parseTransferredGB (pre +:+ (oneGigabyteLine +:+ post)) = 1%float)
  /\ (forall text,
         (forall re, In re transferPatterns -> Regexp.find re text = None) ->
         parseTransferredGB text = 0%float)
  /\ (forall text whole group bytes,
         Regexp.find totalPattern text = Some (whole, [group]) ->
         Strconv.ParseInt (Strings.ReplaceAll group "," "") = (bytes, None) ->
         parseTransferredGB text = bytesToGB bytes)
  /\ (forall text whole group bytes,
         Regexp.find totalPattern text = None ->
         Regexp.find sentPattern text = Some (whole, [group]) ->
         Strconv.ParseInt (Strings.ReplaceAll group "," "") = (bytes, None) ->
         parseTransferredGB text = bytesToGB bytes)
  /\ (forall text whole group bytes,
         Regexp.find totalPattern text = None ->
         Regexp.find sentPattern text = None ->
         Regexp.find sizePattern text = Some (whole, [group]) ->
         Strconv.ParseInt (Strings.ReplaceAll group "," "") = (bytes, None) ->
         parseTransferredGB text = bytesToGB bytes)
  /\ (forall text,
         parseTransferredGB text =
         match readableCount totalPattern text with
         | Some bytes => bytesToGB bytes
         | None =>
             match readableCount sentPattern text with
             | Some bytes => bytesToGB bytes
             | None =>
                 match readableCount sizePattern text with
                 | Some bytes => bytesToGB bytes
                 | None => 0%float
                 end
             end
         end).
Proof.
  split; [|split; [|split; [|split; [|split]]]].
  - intros pre post H.
    unfold parseTransferredGB, transferPatterns.
    cbn [parseWith]. unfold Regexp.FindStringSubmatch.
    change (Regexp.lits "Total transferred file size: "
              ++ [Regexp.Plus true Regexp.digitOrComma] ++ Regexp.lits " bytes")
      with totalPattern.
    rewrite (find_skip _ _ _ H). reflexivity.
  - intros text H. apply parseWith_no_match, H.
  - intros text whole group bytes H1 Hp.
    unfold parseTransferredGB, transferPatterns.
    cbn [parseWith]. unfold Regexp.FindStringSubmatch.
    change (Regexp.find totalPattern text) with
      (Regexp.find (nth 0 transferPatterns []) text) in H1.
    cbn [nth transferPatterns] in H1. rewrite H1.
    cbn [length Nat.ltb Nat.leb nth]. rewrite Hp. reflexivity.
  - intros text whole group bytes H1 H2 Hp.
    unfold parseTransferredGB, transferPatterns.
    cbn [parseWith]. unfold Regexp.FindStringSubmatch.
    change (Regexp.find totalPattern text) with
      (Regexp.find (nth 0 transferPatterns []) text) in H1.
    change (Regexp.find sentPattern text) with
      (Regexp.find (nth 1 transferPatterns []) text) in H2.
    cbn [nth transferPatterns] in H1, H2. rewrite H1, H2.
    cbn [length Nat.ltb Nat.leb nth]. rewrite Hp. reflexivity.
  - intros text whole group bytes H1 H2 H3 Hp.
    unfold parseTransferredGB, transferPatterns.
    cbn [parseWith]. unfold Regexp.FindStringSubmatch.
    change (Regexp.find totalPattern text) with
      (Regexp.find (nth 0 transferPatterns []) text) in H1.
    change (Regexp.find sentPattern text) with
      (Regexp.find (nth 1 transferPatterns []) text) in H2.
    change (Regexp.find sizePattern text) with
      (Regexp.find (nth 2 transferPatterns []) text) in H3.
    cbn [nth transferPatterns] in H1, H2, H3. rewrite H1, H2, H3.
    cbn [length Nat.ltb Nat.leb nth]. rewrite Hp. reflexivity.
  - intros text.
    unfold parseTransferredGB, readableCount, totalPattern, sentPattern,
      sizePattern.
    cbn [nth transferPatterns parseWith]. unfold Regexp.FindStringSubmatch.
    repeat match goal with
           | |- context [Regexp.find ?p text] =>
               destruct (Regexp.find p text) as [[? [|? ?]]|];
               cbn [length Nat.ltb Nat.leb nth]
           | |- context [Strconv.ParseInt ?x] =>
               destruct (Strconv.ParseInt x) as [? [?|]]
           end;
      reflexivity.
Qed.

Lemma parseTransferredGB_witness :
  parseTransferredGB
    (Sample.statsReal +:+ (oneGigabyteLine +:+ Sample.statsTail)) = 1%float
  /\ parseTransferredGB "rsync: connection unexpectedly closed" = 0%float
  /\ readableCount totalPattern Sample.statsOverflow = None
  /\ parseTransferredGB Sample.statsOverflow = 1%float.
Proof.
  destruct parseTransferredGB_first_match as (H1 & H0 & _ & _ & _ & Hall).
  split; [|split; [|split]].
  - apply H1. vm_compute. reflexivity.
  - apply H0. intros re Hin.
    destruct Hin as [<-|[<-|[<-|[]]]]; vm_compute; reflexivity.
  - vm_compute. reflexivity.
  - rewrite Hall. vm_compute. reflexivity.
Defined.

(** C9, as stated, fails: a text may hold the one-gigabyte sentence after an
    earlier sentence of the same shape, and the earlier one is read. *)
Lemma parseTransferredGB_not_any_text :
  Strings.Contains Sample.statsTwice oneGigabyteLine = true
  /\ parseTransferredGB Sample.statsTwice = bytesToGB 5
  /\ PrimFloat.eqb (parseTransferredGB Sample.statsTwice) 1%float = false.
Proof. vm_compute. repeat split. Qed.

(** ** Binary resolution *)












Lemma append_nil_r (s : string) : s +:+ "" = s.
Proof.
  induction s as [|a s IH]; [reflexivity|].
  change (String a s +:+ "") with (String a (s +:+ "")). rewrite IH. reflexivity.
Qed.













(** The product of a large major part with 10000 wraps around: such a
    version counts as too old although it is not below 3.2.0. *)
Remark isOldRsync_overflow :
  isOldRsync "922337203685477581.0.0" = true
  /\ belowMinimum 922337203685477581 0 0 = false.
Proof. vm_compute. split; reflexivity. Qed.

(** The arithmetic of [isOldRsync] weighs the parts by 10000 and 100: a part
    of 100 or more carries into the next one. *)
Remark isOldRsync_carry :
  isOldRsync "3.1.100" = false /\ belowMinimum 3 1 100 = true.
Proof. vm_compute. split; reflexivity. Qed.

(** ** Argument assembly *)

Lemma bind_value {A B} (m : M A) (k : A -> M B) (a : A) (w : World) :
  fst (m w) = inr a -> bind m k w = k a (snd (m w)).
Proof.
  unfold bind. destruct (m w) as [[e|a'] w']; cbn; [discriminate|].
  intros [= ->]. reflexivity.
Qed.

(** One step of a sequence whose value is known: the step is replaced by its
    value and the state it leaves is forgotten. *)
Ltac step v :=
  rewrite (bind_value _ _ v);
  [ match goal with
    | |- context [snd (?m ?w)] =>
        let w' := fresh "w" in generalize (snd (m w)); intros w'
    end
  | ].

Lemma rsyncArgs_vector (b : Backup) (env : Env) (lastBackup : string) (w : World) :
  fst (rsyncArgs b env lastBackup w) =
  inr (argVector (config b) (reportedVersion b env) (GOOS env)
         (remoteTransfer (config b)) (priorSnapshot b env lastBackup)
         (excludeFileExists b env) (DryRun (config b)) (snapDir b)).
Proof.
  unfold rsyncArgs, argVector.
  set (ssh := if remoteTransfer (config b) then RsyncSSHArgs else []).
  set (progress := if ShowProgress (config b) then ["--progress"] else []).
  set (mac := match reportedVersion b env with
              | Some v => if String.eqb (GOOS env) "darwin" && negb (isOldRsync v)
                          then RsyncMacOSArgs else []
              | None => []
              end).
  set (link := match priorSnapshot b env lastBackup with
               | Some path => ["--link-dest=" +:+ path]
               | None => []
               end).
  set (excl := if excludeFileExists b env
               then ["--exclude-from=" +:+ ExcludeList (config b)] else []).
  set (dry := if DryRun (config b) then ["--dry-run"] else []).
  step tt; [|reflexivity].
  step (RsyncBaseArgs ++ ssh);
    [|subst ssh; unfold remoteTransfer; case_if; reflexivity].
  assert (Hp : (if ShowProgress (config b)
                then (RsyncBaseArgs ++ ssh) ++ ["--progress"]
                else RsyncBaseArgs ++ ssh)
               = (RsyncBaseArgs ++ ssh) ++ progress)
    by (subst progress; case_if; [reflexivity | rewrite app_nil_r; reflexivity]).
  rewrite Hp. clear Hp.
  step (match versionOutput env (RsyncBin (config b)) with
        | Some out => (Regexp.FindString versionPattern out, None)
        | None => ("", Some ProcessExecutionError)
        end);
    [|unfold getRsyncVersion, bind, call, ret; cbn; case_match; reflexivity].
  step (((RsyncBaseArgs ++ ssh) ++ progress) ++ mac).
  2:{ subst mac. unfold reportedVersion.
      destruct (versionOutput env (RsyncBin (config b))) as [out|];
        [|cbn; rewrite app_nil_r; reflexivity].
      unfold bind, log, ret.
      destruct (String.eqb (GOOS env) "darwin");
        destruct (isOldRsync (Regexp.FindString versionPattern out));
        cbn; rewrite ?app_nil_r; reflexivity. }
  step ((((RsyncBaseArgs ++ ssh) ++ progress) ++ mac) ++ link).
  2:{ subst link. unfold priorSnapshot, bind, log, ret.
      destruct (String.eqb lastBackup "(none)"); cbn;
        [rewrite app_nil_r; reflexivity|].
      destruct (stat env _); cbn; rewrite ?app_nil_r; reflexivity. }
  step (((((RsyncBaseArgs ++ ssh) ++ progress) ++ mac) ++ link) ++ excl).
  2:{ subst excl. unfold excludeFileExists, bind, log, ret.
      destruct (stat env _); cbn; rewrite ?app_nil_r; try reflexivity;
        destruct (String.eqb (ExcludeList (config b)) ""); reflexivity. }
  step ((((((RsyncBaseArgs ++ ssh) ++ progress) ++ mac) ++ link) ++ excl) ++ dry).
  2:{ subst dry. unfold bind, log, ret.
      destruct (DryRun (config b)); cbn; rewrite ?app_nil_r; reflexivity. }
  unfold ret. cbn [fst]. rewrite <- !app_assoc. reflexivity.
Qed.

(** C5 (amended): the argument vector is the base flags, then the
    remote-transport flags, the progress flag, the platform flags, the
    incremental-seed flag, the exclusion-file flag, the dry-run flag, and last
    the source with its trailing separator and the in-progress destination;
    two runs that agree on the configuration, the reported version, the
    platform, the prior snapshot the pointer leads to, the existence of the
    exclusion file and the in-progress snapshot path assemble the same
    vector, whatever else differs in their hosts. *)
Theorem rsyncArgs_deterministic :
  (forall b env lastBackup w,
      fst (rsyncArgs b env lastBackup w) =
      inr (argVector (config b) (reportedVersion b env) (GOOS env)
             (remoteTransfer (config b)) (priorSnapshot b env lastBackup)
             (excludeFileExists b env) (DryRun (config b)) (snapDir b)))
  /\ (forall b1 b2 env1 env2 last1 last2 w1 w2,
         config b1 = config b2 ->
         reportedVersion b1 env1 = reportedVersion b2 env2 ->
         GOOS env1 = GOOS env2 ->
         priorSnapshot b1 env1 last1 = priorSnapshot b2 env2 last2 ->
         excludeFileExists b1 env1 = excludeFileExists b2 env2 ->
         snapDir b1 = snapDir b2 ->
         fst (rsyncArgs b1 env1 last1 w1) = fst (rsyncArgs b2 env2 last2 w2)).
Proof.
  split; [exact rsyncArgs_vector|].
  intros b1 b2 env1 env2 last1 last2 w1 w2 Hc Hv Hg Hp He Hs.
  rewrite !rsyncArgs_vector, Hc, Hv, Hg, Hp, He, Hs. reflexivity.
Qed.

Lemma rsyncArgs_witness :
  fst (rsyncArgs Sample.backup (Sample.env "40%") "(none)" (Sample.world []))
  = fst (rsyncArgs Sample.backup Sample.envNoReadDir "(none)"
           (Sample.world [Sample.snapshot "old"]))
  /\ fst (rsyncArgs Sample.backup (Sample.env "40%") "(none)" (Sample.world []))
     = inr (RsyncBaseArgs
            ++ ["/data/"; "/backups/CEST_2025-10-03_13.14.08_INCOMPLETE"]).
Proof.
  destruct rsyncArgs_deterministic as [Hvec Hdet].
  split.
  - apply Hdet; reflexivity.
  - rewrite Hvec. vm_compute. reflexivity.
Defined.

(** C5, as stated, fails: two runs of one configuration on one host that
    start a minute apart agree on every input the claim lists, and their
    vectors differ in the in-progress destination. *)
Lemma rsyncArgs_depend_on_start_time :
  config Sample.backup = config Sample.backupLater
  /\ reportedVersion Sample.backup (Sample.env "40%")
     = reportedVersion Sample.backupLater (Sample.env "40%")
  /\ remoteTransfer (config Sample.backup)
     = remoteTransfer (config Sample.backupLater)
  /\ priorSnapshot Sample.backup (Sample.env "40%") "(none)"
     = priorSnapshot Sample.backupLater (Sample.env "40%") "(none)"
  /\ excludeFileExists Sample.backup (Sample.env "40%")
     = excludeFileExists Sample.backupLater (Sample.env "40%")
  /\ fst (rsyncArgs Sample.backup (Sample.env "40%") "(none)" (Sample.world []))
     = inr (RsyncBaseArgs
            ++ ["/data/"; "/backups/CEST_2025-10-03_13.14.08_INCOMPLETE"])
  /\ fst (rsyncArgs Sample.backupLater (Sample.env "40%") "(none)"
            (Sample.world []))
     = inr (RsyncBaseArgs
            ++ ["/data/"; "/backups/CEST_2025-10-03_13.15.08_INCOMPLETE"])
  /\ fst (rsyncArgs Sample.backup (Sample.env "40%") "(none)" (Sample.world []))
     <> fst (rsyncArgs Sample.backupLater (Sample.env "40%") "(none)"
               (Sample.world [])).
Proof. vm_compute. repeat split. discriminate. Qed.

(** ** Failures after the snapshot is finalized *)

Lemma bind_ok {A B} (m : M A) (k : A -> M B) (a : A) (w w' : World) :
  m w = (inr a, w') -> bind m k w = k a w'.
Proof. unfold bind. intros ->. reflexivity. Qed.

Lemma bind_err {A B} (m : M A) (k : A -> M B) (e : Error) (w w' : World) :
  m w = (inl e, w') -> bind m k w = (inl e, w').
Proof. unfold bind. intros ->. reflexivity. Qed.

Lemma removeLock_output (b : Backup) (env : Env) (w : World) :
  output (removeLock b env w) = output w.
Proof. unfold removeLock. case_if; reflexivity. Qed.

Lemma Run_under_lock (b : Backup) (env : Env) (w w1 : World) :
  preflight b env w = (inr tt, w1) ->
  Run b env w =
  (fst ((b' <- snapshotStage b env ;; publishStage b' env) w1),
   removeLock b env
     (snd ((b' <- snapshotStage b env ;; publishStage b' env) w1))).
Proof.
  intros H. unfold Run. rewrite (bind_ok _ _ _ _ _ H). unfold defer.
  destruct ((b' <- snapshotStage b env ;; publishStage b' env) w1).
  reflexivity.
Qed.

Lemma publishStage_link_error (b : Backup) (env : Env) (w w' : World) (e : Error) :
  updateLatestLink b env w = (inl e, w') ->
  publishStage b env w = (inl (Wrapped "failed to update latest link" e), w').
Proof.
  intros H. unfold publishStage.
  apply bind_err. unfold wrap. rewrite H. reflexivity.
Qed.

Lemma publishStage_link_ok (b : Backup) (env : Env) (w w' : World) :
  updateLatestLink b env w = (inr tt, w') ->
  publishStage b env w =
  match cleanupOldBackups b env w' with
  | (inl err, w'') =>
      log "Backup completed successfully" []
        (snd (log "Warning: cleanup failed: %v" [AErr err] w''))
  | (inr _, w'') => log "Backup completed successfully" [] w''
  end.
Proof.
  intros H. unfold publishStage.
  rewrite (bind_ok _ _ tt w w') by (unfold wrap; rewrite H; reflexivity).
  unfold bind. destruct (cleanupOldBackups b env w') as [[err|[]] w'']; reflexivity.
Qed.

(** C2 (amended): once the snapshot is finalized, a failure of the retention
    sweep is logged as a warning and the run still succeeds, whereas a
    failure to republish the pointer makes the run fail with the error
    "failed to update latest link": the run succeeds exactly when the pointer
    is republished, and the process exits with status 0 exactly when the run
    succeeds. *)
Theorem publish_failures :
  (forall b env w w1 b2 w2,
      preflight b env w = (inr tt, w1) ->
      snapshotStage b env w1 = (inr b2, w2) ->
      (forall w3 w4 e,
          updateLatestLink b2 env w2 = (inr tt, w3) ->
          cleanupOldBackups b2 env w3 = (inl e, w4) ->
          fst (Run b env w) = inr tt
          /\ In {| format := "Warning: cleanup failed: %v"; args := [AErr e] |}
                (output (snd (Run b env w))))
      /\ (forall e,
             fst (updateLatestLink b2 env w2) = inl e ->
             fst (Run b env w)
             = inl (Wrapped "failed to update latest link" e))
      /\ (fst (Run b env w) = inr tt <->
          fst (updateLatestLink b2 env w2) = inr tt))
  /\ (forall os_ReadFile json_Unmarshal configFile dryRun now env w cfg,
         LoadConfig os_ReadFile json_Unmarshal configFile = (cfg, None) ->
         (fst (main os_ReadFile json_Unmarshal configFile dryRun false 0
                 now env w) = 0 <->
          fst (Run (NewBackup (if dryRun then setDryRun cfg true else cfg) now)
                 env w) = inr tt)).
Proof.
  split.
  - intros b env w w1 b2 w2 Hpre Hsnap.
    rewrite (Run_under_lock _ _ _ _ Hpre).
    rewrite (bind_ok _ _ _ _ _ Hsnap). cbn [fst snd].
    split; [|split].
    + intros w3 w4 e Hlink Hclean.
      rewrite (publishStage_link_ok _ _ _ _ Hlink), Hclean.
      split; [reflexivity|].
      rewrite removeLock_output. cbn.
      rewrite <- app_assoc. apply in_or_app. right. left. reflexivity.
    + intros e He.
      destruct (updateLatestLink b2 env w2) as [[e'|[]] w3] eqn:E;
        [|discriminate].
      cbn in He. injection He as ->.
      rewrite (publishStage_link_error _ _ _ _ _ E). reflexivity.
    + destruct (updateLatestLink b2 env w2) as [[e'|[]] w3] eqn:E.
      * rewrite (publishStage_link_error _ _ _ _ _ E). cbn.
        split; discriminate.
      * rewrite (publishStage_link_ok _ _ _ _ E).
        destruct (cleanupOldBackups b2 env w3) as [[err|[]] w4]; cbn;
          split; reflexivity.
  - intros rf um cf dry now env w cfg Hload.
    unfold main. cbn [negb Z.eqb]. rewrite Hload.
    destruct (Run _ env w) as [[e|[]] w']; cbn; split; congruence.
Qed.

Lemma publish_failures_witness :
  fst (Run Sample.backup Sample.envNoReadDir (Sample.world [])) = inr tt
  /\ In {| format := "Warning: cleanup failed: %v";
           args := [AErr ReadDirError] |}
        (output (snd (Run Sample.backup Sample.envNoReadDir (Sample.world [])))).
Proof.
  destruct publish_failures as [H _].
  pose (w1 := snd (preflight Sample.backup Sample.envNoReadDir (Sample.world []))).
  pose (r2 := snapshotStage Sample.backup Sample.envNoReadDir w1).
  pose (b2 := withSnapDir
                (withConfig Sample.backup
                   (setRsyncBin Sample.cfg "/usr/local/bin/rsync"))
                "/backups/CEST_2025-10-03_13.14.08").
  destruct (H Sample.backup Sample.envNoReadDir (Sample.world []) w1 b2 (snd r2))
    as (Hwarn & _ & _).
  - vm_compute. reflexivity.
  - vm_compute. reflexivity.
  - apply (Hwarn (snd (updateLatestLink b2 Sample.envNoReadDir (snd r2)))
             (snd (updateLatestLink b2 Sample.envNoReadDir (snd r2)))
             ReadDirError).
    + vm_compute. reflexivity.
    + vm_compute. reflexivity.
Defined.

(** C2, as stated, fails: the snapshot is finalized, the pointer cannot be
    republished, and the run fails and the process exits with status 1. *)
Lemma republish_failure_fails_run :
  In {| Name := "CEST_2025-10-03_13.14.08"; Kind := KDir 3 |}
     (dest (snd (Run Sample.backup Sample.envNoSymlink (Sample.world []))))
  /\ In {| format := "Backup finalized: %s";
           args := [AStr "CEST_2025-10-03_13.14.08"] |}
        (output (snd (Run Sample.backup Sample.envNoSymlink (Sample.world []))))
  /\ fst (Run Sample.backup Sample.envNoSymlink (Sample.world []))
     = inl (Wrapped "failed to update latest link" SymlinkError)
  /\ In {| format := "Backup finalized: %s";
           args := [AStr "CEST_2025-10-03_13.14.08"] |}
        (output (snd (main Sample.readFile Sample.unmarshal "config.json"
                        false false 0 Sample.now Sample.envNoSymlink
                        (Sample.world []))))
  /\ fst (main Sample.readFile Sample.unmarshal "config.json" false false 0
            Sample.now Sample.envNoSymlink (Sample.world [])) = 1.
Proof.
  vm_compute. split; [left; reflexivity|].
  split; [do 10 right; left; reflexivity|].
  split; [reflexivity|].
  split; [do 10 right; left; reflexivity|reflexivity].
Qed.

(** ** Dry runs *)

(** C1 fails on the code: a dry run over a destination that holds two
    snapshots and the pointer to the newer one, with a retention count of 1,
    skips verification and finalization but then rewrites the pointer (to a
    snapshot that was never made) and removes the older snapshot. *)
Lemma dry_run_mutates_destination :
  DryRun (config Sample.backupDry) = true
  /\ fst (Run Sample.backupDry (Sample.env "40%")
            (Sample.world Sample.twoSnapshots)) = inr tt
  /\ dest (snd (Run Sample.backupDry (Sample.env "40%")
                  (Sample.world Sample.twoSnapshots)))
     = [Sample.snapshot "CEST_2025-10-02_13.14.08";
        {| Name := "latest"; Kind := KSymlink "CEST_2025-10-03_13.14.08" |}]
  /\ In (Symlink "CEST_2025-10-03_13.14.08" "/backups/latest")
        (calls (snd (Run Sample.backupDry (Sample.env "40%")
                       (Sample.world Sample.twoSnapshots))))
  /\ In (RemoveAll "/backups/CEST_2025-10-01_13.14.08")
        (calls (snd (Run Sample.backupDry (Sample.env "40%")
                       (Sample.world Sample.twoSnapshots))))
  /\ verifyBackup Sample.backupDry (Sample.world Sample.twoSnapshots)
     = (inr tt, Sample.world Sample.twoSnapshots)
  /\ finalizeBackup Sample.backupDry (Sample.env "40%")
       (Sample.world Sample.twoSnapshots)
     = (inr Sample.backupDry, Sample.world Sample.twoSnapshots).
Proof.
  vm_compute.
  split; [reflexivity|]. split; [reflexivity|]. split; [reflexivity|].
  split; [do 9 right; left; reflexivity|].
  split; [do 10 right; left; reflexivity|].
  split; reflexivity.
Qed.

(** ** The retention sweep *)

Section SortFacts.

Implicit Types (l pre mid rest : list string) (x y m : string).

Lemma gtb_false_le x y : gtb x y = false -> String.le x y.
Proof.
  unfold gtb, String.le, String.leb.
  destruct (String.compare x y); [reflexivity|reflexivity|discriminate].
Qed.

Lemma gtb_true_le x y : gtb x y = true -> String.le y x.
Proof.
  unfold gtb, String.le, String.leb. rewrite (String.compare_antisym x y).
  destruct (String.compare y x); cbn; [discriminate|reflexivity|discriminate].
Qed.

Lemma sift_length x rest : length (snd (sift x rest)) = length rest.
Proof.
  revert x. induction rest as [|y r IH]; intros x; [reflexivity|].
  cbn [sift]. destruct (gtb x y); cbn [snd length]; rewrite IH; reflexivity.
Qed.

Lemma sift_perm x rest :
  Permutation (fst (sift x rest) :: snd (sift x rest)) (x :: rest).
Proof.
  revert x. induction rest as [|y r IH]; intros x; [reflexivity|].
  cbn [sift]. destruct (gtb x y); cbn [fst snd].
  - etransitivity; [apply perm_swap|]. apply perm_skip, IH.
  - etransitivity; [apply perm_swap|].
    etransitivity; [apply perm_skip, IH|]. apply perm_swap.
Qed.

Lemma sift_least x rest : Forall (String.le (fst (sift x rest))) (x :: rest).
Proof.
  revert x. induction rest as [|y r IH]; intros x.
  - cbn. constructor; [reflexivity|constructor].
  - cbn [sift]. destruct (gtb x y) eqn:E; cbn [fst].
    + specialize (IH y). inversion IH as [|? ? Hy Hr]; subst.
      constructor; [|constructor; assumption].
      etransitivity; [exact Hy|]. apply gtb_true_le, E.
    + specialize (IH x). inversion IH as [|? ? Hx Hr]; subst.
      constructor; [assumption|]. constructor; [|assumption].
      etransitivity; [exact Hx|]. apply gtb_false_le, E.
Qed.

Lemma sortStep_fold pre x mid rest :
  fold_left (sortStep (length pre))
    (seq (length pre + 1 + length mid) (length rest))
    (pre ++ x :: mid ++ rest)
  = pre ++ fst (sift x rest) :: mid ++ snd (sift x rest).
Proof.
  revert x mid. induction rest as [|y r IH]; intros x mid; [reflexivity|].
  cbn [length seq fold_left].
  assert (Hi : (pre ++ x :: mid ++ y :: r) !! length pre = Some x)
    by apply list_lookup_middle, eq_refl.
  assert (Hj : (pre ++ x :: mid ++ y :: r) !! (length pre + 1 + length mid)%nat
               = Some y).
  { change (pre ++ x :: mid ++ y :: r) with (pre ++ (x :: mid) ++ y :: r).
    rewrite app_assoc. apply list_lookup_middle.
    rewrite length_app. cbn. lia. }
  assert (Hnext : S (length pre + 1 + length mid)
                  = (length pre + 1 + length (mid ++ [x]))%nat)
    by (rewrite length_app; cbn; lia).
  assert (Hnext' : S (length pre + 1 + length mid)
                   = (length pre + 1 + length (mid ++ [y]))%nat)
    by (rewrite length_app; cbn; lia).
  unfold sortStep at 2. rewrite Hi, Hj. cbn [sift].
  destruct (gtb x y); cbn [fst snd].
  - unfold swap. rewrite Hi, Hj.
    assert (Hswap : <[(length pre + 1 + length mid)%nat:=x]>
                      (<[length pre:=y]> (pre ++ x :: mid ++ y :: r))
                    = pre ++ y :: (mid ++ [x]) ++ r).
    { replace (length pre) with (length pre + 0)%nat at 2 by lia.
      rewrite insert_app_r. cbn [list_insert base.insert].
      change (pre ++ y :: mid ++ y :: r) with (pre ++ (y :: mid) ++ y :: r).
      rewrite app_assoc.
      replace (length pre + 1 + length mid)%nat
        with (length (pre ++ y :: mid) + 0)%nat
        by (rewrite length_app; cbn; lia).
      rewrite insert_app_r. cbn [list_insert base.insert].
      rewrite <- !app_assoc. reflexivity. }
    rewrite Hswap, Hnext, IH, <- app_assoc. reflexivity.
  - replace (pre ++ x :: mid ++ y :: r) with (pre ++ x :: (mid ++ [y]) ++ r)
      by (rewrite <- app_assoc; reflexivity).
    rewrite Hnext', IH, <- app_assoc. reflexivity.
Qed.

Lemma sortInner_sift pre x rest :
  sortInner (pre ++ x :: rest) (length pre)
  = pre ++ fst (sift x rest) :: snd (sift x rest).
Proof.
  unfold sortInner.
  replace (length (pre ++ x :: rest) - (length pre + 1))%nat with (length rest)
    by (rewrite length_app; cbn; lia).
  pose proof (sortStep_fold pre x [] rest) as H.
  cbn [length app] in H. rewrite Nat.add_0_r in H. exact H.
Qed.

Lemma sortOuter_fold (k : nat) pre l :
  (k <= length l)%nat ->
  fold_left sortInner (seq (length pre) k) (pre ++ l)
  = pre ++ selectionSort k l.
Proof.
  revert pre l. induction k as [|k IH]; intros pre l Hk; [reflexivity|].
  destruct l as [|x rest]; [cbn in Hk; lia|].
  cbn [seq fold_left selectionSort].
  rewrite sortInner_sift.
  replace (pre ++ fst (sift x rest) :: snd (sift x rest))
    with ((pre ++ [fst (sift x rest)]) ++ snd (sift x rest))
    by (rewrite <- app_assoc; reflexivity).
  replace (S (length pre)) with (length (pre ++ [fst (sift x rest)]))
    by (rewrite length_app; cbn; lia).
  rewrite IH by (rewrite sift_length; cbn in Hk; lia).
  rewrite <- app_assoc. reflexivity.
Qed.

Lemma sortBackups_selection l :
  sortBackups l = selectionSort (length l - 1) l.
Proof.
  unfold sortBackups. apply (sortOuter_fold (length l - 1) [] l). lia.
Qed.

Lemma selectionSort_perm (k : nat) l : Permutation (selectionSort k l) l.
Proof.
  revert l. induction k as [|k IH]; intros l; [destruct l; reflexivity|].
  destruct l as [|x rest]; [reflexivity|].
  cbn [selectionSort]. rewrite IH. apply sift_perm.
Qed.

Lemma selectionSort_sorted (k : nat) l :
  (length l <= k + 1)%nat -> StronglySorted String.le (selectionSort k l).
Proof.
  revert l. induction k as [|k IH]; intros l Hk.
  - destruct l as [|x [|y l]]; cbn in *; try lia; repeat constructor.
  - destruct l as [|x rest]; [constructor|].
    cbn [selectionSort]. constructor.
    + apply IH. rewrite sift_length. cbn in Hk. lia.
    + pose proof (sift_least x rest) as Hleast.
      rewrite <- (sift_perm x rest) in Hleast.
      inversion Hleast as [|? ? _ Hr]; subst.
      rewrite selectionSort_perm. exact Hr.
Qed.

Lemma sortBackups_perm l : Permutation (sortBackups l) l.
Proof. rewrite sortBackups_selection. apply selectionSort_perm. Qed.

Lemma sortBackups_sorted l : StronglySorted String.le (sortBackups l).
Proof. rewrite sortBackups_selection. apply selectionSort_sorted. lia. Qed.

End SortFacts.

Section PruneFacts.

Implicit Types (entries : list DirEntry) (names removed : list string).

Lemma kept_spec removed name : kept removed name = true <-> ~ In name removed.
Proof.
  unfold kept. rewrite negb_true_iff, <- not_true_iff_false, existsb_exists.
  split; intros H.
  - intros Hin. apply H. exists name. split; [exact Hin|apply String.eqb_refl].
  - intros (x & Hin & Heq). apply String.eqb_eq in Heq. subst x. exact (H Hin).
Qed.

Lemma filter_cons_bool {A} (f : A -> bool) (x : A) (l : list A) :
  filter (fun a => f a) (x :: l)
  = if f x then x :: filter (fun a => f a) l else filter (fun a => f a) l.
Proof. rewrite filter_cons. destruct (f x); reflexivity. Qed.

Lemma withoutNames_nil entries : withoutNames [] entries = entries.
Proof.
  unfold withoutNames. induction entries as [|e l IH]; [reflexivity|].
  rewrite filter_cons_bool. change (kept [] (Name e)) with true.
  cbv iota. rewrite IH. reflexivity.
Qed.

Lemma withoutNames_cons name removed entries :
  withoutNames removed (removeEntry name entries)
  = withoutNames (name :: removed) entries.
Proof.
  unfold withoutNames, removeEntry.
  induction entries as [|e l IH]; [reflexivity|].
  rewrite !filter_cons_bool. unfold kept at 3. cbn [existsb].
  destruct (String.eqb (Name e) name) eqn:E; cbn [negb orb].
  - exact IH.
  - rewrite filter_cons_bool. fold (kept removed (Name e)).
    destruct (kept removed (Name e)); rewrite IH; reflexivity.
Qed.

Lemma finalizedNames_without removed entries :
  finalizedNames (withoutNames removed entries)
  = filter (fun name => kept removed name) (finalizedNames entries).
Proof.
  unfold finalizedNames, withoutNames.
  induction entries as [|e l IH]; [reflexivity|].
  rewrite !filter_cons_bool.
  destruct (kept removed (Name e)) eqn:Ee; destruct (isBackup e) eqn:Eb;
    cbn [map]; rewrite ?filter_cons_bool, ?Ee, ?Eb; cbn [map];
    rewrite IH; reflexivity.
Qed.

Lemma finalizedNames_In entries name :
  In name (finalizedNames entries) -> In name (map Name entries).
Proof.
  unfold finalizedNames. rewrite !in_map_iff.
  intros (e & He & Hin). exists e. split; [exact He|].
  apply list_elem_of_In in Hin. apply list_elem_of_filter in Hin.
  apply list_elem_of_In. tauto.
Qed.

Lemma finalizedNames_NoDup entries :
  NoDup (map Name entries) -> NoDup (finalizedNames entries).
Proof.
  unfold finalizedNames. induction entries as [|e l IH]; intros H.
  - constructor.
  - cbn in H. apply NoDup_cons in H. destruct H as [Hnot Hnd].
    rewrite filter_cons_bool. destruct (isBackup e); [|exact (IH Hnd)].
    cbn. apply NoDup_cons. split; [|exact (IH Hnd)].
    intros Hin. apply Hnot. apply list_elem_of_In.
    apply (finalizedNames_In l). apply list_elem_of_In. exact Hin.
Qed.

Lemma le_neq_ltb (r s : string) : String.le r s -> r <> s -> String.ltb r s = true.
Proof.
  unfold String.le, String.leb, String.ltb. intros Hle Hne.
  destruct (String.compare r s) eqn:E; [|reflexivity|destruct Hle].
  apply String.compare_eq_iff in E. contradiction.
Qed.

Lemma forEach_removeBackup (b : Backup) (env : Env) names (w : World) :
  (forall p, removeAllFails env p = false) ->
  fst (forEach (removeBackup b env) names w) = inr tt
  /\ dest (snd (forEach (removeBackup b env) names w))
     = withoutNames names (dest w).
Proof.
  intros Hok. revert w. induction names as [|name names IH]; intros w.
  - cbn. rewrite withoutNames_nil. split; reflexivity.
  - cbn [forEach].
    assert (Hstep : exists w', removeBackup b env name w = (inr tt, w')
                               /\ dest w' = removeEntry name (dest w)).
    { unfold removeBackup, bind, log, call, getWorld, setDest. cbn.
      rewrite Hok. eexists. split; reflexivity. }
    destruct Hstep as (w' & Hstep & Hd).
    rewrite (bind_ok _ _ _ _ _ Hstep).
    destruct (IH w') as [Hr Hdest]. split; [exact Hr|].
    rewrite Hdest, Hd. apply withoutNames_cons.
Qed.

End PruneFacts.

Lemma backupsToRemove_unfold (K : Z) (entries : list DirEntry) :
  backupsToRemove K entries =
  if Z.of_nat (length (finalizedNames entries)) <=? K then []
  else take (Z.to_nat (Z.of_nat (length (finalizedNames entries)) - K))
         (sortBackups (finalizedNames entries)).
Proof.
  unfold backupsToRemove. fold (finalizedNames entries).
  rewrite (Permutation_length (sortBackups_perm (finalizedNames entries))).
  reflexivity.
Qed.

Lemma sorted_prefix_below (s : list string) (n : nat) (r x : string) :
  StronglySorted String.le s -> NoDup s ->
  In r (take n s) -> In x s -> ~ In x (take n s) ->
  String.ltb r x = true.
Proof.
  intros Hsorted Hnd Hr Hx Hnot.
  rewrite <- (take_drop n s) in Hsorted, Hx.
  apply in_app_or in Hx. destruct Hx as [Hx|Hx]; [contradiction|].
  apply le_neq_ltb.
  - apply (StronglySorted_app_1_elem_of _ _ _ _ _ Hsorted);
      apply list_elem_of_In; assumption.
  - intros ->. contradiction.
Qed.

Lemma filter_bool_all {A} (f : A -> bool) (l : list A) :
  (forall x, In x l -> f x = true) -> filter (fun a => f a) l = l.
Proof.
  induction l as [|a l IH]; intros H; [reflexivity|].
  rewrite filter_cons_bool, (H a (or_introl eq_refl)), IH; [reflexivity|].
  intros x Hx. apply H. right. exact Hx.
Qed.

Lemma filter_bool_none {A} (f : A -> bool) (l : list A) :
  (forall x, In x l -> f x = false) -> filter (fun a => f a) l = [].
Proof.
  induction l as [|a l IH]; intros H; [reflexivity|].
  rewrite filter_cons_bool, (H a (or_introl eq_refl)). apply IH.
  intros x Hx. apply H. right. exact Hx.
Qed.

Lemma take_In {A} (n : nat) (s : list A) (x : A) : In x (take n s) -> In x s.
Proof.
  intros H. rewrite <- (take_drop n s). apply in_or_app. left. exact H.
Qed.

Lemma take_NoDup {A} (n : nat) (s : list A) : NoDup s -> NoDup (take n s).
Proof.
  intros H. rewrite <- (take_drop n s) in H. apply NoDup_app in H. tauto.
Qed.

Lemma kept_prefix (s : list string) (n : nat) :
  NoDup s ->
  filter (fun name => kept (take n s) name) s = drop n s.
Proof.
  intros Hnd.
  transitivity (filter (fun name => kept (take n s) name)
                  (take n s ++ drop n s));
    [rewrite take_drop; reflexivity|].
  rewrite filter_app.
  rewrite <- (take_drop n s) in Hnd. apply NoDup_app in Hnd.
  destruct Hnd as (_ & Hdisj & _).
  rewrite filter_bool_none, filter_bool_all; [reflexivity| |].
  - intros x Hx. apply kept_spec. intros Hin.
    apply (Hdisj x); apply list_elem_of_In; assumption.
  - intros x Hx. apply not_true_iff_false. rewrite kept_spec. tauto.
Qed.

(** C3 (amended): with a retention count K of at least 1, one sweep over a
    listing counts as finalized the children that are directories, are not
    named "latest" and do not carry the incomplete suffix; it removes nothing
    when there are at most K of them, and otherwise removes count - K of
    them, each lexically smaller than every finalized name it leaves, so that
    (every removal succeeding) exactly the K lexically greatest finalized
    names survive, and every other child of the destination with them. *)
Theorem prune_keeps_greatest (K : Z) (entries : list DirEntry) :
  1 <= K -> NoDup (map Name entries) ->
  let count := Z.of_nat (length (finalizedNames entries)) in
  let removed := backupsToRemove K entries in
  (count <= K -> removed = [])
  /\ (K < count -> Z.of_nat (length removed) = count - K)
  /\ NoDup removed
  /\ (forall r, In r removed -> In r (finalizedNames entries))
  /\ (forall r s, In r removed -> In s (finalizedNames entries) ->
                  ~ In s removed -> String.ltb r s = true)
  /\ (forall s, In s (finalizedNames (withoutNames removed entries)) <->
                In s (finalizedNames entries) /\ ~ In s removed)
  /\ (K < count ->
      Z.of_nat (length (finalizedNames (withoutNames removed entries))) = K)
  /\ (forall b env w,
         Keep (config b) = K -> dest w = entries ->
         readDirFails env = false ->
         (forall p, removeAllFails env p = false) ->
         fst (cleanupOldBackups b env w) = inr tt
         /\ dest (snd (cleanupOldBackups b env w))
            = withoutNames removed entries).
Proof.
  intros HK Hnd count removed.
  pose proof (finalizedNames_NoDup entries Hnd) as Hc.
  pose proof (sortBackups_perm (finalizedNames entries)) as Hperm.
  pose proof (sortBackups_sorted (finalizedNames entries)) as Hsorted.
  assert (Hs : NoDup (sortBackups (finalizedNames entries)))
    by (rewrite Hperm; exact Hc).
  assert (Hlen : length (sortBackups (finalizedNames entries))
                 = length (finalizedNames entries))
    by (apply Permutation_length, Hperm).
  assert (Hrem : removed =
                 if count <=? K then []
                 else take (Z.to_nat (count - K))
                        (sortBackups (finalizedNames entries)))
    by apply backupsToRemove_unfold.
  clearbody removed.
  destruct (count <=? K) eqn:Ecount.
  - apply Z.leb_le in Ecount. subst removed.
    split; [reflexivity|]. split; [lia|]. split; [constructor|].
    split; [intros r []|]. split; [intros r s []|].
    rewrite withoutNames_nil.
    split; [intros s; tauto|]. split; [lia|].
    intros b env w Hkeep Hdest Hread Hrm.
    unfold cleanupOldBackups. rewrite Hkeep.
    destruct (K <=? 0) eqn:E0; [apply Z.leb_le in E0; lia|].
    unfold bind, getWorld. rewrite Hread.
    rewrite Hdest, backupsToRemove_unfold. fold count.
    destruct (count <=? K) eqn:E1; [|apply Z.leb_gt in E1; lia].
    cbn. split; [reflexivity|exact Hdest].
  - apply Z.leb_gt in Ecount.
    set (n := Z.to_nat (count - K)) in *.
    set (sorted := sortBackups (finalizedNames entries)) in *.
    assert (Hn : (n <= length sorted)%nat) by (subst n count; lia).
    assert (Hin : forall r, In r removed -> In r (finalizedNames entries)).
    { intros r Hr. subst removed. apply take_In in Hr.
      apply list_elem_of_In. rewrite <- Hperm. apply list_elem_of_In, Hr. }
    assert (Hsurv : finalizedNames (withoutNames removed entries)
                    ≡ₚ drop n sorted).
    { rewrite finalizedNames_without, <- Hperm. subst removed.
      rewrite kept_prefix by exact Hs. reflexivity. }
    split; [lia|].
    split; [intros _; subst removed; rewrite length_take_le by exact Hn;
            subst n count; lia|].
    split; [subst removed; apply take_NoDup, Hs|].
    split; [exact Hin|].
    split.
    { intros r s Hr Hs' Hnot. subst removed.
      apply (sorted_prefix_below sorted n); try assumption.
      apply list_elem_of_In. fold sorted in Hperm. rewrite Hperm.
      apply list_elem_of_In, Hs'. }
    split.
    { intros s. rewrite finalizedNames_without.
      rewrite <- !list_elem_of_In, list_elem_of_filter, !list_elem_of_In.
      rewrite <- kept_spec. split; intros [H1 H2]; split; try assumption.
      - apply Is_true_true, H1.
      - apply Is_true_true, H2. }
    split.
    { intros _. rewrite (Permutation_length Hsurv), length_drop.
      subst n count. fold sorted in Hlen. lia. }
    intros b env w Hkeep Hdest Hread Hrm.
    unfold cleanupOldBackups. rewrite Hkeep.
    destruct (K <=? 0) eqn:E0; [apply Z.leb_le in E0; lia|].
    unfold bind, getWorld. rewrite Hread.
    rewrite Hdest, backupsToRemove_unfold. fold count.
    destruct (count <=? K) eqn:E1; [apply Z.leb_le in E1; lia|].
    fold n sorted. rewrite <- Hrem.
    destruct (forEach_removeBackup b env removed w Hrm) as [Hr Hd].
    split; [exact Hr|]. rewrite Hd, Hdest. reflexivity.
Qed.

Lemma prune_keeps_greatest_witness :
  backupsToRemove 2 Sample.threeSnapshots = ["CEST_2025-10-01_13.14.08"]
  /\ finalizedNames
       (withoutNames (backupsToRemove 2 Sample.threeSnapshots)
          Sample.threeSnapshots)
     = ["CEST_2025-10-02_13.14.08"; "CEST_2025-10-03_13.14.08"]
  /\ Z.of_nat (length (backupsToRemove 2 Sample.threeSnapshots)) = 3 - 2.
Proof.
  assert (Hnd : NoDup (map Name Sample.threeSnapshots)).
  { apply (NoDup_ListNoDup _). vm_compute.
    repeat (constructor; [cbn; intuition discriminate|]). constructor. }
  pose proof (prune_keeps_greatest 2 Sample.threeSnapshots ltac:(lia) Hnd)
    as (_ & Hcount & _).
  cbv zeta in Hcount.
  split; [vm_compute; reflexivity|]. split; [vm_compute; reflexivity|].
  apply Hcount. vm_compute. reflexivity.
Defined.

(** C3, as stated, fails: the log file is a child of the destination that is
    not the pointer and carries no suffix, so the claim counts three
    candidates against a retention count of 2 and has the smallest removed;
    the sweep counts directories only and removes nothing. *)
Lemma prune_counts_directories_only :
  candidatesByName Sample.withLogFile
  = ["CEST_2025-10-01_13.14.08"; "CEST_2025-10-02_13.14.08"; "backup.log"]
  /\ 2 < Z.of_nat (length (candidatesByName Sample.withLogFile))
  /\ backupsToRemove 2 Sample.withLogFile = []
  /\ Z.of_nat (length (backupsToRemove 2 Sample.withLogFile))
     <> Z.of_nat (length (candidatesByName Sample.withLogFile)) - 2.
Proof. vm_compute. repeat split; discriminate. Qed.

(** ** Snapshot names and the order of time *)

(** C4 fails on the code: the name starts with the abbreviation of the zone,
    so the run that starts in the first second of summer time is named
    lexically below the run that started one second earlier, in winter time,
    and a sweep that keeps one snapshot removes the newer of the two. *)
Lemma zone_change_reverses_names :
  Time.Before Sample.winterEnd Sample.summerStart = true
  /\ timestamp (NewBackup Sample.cfg Sample.winterEnd)
     = "CET_2025-03-30_01.59.59"
  /\ timestamp (NewBackup Sample.cfg Sample.summerStart)
     = "CEST_2025-03-30_03.00.00"
  /\ String.ltb (timestamp (NewBackup Sample.cfg Sample.winterEnd))
       (timestamp (NewBackup Sample.cfg Sample.summerStart)) = false
  /\ gtb (timestamp (NewBackup Sample.cfg Sample.winterEnd))
       (timestamp (NewBackup Sample.cfg Sample.summerStart)) = true
  /\ backupsToRemove 1
       [Sample.snapshot (timestamp (NewBackup Sample.cfg Sample.summerStart));
        Sample.snapshot (timestamp (NewBackup Sample.cfg Sample.winterEnd))]
     = [timestamp (NewBackup Sample.cfg Sample.summerStart)].
Proof. vm_compute. repeat split. Qed.

(** The pointer is rewritten whatever the dry-run flag says: on every host
    [updateLatestLink] removes the pointer and asks for a new one. *)
Lemma updateLatestLink_unguarded (b : Backup) (env : Env) (w : World) :
  calls (snd (updateLatestLink b env w))
  = calls w ++ [Remove (latestLink b); Symlink (timestamp b) (latestLink b)].
Proof.
  unfold updateLatestLink, bind, call, getWorld, setDest, fail. cbn.
  match goal with
  | |- context [List.find ?f ?d] => destruct (List.find f d)
  end; [|destruct (symlinkFails env)];
    cbn; rewrite <- app_assoc; reflexivity.
Qed.

(** In a dry run, verification and finalization do nothing, on every host. *)
Lemma dry_run_skips_verify_and_finalize (b : Backup) (env : Env) (w : World) :
  DryRun (config b) = true ->
  verifyBackup b w = (inr tt, w) /\ finalizeBackup b env w = (inr b, w).
Proof.
  intros H. unfold verifyBackup, finalizeBackup. rewrite H. split; reflexivity.
Qed.

(** ** Names of runs that start in one zone *)

Section CalendarFacts.

Import Time.

Lemma yearOfEra_range doe : 0 <= doe <= 146096 -> 0 <= yearOfEra doe <= 399.
Proof. unfold yearOfEra. intros. Z.div_mod_to_equations. lia. Qed.

Lemma dayOfYear_range doe : 0 <= doe <= 146096 -> 0 <= dayOfYear doe <= 365.
Proof.
  unfold dayOfYear, daysBeforeYear, yearOfEra. intros.
  Z.div_mod_to_equations. lia.
Qed.

Lemma daysBeforeYear_step y :
  0 <= y -> 365 <= daysBeforeYear (y + 1) - daysBeforeYear y.
Proof. unfold daysBeforeYear. intros. Z.div_mod_to_equations. lia. Qed.

Lemma daysBeforeYear_mono y1 y2 :
  0 <= y1 -> y1 <= y2 -> daysBeforeYear y1 <= daysBeforeYear y2.
Proof.
  intros H0 Hle.
  assert (H : forall n, 0 <= n -> daysBeforeYear y1 <= daysBeforeYear (y1 + n)).
  { apply natlike_ind.
    - replace (y1 + 0) with y1 by lia. lia.
    - intros x Hx IH. replace (y1 + Z.succ x) with ((y1 + x) + 1) by lia.
      pose proof (daysBeforeYear_step (y1 + x) ltac:(lia)). lia. }
  specialize (H (y2 - y1) ltac:(lia)).
  replace (y1 + (y2 - y1)) with y2 in H by lia. exact H.
Qed.

Lemma dayOfYear_upper doe :
  0 <= doe <= 146096 ->
  doe < daysBeforeYear (yearOfEra doe + 1) \/ yearOfEra doe = 399.
Proof.
  unfold daysBeforeYear, yearOfEra. intros. Z.div_mod_to_equations. lia.
Qed.

Lemma yearOfEra_mono doe1 doe2 :
  0 <= doe1 -> doe1 < doe2 -> doe2 <= 146096 ->
  yearOfEra doe1 < yearOfEra doe2
  \/ (yearOfEra doe1 = yearOfEra doe2 /\ dayOfYear doe1 < dayOfYear doe2).
Proof.
  intros H0 Hlt Hmax.
  pose proof (yearOfEra_range doe1 ltac:(lia)).
  pose proof (yearOfEra_range doe2 ltac:(lia)).
  pose proof (dayOfYear_range doe1 ltac:(lia)) as Hd1.
  pose proof (dayOfYear_range doe2 ltac:(lia)) as Hd2.
  unfold dayOfYear in *.
  destruct (Z.lt_trichotomy (yearOfEra doe1) (yearOfEra doe2)) as [Hy|[Hy|Hy]].
  - left. exact Hy.
  - right. split; [exact Hy|]. rewrite Hy. lia.
  - exfalso.
    destruct (dayOfYear_upper doe2 ltac:(lia)) as [Hu|Hu]; [|lia].
    pose proof (daysBeforeYear_mono (yearOfEra doe2 + 1) (yearOfEra doe1)
                  ltac:(lia) ltac:(lia)).
    lia.
Qed.

Lemma monthIndex_range doy :
  0 <= doy <= 365 ->
  0 <= monthIndex doy <= 11 /\ 1 <= dayOfMonth doy <= 31.
Proof.
  unfold dayOfMonth, monthIndex. intros. Z.div_mod_to_equations. lia.
Qed.

Lemma monthIndex_mono doy1 doy2 :
  0 <= doy1 -> doy1 < doy2 -> doy2 <= 365 ->
  monthIndex doy1 < monthIndex doy2
  \/ (monthIndex doy1 = monthIndex doy2 /\ dayOfMonth doy1 < dayOfMonth doy2).
Proof.
  unfold dayOfMonth, monthIndex. intros. Z.div_mod_to_equations. lia.
Qed.

Lemma civil_lt (days1 days2 : Z) :
  days1 < days2 -> dateBefore (civil days1) (civil days2).
Proof.
  intros Hlt. unfold civil, dateBefore. cbv zeta.
  set (z1 := days1 + 719468). set (z2 := days2 + 719468).
  assert (Hz : z1 < z2) by (subst z1 z2; lia).
  pose proof (Z.mod_pos_bound z1 146097 ltac:(lia)) as Hm1.
  pose proof (Z.mod_pos_bound z2 146097 ltac:(lia)) as Hm2.
  pose proof (Z.div_mod z1 146097 ltac:(lia)) as He1.
  pose proof (Z.div_mod z2 146097 ltac:(lia)) as He2.
  set (era1 := z1 / 146097) in *. set (era2 := z2 / 146097) in *.
  set (doe1 := z1 mod 146097) in *. set (doe2 := z2 mod 146097) in *.
  pose proof (yearOfEra_range doe1 ltac:(lia)) as Hy1.
  pose proof (yearOfEra_range doe2 ltac:(lia)) as Hy2.
  pose proof (dayOfYear_range doe1 ltac:(lia)) as Hd1.
  pose proof (dayOfYear_range doe2 ltac:(lia)) as Hd2.
  pose proof (monthIndex_range _ Hd1) as [Hp1 Hq1].
  pose proof (monthIndex_range _ Hd2) as [Hp2 Hq2].
  assert (Hlex : yearOfEra doe1 + era1 * 400 < yearOfEra doe2 + era2 * 400
                 \/ (yearOfEra doe1 + era1 * 400 = yearOfEra doe2 + era2 * 400
                     /\ (monthIndex (dayOfYear doe1) < monthIndex (dayOfYear doe2)
                         \/ (monthIndex (dayOfYear doe1)
                             = monthIndex (dayOfYear doe2)
                             /\ dayOfMonth (dayOfYear doe1)
                                < dayOfMonth (dayOfYear doe2))))).
  { destruct (Z.lt_trichotomy era1 era2) as [He|[He|He]]; [left; lia| |lia].
    assert (Hdoe : doe1 < doe2) by lia.
    destruct (yearOfEra_mono doe1 doe2 ltac:(lia) Hdoe ltac:(lia))
      as [Hy|[Hy Hd]]; [left; lia|].
    right. split; [lia|].
    apply monthIndex_mono; lia. }
  set (y1 := yearOfEra doe1 + era1 * 400) in *.
  set (y2 := yearOfEra doe2 + era2 * 400) in *.
  set (mp1 := monthIndex (dayOfYear doe1)) in *.
  set (mp2 := monthIndex (dayOfYear doe2)) in *.
  destruct (mp1 <? 10) eqn:E1; destruct (mp2 <? 10) eqn:E2;
    [apply Z.ltb_lt in E1 | apply Z.ltb_lt in E1 | apply Z.ltb_ge in E1
     | apply Z.ltb_ge in E1];
    [apply Z.ltb_lt in E2 | apply Z.ltb_ge in E2 | apply Z.ltb_lt in E2
     | apply Z.ltb_ge in E2];
    repeat match goal with
      | |- context [?a <=? 2] =>
          let E := fresh "E" in
          destruct (a <=? 2) eqn:E;
          [apply Z.leb_le in E | apply Z.leb_gt in E]
      end; lia.
Qed.

Lemma civil_range (days : Z) :
  -719528 <= days <= 2932896 ->
  let '(y, m, d) := civil days in
  0 <= y <= 9999 /\ 1 <= m <= 12 /\ 1 <= d <= 31.
Proof.
  intros [Hlo Hhi].
  assert (Hy : let '(y, m, d) := civil days in 0 <= y <= 9999).
  { assert (H0 : civil (-719528) = (0, 1, 1)) by reflexivity.
    assert (H1 : civil 2932896 = (9999, 12, 31)) by reflexivity.
    destruct (Z.eq_dec days (-719528)) as [->|Hn0]; [rewrite H0; lia|].
    destruct (Z.eq_dec days 2932896) as [->|Hn1]; [rewrite H1; lia|].
    pose proof (civil_lt (-719528) days ltac:(lia)) as Ha.
    pose proof (civil_lt days 2932896 ltac:(lia)) as Hb.
    rewrite H0 in Ha. rewrite H1 in Hb.
    destruct (civil days) as [[y m] d]. cbn in Ha, Hb. lia. }
  revert Hy. unfold civil. cbv zeta.
  pose proof (Z.mod_pos_bound (days + 719468) 146097 ltac:(lia)) as Hm.
  set (doe := (days + 719468) mod 146097) in *.
  pose proof (dayOfYear_range doe ltac:(lia)) as Hd.
  pose proof (monthIndex_range _ Hd) as [Hp Hq].
  intros Hy. split; [exact Hy|]. split; [|exact Hq].
  destruct (monthIndex (dayOfYear doe) <? 10) eqn:E;
    [apply Z.ltb_lt in E | apply Z.ltb_ge in E]; lia.
Qed.

Lemma clock_lt (sod1 sod2 : Z) :
  0 <= sod1 -> sod1 < sod2 -> sod2 < 86400 ->
  sod1 / 3600 < sod2 / 3600
  \/ (sod1 / 3600 = sod2 / 3600
      /\ (sod1 mod 3600 / 60 < sod2 mod 3600 / 60
          \/ (sod1 mod 3600 / 60 = sod2 mod 3600 / 60
              /\ sod1 mod 60 < sod2 mod 60))).
Proof. intros. Z.div_mod_to_equations. lia. Qed.

Lemma clock_range (sod : Z) :
  0 <= sod < 86400 ->
  0 <= sod / 3600 < 24 /\ 0 <= sod mod 3600 / 60 < 60 /\ 0 <= sod mod 60 < 60.
Proof. intros. Z.div_mod_to_equations. lia. Qed.

End CalendarFacts.

Section NameFacts.

Import Time.

Lemma digitChar_compare (a b : Z) :
  0 <= a <= 9 -> 0 <= b <= 9 ->
  Ascii.compare (digitChar a) (digitChar b) = (a ?= b).
Proof.
  intros Ha Hb. unfold Ascii.compare, digitChar.
  rewrite !N_ascii_embedding by lia.
  rewrite Z2N.inj_compare by lia. apply Z.add_compare_mono_l.
Qed.

Lemma appendInt_2 (x : Z) :
  0 <= x < 100 ->
  appendInt x 2
  = String (digitChar (x / 10 mod 10)) (String (digitChar (x mod 10)) "").
Proof.
  intros Hx. unfold appendInt.
  destruct (x <? 0) eqn:E; [apply Z.ltb_lt in E; lia|].
  cbn [digitsOf Nat.leb Nat.pred]. rewrite andb_false_r, andb_true_r.
  destruct (x / 10 <? 10) eqn:E1; [reflexivity|].
  apply Z.ltb_ge in E1. Z.div_mod_to_equations. lia.
Qed.

Lemma appendInt_4 (x : Z) :
  0 <= x < 10000 ->
  appendInt x 4
  = String (digitChar (x / 10 / 10 / 10 mod 10))
      (String (digitChar (x / 10 / 10 mod 10))
         (String (digitChar (x / 10 mod 10))
            (String (digitChar (x mod 10)) ""))).
Proof.
  intros Hx. unfold appendInt.
  destruct (x <? 0) eqn:E; [apply Z.ltb_lt in E; lia|].
  cbn [digitsOf Nat.leb Nat.pred]. rewrite !andb_false_r, andb_true_r.
  destruct (x / 10 / 10 / 10 <? 10) eqn:E1; [reflexivity|].
  apply Z.ltb_ge in E1. Z.div_mod_to_equations. lia.
Qed.

Lemma compare_app (p r1 r2 : string) :
  String.compare (p +:+ r1) (p +:+ r2) = String.compare r1 r2.
Proof.
  induction p as [|c p IH]; [reflexivity|].
  change (String c p +:+ r1) with (String c (p +:+ r1)).
  change (String c p +:+ r2) with (String c (p +:+ r2)).
  cbn [String.compare]. unfold Ascii.compare. rewrite N.compare_refl. exact IH.
Qed.

Lemma field2_lt (x y : Z) (r1 r2 : string) :
  0 <= x < 100 -> 0 <= y < 100 ->
  x < y \/ (x = y /\ String.compare r1 r2 = Lt) ->
  String.compare (appendInt x 2 +:+ r1) (appendInt y 2 +:+ r2) = Lt.
Proof.
  intros Hx Hy H. rewrite !appendInt_2 by assumption.
  change (String.compare
            (String (digitChar (x / 10 mod 10))
               (String (digitChar (x mod 10)) r1))
            (String (digitChar (y / 10 mod 10))
               (String (digitChar (y mod 10)) r2)) = Lt).
  cbn [String.compare].
  rewrite !digitChar_compare by (Z.div_mod_to_equations; lia).
  destruct (Z.compare_spec (x / 10 mod 10) (y / 10 mod 10));
    destruct (Z.compare_spec (x mod 10) (y mod 10));
    try reflexivity;
    try (exfalso; Z.div_mod_to_equations; lia).
  destruct H as [H|[_ H]]; [exfalso; Z.div_mod_to_equations; lia|exact H].
Qed.

Lemma field2_end_lt (x y : Z) :
  0 <= x < 100 -> 0 <= y < 100 -> x < y ->
  String.compare (appendInt x 2) (appendInt y 2) = Lt.
Proof.
  intros Hx Hy H.
  rewrite <- (append_nil_r (appendInt x 2)), <- (append_nil_r (appendInt y 2)).
  apply field2_lt; [assumption|assumption|left; exact H].
Qed.

Lemma field4_lt (x y : Z) (r1 r2 : string) :
  0 <= x < 10000 -> 0 <= y < 10000 ->
  x < y \/ (x = y /\ String.compare r1 r2 = Lt) ->
  String.compare (appendInt x 4 +:+ r1) (appendInt y 4 +:+ r2) = Lt.
Proof.
  intros Hx Hy H. rewrite !appendInt_4 by assumption.
  change (String.compare
            (String (digitChar (x / 10 / 10 / 10 mod 10))
               (String (digitChar (x / 10 / 10 mod 10))
                  (String (digitChar (x / 10 mod 10))
                     (String (digitChar (x mod 10)) r1))))
            (String (digitChar (y / 10 / 10 / 10 mod 10))
               (String (digitChar (y / 10 / 10 mod 10))
                  (String (digitChar (y / 10 mod 10))
                     (String (digitChar (y mod 10)) r2)))) = Lt).
  cbn [String.compare].
  rewrite !digitChar_compare by (Z.div_mod_to_equations; lia).
  destruct (Z.compare_spec (x / 10 / 10 / 10 mod 10) (y / 10 / 10 / 10 mod 10));
    try reflexivity; try (exfalso; Z.div_mod_to_equations; lia).
  destruct (Z.compare_spec (x / 10 / 10 mod 10) (y / 10 / 10 mod 10));
    try reflexivity; try (exfalso; Z.div_mod_to_equations; lia).
  destruct (Z.compare_spec (x / 10 mod 10) (y / 10 mod 10));
    try reflexivity; try (exfalso; Z.div_mod_to_equations; lia).
  destruct (Z.compare_spec (x mod 10) (y mod 10));
    try reflexivity; try (exfalso; Z.div_mod_to_equations; lia).
  destruct H as [H|[_ H]]; [exfalso; Z.div_mod_to_equations; lia|exact H].
Qed.

(** The date and the clock, rendered as in the names, compare as the times
    they render. *)
Lemma rendered_lt (y1 m1 d1 h1 i1 s1 y2 m2 d2 h2 i2 s2 : Z) :
  0 <= y1 < 10000 -> 0 <= y2 < 10000 ->
  0 <= m1 < 100 -> 0 <= m2 < 100 -> 0 <= d1 < 100 -> 0 <= d2 < 100 ->
  0 <= h1 < 100 -> 0 <= h2 < 100 -> 0 <= i1 < 100 -> 0 <= i2 < 100 ->
  0 <= s1 < 100 -> 0 <= s2 < 100 ->
  dateBefore (y1, m1, d1) (y2, m2, d2)
  \/ ((y1, m1, d1) = (y2, m2, d2)
      /\ (h1 < h2 \/ (h1 = h2 /\ (i1 < i2 \/ (i1 = i2 /\ s1 < s2))))) ->
  String.compare
    (appendInt y1 4 +:+ "-" +:+ appendInt m1 2 +:+ "-" +:+ appendInt d1 2
     +:+ "_" +:+ appendInt h1 2 +:+ "." +:+ appendInt i1 2 +:+ "."
     +:+ appendInt s1 2)
    (appendInt y2 4 +:+ "-" +:+ appendInt m2 2 +:+ "-" +:+ appendInt d2 2
     +:+ "_" +:+ appendInt h2 2 +:+ "." +:+ appendInt i2 2 +:+ "."
     +:+ appendInt s2 2) = Lt.
Proof.
  intros Hy1 Hy2 Hm1 Hm2 Hd1 Hd2 Hh1 Hh2 Hi1 Hi2 Hs1 Hs2 H.
  assert (Hlex :
    y1 < y2 \/ (y1 = y2 /\ (m1 < m2 \/ (m1 = m2 /\ (d1 < d2 \/ (d1 = d2 /\
    (h1 < h2 \/ (h1 = h2 /\ (i1 < i2 \/ (i1 = i2 /\ s1 < s2)))))))))).
  { destruct H as [H|[[= -> -> ->] H]]; [unfold dateBefore in H|];
      intuition lia. }
  clear H.
  apply field4_lt; [assumption..|].
  destruct Hlex as [H|[-> Hlex]]; [left; exact H|right; split; [reflexivity|]].
  rewrite compare_app. apply field2_lt; [assumption..|].
  destruct Hlex as [H|[-> Hlex]]; [left; exact H|right; split; [reflexivity|]].
  rewrite compare_app. apply field2_lt; [assumption..|].
  destruct Hlex as [H|[-> Hlex]]; [left; exact H|right; split; [reflexivity|]].
  rewrite compare_app. apply field2_lt; [assumption..|].
  destruct Hlex as [H|[-> Hlex]]; [left; exact H|right; split; [reflexivity|]].
  rewrite compare_app. apply field2_lt; [assumption..|].
  destruct Hlex as [H|[-> Hlex]]; [left; exact H|right; split; [reflexivity|]].
  rewrite compare_app. apply field2_end_lt; assumption.
Qed.

(** Between two start times that carry the same zone, within the years 0 to
    9999, the earlier second has the lexically smaller name: the order of
    the names is the order of time as long as the zone element does not
    change. *)
Theorem Format_monotone_in_one_zone (t u : Time) :
  zoneName t = zoneName u -> zoneOffset t = zoneOffset u ->
  -62167219200 <= unixSec t + zoneOffset t ->
  unixSec u + zoneOffset u < 253402300800 ->
  unixSec t < unixSec u ->
  String.ltb (Format t) (Format u) = true.
Proof.
  intros Hname Hoff Hlo Hhi Hlt.
  assert (Hzone : zoneText t = zoneText u)
    by (unfold zoneText; rewrite Hname, Hoff; reflexivity).
  unfold String.ltb, Format. rewrite Hzone.
  set (l1 := unixSec t + zoneOffset t) in *.
  set (l2 := unixSec u + zoneOffset u) in *.
  assert (Hl : l1 < l2) by (subst l1 l2; lia).
  pose proof (civil_range (l1 / 86400)
                ltac:(Z.div_mod_to_equations; lia)) as Hr1.
  pose proof (civil_range (l2 / 86400)
                ltac:(Z.div_mod_to_equations; lia)) as Hr2.
  pose proof (clock_range (l1 mod 86400)
                ltac:(Z.div_mod_to_equations; lia)) as Hc1.
  pose proof (clock_range (l2 mod 86400)
                ltac:(Z.div_mod_to_equations; lia)) as Hc2.
  assert (Horder :
    dateBefore (civil (l1 / 86400)) (civil (l2 / 86400))
    \/ (civil (l1 / 86400) = civil (l2 / 86400)
        /\ (l1 mod 86400 / 3600 < l2 mod 86400 / 3600
            \/ (l1 mod 86400 / 3600 = l2 mod 86400 / 3600
                /\ (l1 mod 86400 mod 3600 / 60 < l2 mod 86400 mod 3600 / 60
                    \/ (l1 mod 86400 mod 3600 / 60
                        = l2 mod 86400 mod 3600 / 60
                        /\ l1 mod 86400 mod 60 < l2 mod 86400 mod 60)))))).
  { destruct (Z.lt_trichotomy (l1 / 86400) (l2 / 86400)) as [Hd|[Hd|Hd]].
    - left. apply civil_lt, Hd.
    - right. split; [rewrite Hd; reflexivity|].
      apply clock_lt; Z.div_mod_to_equations; lia.
    - exfalso. Z.div_mod_to_equations. lia. }
  destruct (civil (l1 / 86400)) as [[y1 m1] d1].
  destruct (civil (l2 / 86400)) as [[y2 m2] d2].
  rewrite compare_app.
  assert (Hgoal := rendered_lt y1 m1 d1 (l1 mod 86400 / 3600)
                     (l1 mod 86400 mod 3600 / 60) (l1 mod 86400 mod 60)
                     y2 m2 d2 (l2 mod 86400 / 3600)
                     (l2 mod 86400 mod 3600 / 60) (l2 mod 86400 mod 60)).
  rewrite compare_app.
  rewrite Hgoal; [reflexivity|try lia..|exact Horder].
Qed.

End NameFacts.

Example names_in_one_zone :
  String.ltb (timestamp Sample.backup) (timestamp Sample.backupLater) = true.
Proof.
  apply (Format_monotone_in_one_zone Sample.now Sample.later);
    try reflexivity; vm_compute; congruence.
Qed.

(** * More of the program *)

(** ** Configurations that are loaded and saved *)

Section ConfigFacts.

Variable os_ReadFile : string -> option string.
Variable json_Unmarshal : string -> option ConfigFile.

Lemma LoadConfig_ok (filename : string) (cfg : Config) :
  LoadConfig os_ReadFile json_Unmarshal filename = (cfg, None) ->
  Source cfg <> "" /\ Destination cfg <> ""
  /\ 1 <= Keep cfg /\ 50 <= CleanupAtPercent cfg <= 95.
Proof.
  unfold LoadConfig.
  set (c := loadFromFile os_ReadFile json_Unmarshal filename).
  destruct (String.eqb_spec (Source c) ""); [discriminate|].
  destruct (String.eqb_spec (Destination c) ""); [discriminate|].
  cbn [orb]. intros [= <-].
  destruct (Z.ltb_spec (Keep c) 1);
    cbn [CleanupAtPercent setKeep];
    destruct (Z.ltb_spec (CleanupAtPercent c) 50);
    destruct (Z.gtb_spec (CleanupAtPercent c) 95);
    cbn; repeat split; try assumption; lia.
Qed.

(** X1: the run of a configuration that [LoadConfig] returned without an
    error, with or without the dry-run flag of the command line, passes
    [validateConfig], at whatever instant it starts: [main] never fails on
    the validation of the configuration. *)
Theorem loaded_config_passes_validation
  (filename : string) (cfg : Config) (dryRun : bool) (now : Time.Time)
  (w : World) :
  LoadConfig os_ReadFile json_Unmarshal filename = (cfg, None) ->
  validateConfig
    (NewBackup (if dryRun then setDryRun cfg true else cfg) now) w
  = (inr tt, w).
Proof.
  intros H. destruct (LoadConfig_ok _ _ H) as (Hs & Hd & Hk & Hlo & Hhi).
  unfold validateConfig.
  assert (Hc : forall f : Config -> string,
             (f = Source \/ f = Destination) ->
             f (config (NewBackup (if dryRun then setDryRun cfg true else cfg)
                          now)) = f cfg)
    by (intros f [-> | ->]; destruct dryRun; reflexivity).
  rewrite (Hc Source), (Hc Destination) by auto.
  destruct (String.eqb_spec (Source cfg) ""); [contradiction|].
  destruct (String.eqb_spec (Destination cfg) ""); [contradiction|].
  replace (Keep (config (NewBackup (if dryRun then setDryRun cfg true else cfg)
                           now))) with (Keep cfg)
    by (destruct dryRun; reflexivity).
  replace (CleanupAtPercent
             (config (NewBackup (if dryRun then setDryRun cfg true else cfg)
                        now))) with (CleanupAtPercent cfg)
    by (destruct dryRun; reflexivity).
  destruct (Z.ltb_spec (Keep cfg) 1); [lia|].
  destruct (Z.ltb_spec (CleanupAtPercent cfg) 50); [lia|].
  destruct (Z.gtb_spec (CleanupAtPercent cfg) 95); [lia|].
  reflexivity.
Qed.

End ConfigFacts.

Lemma loaded_config_passes_validation_witness :
  LoadConfig Sample.readFile Sample.unmarshal "config.json"
  = (setCleanupAtPercent (setKeep Sample.cfg 7) 90, None)
  /\ validateConfig
       (NewBackup (setDryRun (setCleanupAtPercent (setKeep Sample.cfg 7) 90)
                     true) Sample.now) (Sample.world [])
     = (inr tt, Sample.world []).
Proof.
  split; [reflexivity|].
  exact (loaded_config_passes_validation Sample.readFile Sample.unmarshal
           "config.json" _ true Sample.now (Sample.world []) eq_refl).
Defined.

Section SaveConfigFacts.

Variable json_MarshalIndent : ConfigFile -> option string.
Variable json_Unmarshal : string -> option ConfigFile.
Variable writeFails : string -> bool.
Variable failedWrite : Files -> string -> string -> Files.

(** X2: a configuration that passes the checks of [LoadConfig], saved by
    [SaveConfig] and loaded again from the file it wrote (the decoder
    reading back the document the encoder wrote), comes back with
    [ShowProgress] false and [RsyncBin] empty, and otherwise as it was
    saved: the progress setting is never written. *)
Theorem SaveConfig_then_LoadConfig
  (config : Config) (filename : string) (files files' : Files) :
  (forall data,
      json_MarshalIndent (configFileOf config) = Some data ->
      json_Unmarshal data = Some (configFileOf config)) ->
  filename <> "" ->
  Source config <> "" -> Destination config <> "" ->
  1 <= Keep config -> 50 <= CleanupAtPercent config <= 95 ->
  SaveConfig json_MarshalIndent writeFails failedWrite config filename files
  = (None, files') ->
  LoadConfig files' json_Unmarshal filename
  = ({| Source := Source config;
        Destination := Destination config;
        Keep := Keep config;
        CleanupAtPercent := CleanupAtPercent config;
        ExcludeList := ExcludeList config;
        LogFile := LogFile config;
        LockFile := LockFile config;
        DryRun := DryRun config;
        ForceSystemRsync := ForceSystemRsync config;
        ShowProgress := false;
        RsyncBin := "" |}, None).
Proof.
  intros Hjson Hname Hs Hd Hk Hp. unfold SaveConfig.
  destruct (json_MarshalIndent (configFileOf config)) as [data|] eqn:Em;
    [|discriminate].
  destruct (writeFails filename); [discriminate|].
  intros [= <-].
  unfold LoadConfig, loadFromFile, writeFile.
  destruct (String.eqb_spec filename ""); [contradiction|].
  cbn [negb]. rewrite String.eqb_refl, (Hjson data eq_refl).
  cbn [configFileOf source destination keep cleanup_at_percent exclude_list
       log_file lock_file dry_run force_system_rsync show_progress
       Source Destination Keep CleanupAtPercent RsyncBin DefaultConfig].
  destruct (String.eqb_spec (Source config) ""); [contradiction|].
  destruct (String.eqb_spec (Destination config) ""); [contradiction|].
  cbn [orb Keep].
  destruct (Z.ltb_spec (Keep config) 1); [lia|].
  cbn [CleanupAtPercent].
  destruct (Z.ltb_spec (CleanupAtPercent config) 50); [lia|].
  destruct (Z.gtb_spec (CleanupAtPercent config) 95); [lia|].
  reflexivity.
Qed.

End SaveConfigFacts.

Lemma SaveConfig_then_LoadConfig_witness :
  ShowProgress DefaultConfig = true
  /\ ShowProgress
       (fst (LoadConfig
               (snd (SaveConfig (fun _ => Some "document") (fun _ => false)
                       (fun files _ _ => files) DefaultConfig "config.json"
                       (fun _ => None)))
               (fun _ => Some (configFileOf DefaultConfig)) "config.json"))
     = false.
Proof.
  split; [reflexivity|].
  rewrite (SaveConfig_then_LoadConfig (fun _ => Some "document")
             (fun _ => Some (configFileOf DefaultConfig)) (fun _ => false)
             (fun files _ _ => files) DefaultConfig "config.json"
             (fun _ => None) _ (fun _ _ => eq_refl)); cbn;
    try reflexivity; try discriminate; lia.
Defined.

(** ** What the steps of a run leave of the host *)

Section Frames.

Context {A B : Type}.
Variable R : World -> World -> Prop.
Hypothesis R_refl : forall w, R w w.
Hypothesis R_trans : forall w1 w2 w3, R w1 w2 -> R w2 w3 -> R w1 w3.

Lemma always_ret (a : A) : always R (ret a).
Proof. intros w. apply R_refl. Qed.

Lemma always_fail (e : Error) : always R (@fail A e).
Proof. intros w. apply R_refl. Qed.

Lemma always_getWorld : always R getWorld.
Proof. intros w. apply R_refl. Qed.

Lemma always_bind (m : M A) (k : A -> M B) :
  always R m -> (forall a, always R (k a)) -> always R (bind m k).
Proof.
  intros Hm Hk w. unfold bind. specialize (Hm w).
  destruct (m w) as [[e|a] w1]; [exact Hm|].
  exact (R_trans _ _ _ Hm (Hk a w1)).
Qed.

Lemma always_wrap (context : string) (m : M A) :
  always R m -> always R (wrap context m).
Proof.
  intros Hm w. unfold wrap. specialize (Hm w).
  destruct (m w) as [[e|a] w1]; exact Hm.
Qed.

End Frames.

Lemma always_forEach {A} (R : World -> World -> Prop) (body : A -> M unit)
  (l : list A) :
  (forall w, R w w) -> (forall w1 w2 w3, R w1 w2 -> R w2 w3 -> R w1 w3) ->
  (forall x, always R (body x)) -> always R (forEach body l).
Proof.
  intros Hrefl Htrans Hbody. induction l as [|x l IH]; cbn [forEach].
  - apply always_ret, Hrefl.
  - apply always_bind; [exact Htrans|apply Hbody|intros _; exact IH].
Qed.

Lemma untouched_refl (w : World) : untouched w w.
Proof. split; reflexivity. Qed.

Lemma untouched_trans (w1 w2 w3 : World) :
  untouched w1 w2 -> untouched w2 w3 -> untouched w1 w3.
Proof. unfold untouched. intros [-> ->] [-> ->]. split; reflexivity. Qed.

Lemma callsAdded_refl (P : Call -> Prop) (w : World) : callsAdded P w w.
Proof. exists []. rewrite app_nil_r. split; [reflexivity|constructor]. Qed.

Lemma callsAdded_trans (P : Call -> Prop) (w1 w2 w3 : World) :
  callsAdded P w1 w2 -> callsAdded P w2 w3 -> callsAdded P w1 w3.
Proof.
  intros (cs1 & H1 & F1) (cs2 & H2 & F2). exists (cs1 ++ cs2).
  rewrite H2, H1, app_assoc. split; [reflexivity|].
  apply Forall_app. split; assumption.
Qed.

Lemma callsAdded_impl (P Q : Call -> Prop) (w w' : World) :
  (forall c, P c -> Q c) -> callsAdded P w w' -> callsAdded Q w w'.
Proof.
  intros H (cs & Hc & F). exists cs. split; [exact Hc|].
  eapply Forall_impl; [|exact H]. exact F.
Qed.

Lemma callsAdded_same (P : Call -> Prop) (w w' : World) :
  calls w' = calls w -> callsAdded P w w'.
Proof.
  intros H. exists []. rewrite app_nil_r. split; [exact H|constructor].
Qed.

Lemma callsAdded_call (P : Call -> Prop) (c : Call) :
  P c -> always (callsAdded P) (call c).
Proof.
  intros H w. exists [c]. split; [reflexivity|].
  constructor; [exact H|constructor].
Qed.

Lemma callsAdded_log (P : Call -> Prop) (fmt : string) (a : list Arg) :
  always (callsAdded P) (log fmt a).
Proof. intros w. apply callsAdded_same. reflexivity. Qed.

Lemma callsAdded_setDest (P : Call -> Prop) (d : list DirEntry) :
  always (callsAdded P) (setDest d).
Proof. intros w. apply callsAdded_same. reflexivity. Qed.

Lemma callsAdded_setLock (P : Call -> Prop) (held : bool) :
  always (callsAdded P) (setLock held).
Proof. intros w. apply callsAdded_same. reflexivity. Qed.

Lemma untouched_call (c : Call) : always untouched (call c).
Proof. intros w. split; reflexivity. Qed.

Lemma untouched_log (fmt : string) (a : list Arg) : always untouched (log fmt a).
Proof. intros w. split; reflexivity. Qed.

(** The structure of a computation, taken apart down to its calls. *)
Ltac frame_with refl trans :=
  repeat first
    [ apply always_ret; exact refl
    | apply always_fail; exact refl
    | apply always_getWorld; exact refl
    | apply always_wrap
    | apply callsAdded_log
    | apply callsAdded_setDest
    | apply callsAdded_setLock
    | apply untouched_log
    | apply untouched_call
    | apply always_bind; [exact trans| |intros ?]
    | match goal with
      | |- always _ (match ?x with _ => _ end) => destruct x
      end ].

Lemma preflight_checks_untouched (b : Backup) (env : Env) :
  always untouched
    (wrap "config validation failed" (validateConfig b) ;;;
     wrap "path validation failed" (validatePaths b env) ;;;
     wrap "disk space check failed" (checkDiskSpace b env)).
Proof.
  unfold validateConfig, validatePaths, checkDiskSpace.
  frame_with untouched_refl untouched_trans.
Qed.

Lemma preflight_calls (b : Backup) (env : Env) :
  always (callsAdded (preflightCall b)) (preflight b env).
Proof.
  unfold preflight, validateConfig, validatePaths, checkDiskSpace, createLock.
  frame_with (callsAdded_refl (preflightCall b))
             (callsAdded_trans (preflightCall b));
    apply callsAdded_call; cbn; tauto.
Qed.

Lemma wrap_value {A} (context : string) (m : M A) (a : A) (w w' : World) :
  wrap context m w = (inr a, w') -> m w = (inr a, w').
Proof.
  unfold wrap. destruct (m w) as [[e|a'] w1]; [discriminate|]. exact id.
Qed.

Section Raises.

Context {A B : Type}.
Variable P : Error -> Prop.

Lemma raises_ret (a : A) : raises P (ret a).
Proof. intros w e. discriminate. Qed.

Lemma raises_fail (e : Error) : P e -> raises P (@fail A e).
Proof. intros H w e' [= <-]. exact H. Qed.

Lemma raises_bind (m : M A) (k : A -> M B) :
  raises P m -> (forall a, raises P (k a)) -> raises P (bind m k).
Proof.
  intros Hm Hk w e. unfold bind. specialize (Hm w).
  destruct (m w) as [[e'|a] w1]; [|apply Hk].
  intros [= <-]. apply Hm. reflexivity.
Qed.

(** The same when the continuation needs a fact about the value. *)
Lemma raises_bind_value (Q : A -> Prop) (m : M A) (k : A -> M B) :
  (forall w a w', m w = (inr a, w') -> Q a) ->
  raises P m -> (forall a, Q a -> raises P (k a)) -> raises P (bind m k).
Proof.
  intros HQ Hm Hk w e. unfold bind. specialize (Hm w). specialize (HQ w).
  destruct (m w) as [[e'|a] w1].
  - intros [= <-]. apply Hm. reflexivity.
  - apply (Hk a). exact (HQ a w1 eq_refl).
Qed.

Lemma raises_wrap (Q : Error -> Prop) (context : string) (m : M A) :
  raises Q m -> (forall e, Q e -> P (Wrapped context e)) ->
  raises P (wrap context m).
Proof.
  intros Hm HQ w e. unfold wrap. specialize (Hm w).
  destruct (m w) as [[e'|a] w1]; [|discriminate].
  intros [= <-]. apply HQ, Hm. reflexivity.
Qed.

End Raises.

Lemma raises_log (P : Error -> Prop) (fmt : string) (a : list Arg) :
  raises P (log fmt a).
Proof. intros w e. discriminate. Qed.

Lemma raises_call (P : Error -> Prop) (c : Call) : raises P (call c).
Proof. intros w e. discriminate. Qed.

Lemma raises_getWorld (P : Error -> Prop) : raises P getWorld.
Proof. intros w e. discriminate. Qed.

Lemma raises_setDest (P : Error -> Prop) (d : list DirEntry) :
  raises P (setDest d).
Proof. intros w e. discriminate. Qed.

Lemma raises_setLock (P : Error -> Prop) (held : bool) : raises P (setLock held).
Proof. intros w e. discriminate. Qed.

(** The errors of a computation, read off its structure. *)
Ltac errors :=
  repeat first
    [ apply raises_ret
    | apply raises_log
    | apply raises_call
    | apply raises_getWorld
    | apply raises_setDest
    | apply raises_setLock
    | apply raises_fail; cbn; solve [eauto 8]
    | apply raises_bind; [|intros ?]
    | match goal with
      | |- raises _ (match ?x with _ => _ end) => destruct x eqn:?
      end ].

Lemma validateConfig_errors (b : Backup) :
  raises (fun e => In e [SourceEmpty; DestinationEmpty; KeepTooSmall;
                         PercentOutOfBounds])
    (validateConfig b).
Proof. unfold validateConfig. errors. Qed.

Lemma validatePaths_errors (b : Backup) (env : Env) :
  raises (fun e => In e [DestinationCreate;
                         SourceMissing (Source (config b));
                         SourceNotMounted (Source (config b));
                         DestinationNotMounted (Destination (config b))])
    (validatePaths b env).
Proof. unfold validatePaths. errors. Qed.

Lemma checkDiskSpace_errors (b : Backup) (env : Env) :
  raises (fun e =>
            In e [DiskCheckCommand; DiskCheckOutput; DiskCheckFormat]
            \/ (exists n, e = DiskCheckParse n)
            \/ (exists usage,
                   e = DiskThresholdExceeded usage
                         (CleanupAtPercent (config b))
                   /\ CleanupAtPercent (config b) <= usage))
    (checkDiskSpace b env).
Proof.
  unfold checkDiskSpace. errors.
  apply raises_fail. right. right. eexists. split; [reflexivity|].
  match goal with H : (_ >=? _) = true |- _ => apply Z.geb_le in H; exact H end.
Qed.

Lemma createLock_errors (b : Backup) (env : Env) :
  raises (fun e => In e [AlreadyRunning (LockFile (config b)); LockIOError])
    (createLock b env).
Proof. unfold createLock. errors. Qed.

Lemma setupLogging_errors (b : Backup) (env : Env) :
  raises (fun e => In e [LogDirError; LogOpenError]) (setupLogging b env).
Proof. unfold setupLogging, cleanupLog. errors. Qed.

Lemma findRsync_errors (b : Backup) (env : Env) :
  raises (fun e => In e [BinaryNotFound; IncompatibleBinary]) (findRsync b env).
Proof. unfold findRsync, getRsyncVersion. errors. Qed.

Lemma runRsync_errors (b : Backup) (env : Env) (lastBackup : string) :
  raises (fun e => In e [ProcessPipeError; ProcessStartError;
                         ProcessExecutionError])
    (runRsync b env lastBackup).
Proof.
  unfold runRsync, rsyncArgs, getRsyncVersion, rsyncEffect. errors.
Qed.

Lemma verifyBackup_errors (b : Backup) :
  raises (fun e => In e [SnapshotMissing (snapDir b); SnapshotUnreadable;
                         SnapshotEmpty])
    (verifyBackup b).
Proof. unfold verifyBackup. errors. Qed.

Lemma finalizeBackup_errors (b : Backup) (env : Env) :
  raises (fun e => e = FinalizeRenameError) (finalizeBackup b env).
Proof. unfold finalizeBackup. errors. Qed.

Lemma updateLatestLink_errors (b : Backup) (env : Env) :
  raises (fun e => e = SymlinkError) (updateLatestLink b env).
Proof. unfold updateLatestLink. errors. Qed.

Lemma getLastBackup_errors (P : Error -> Prop) (b : Backup) :
  raises P (getLastBackup b).
Proof. unfold getLastBackup. errors. Qed.

Lemma findRsync_value (b b' : Backup) (env : Env) (w w' : World) :
  findRsync b env w = (inr b', w') ->
  snapDir b' = snapDir b /\ timestamp b' = timestamp b
  /\ latestLink b' = latestLink b
  /\ DryRun (config b') = DryRun (config b)
  /\ Destination (config b') = Destination (config b).
Proof.
  unfold findRsync.
  destruct (ForceSystemRsync (config b)).
  - unfold bind, log, ret. intros [= <- _]. repeat split.
  - set (b1 := withConfig b _).
    destruct (String.eqb (RsyncBin (config b1)) "");
      [unfold fail; discriminate|].
    match goal with
    | |- bind ?m ?k w = _ -> _ =>
        destruct (m w) as [[e|[]] w1] eqn:E;
        [rewrite (bind_err _ _ _ _ _ E)|rewrite (bind_ok _ _ _ _ _ E)]
    end; [discriminate|].
    unfold bind, log, ret. intros [= <- _]. repeat split.
Qed.

Lemma raises_defer {A} (P : Error -> Prop) (f : World -> World) (body : M A) :
  raises P body -> raises P (defer f body).
Proof.
  intros H w e. unfold defer. specialize (H w).
  destruct (body w) as [r w1]. exact (H e).
Qed.

(** The disjunct of [stepFailure] that names the context at hand. *)
Ltac pick_disjunct :=
  first [ left; split; [reflexivity|]
        | right; pick_disjunct
        | split; [reflexivity|] ].

Ltac pick_step := unfold stepFailure; pick_disjunct.

Lemma preflight_errors (b : Backup) (env : Env) :
  raises (fun e => exists context cause,
              e = Wrapped context cause /\ stepFailure b context cause)
    (preflight b env).
Proof.
  unfold preflight.
  apply raises_bind;
    [eapply raises_wrap; [apply validateConfig_errors|]|intros _].
  { intros e He. eexists _, _. split; [reflexivity|]. pick_step. exact He. }
  apply raises_bind;
    [eapply raises_wrap; [apply validatePaths_errors|]|intros _].
  { intros e He. eexists _, _. split; [reflexivity|]. pick_step. exact He. }
  apply raises_bind;
    [eapply raises_wrap; [apply checkDiskSpace_errors|]|intros _].
  { intros e He. eexists _, _. split; [reflexivity|]. pick_step. exact He. }
  eapply raises_wrap; [apply createLock_errors|].
  intros e He. eexists _, _. split; [reflexivity|]. pick_step. exact He.
Qed.

Lemma snapshotStage_errors (b : Backup) (env : Env) :
  raises (fun e => exists context cause,
              e = Wrapped context cause /\ stepFailure b context cause)
    (snapshotStage b env).
Proof.
  unfold snapshotStage.
  apply raises_bind;
    [eapply raises_wrap; [apply setupLogging_errors|]|intros _].
  { intros e He. eexists _, _. split; [reflexivity|]. pick_step. exact He. }
  apply raises_bind; [apply raises_log|intros _].
  apply (raises_bind_value _ (fun b' => snapDir b' = snapDir b)).
  { intros w b' w' H. apply wrap_value in H.
    apply (findRsync_value _ _ _ _ _ H). }
  { eapply raises_wrap; [apply findRsync_errors|].
    intros e He. eexists _, _. split; [reflexivity|]. pick_step. exact He. }
  intros b' Hb'.
  apply raises_bind; [apply getLastBackup_errors|intros lastBackup].
  apply raises_bind; [apply raises_log|intros _].
  apply raises_bind;
    [eapply raises_wrap; [apply runRsync_errors|]|intros _].
  { intros e He. eexists _, _. split; [reflexivity|]. pick_step. exact He. }
  apply raises_bind;
    [eapply raises_wrap; [apply verifyBackup_errors|]|intros _].
  { intros e He. eexists _, _. split; [reflexivity|]. pick_step.
    rewrite <- Hb'. exact He. }
  eapply raises_wrap; [apply finalizeBackup_errors|].
  intros e He. eexists _, _. split; [reflexivity|]. pick_step. exact He.
Qed.

Lemma publishStage_errors (b b' : Backup) (env : Env) :
  raises (fun e => exists context cause,
              e = Wrapped context cause /\ stepFailure b context cause)
    (publishStage b' env).
Proof.
  unfold publishStage.
  apply raises_bind;
    [eapply raises_wrap; [apply updateLatestLink_errors|]|intros _].
  { intros e He. eexists _, _. split; [reflexivity|]. pick_step. exact He. }
  apply raises_bind; [|intros _; apply raises_log].
  intros w e. destruct (cleanupOldBackups b' env w) as [[err|[]] w'];
    discriminate.
Qed.

(** X3: every error [Run] returns is the context of one of its ten steps
    around an error of that step: a failure of the retention sweep, of the
    removal of the lock or of the closing of the log never is the error of
    a run. *)
Theorem Run_errors_name_their_step
  (b : Backup) (env : Env) (w : World) (e : Error) :
  fst (Run b env w) = inl e ->
  exists context cause,
    e = Wrapped context cause /\ stepFailure b context cause.
Proof.
  revert w e.
  change (raises (fun e => exists context cause,
                     e = Wrapped context cause /\ stepFailure b context cause)
            (Run b env)).
  unfold Run.
  apply raises_bind; [apply preflight_errors|intros _].
  apply raises_defer.
  apply raises_bind; [apply snapshotStage_errors|intros b'].
  apply publishStage_errors.
Qed.

Lemma Run_errors_name_their_step_witness :
  fst (Run Sample.backup (Sample.env "97%") (Sample.world []))
  = inl (Wrapped "disk space check failed" (DiskThresholdExceeded 97 95))
  /\ exists context cause,
       Wrapped "disk space check failed" (DiskThresholdExceeded 97 95)
       = Wrapped context cause
       /\ stepFailure Sample.backup context cause.
Proof.
  split; [vm_compute; reflexivity|].
  apply (Run_errors_name_their_step Sample.backup (Sample.env "97%")
           (Sample.world [])).
  vm_compute. reflexivity.
Defined.

(** ** The lock *)

Lemma preflight_split (b : Backup) (env : Env) (w : World) :
  preflight b env w
  = bind (wrap "config validation failed" (validateConfig b) ;;;
          wrap "path validation failed" (validatePaths b env) ;;;
          wrap "disk space check failed" (checkDiskSpace b env))
      (fun _ => wrap "failed to create lock" (createLock b env)) w.
Proof.
  unfold preflight, bind.
  destruct (wrap _ (validateConfig b) w) as [[e|[]] w1]; [reflexivity|].
  destruct (wrap _ (validatePaths b env) w1) as [[e|[]] w2]; [reflexivity|].
  destruct (wrap _ (checkDiskSpace b env) w2) as [[e|[]] w3]; reflexivity.
Qed.

Lemma createLock_cases (b : Backup) (env : Env) (w : World) :
  let made := snd (call (Mkdir (LockFile (config b))) w) in
  createLock b env w =
  if lockHeld w then (inl (AlreadyRunning (LockFile (config b))), made)
  else if lockMkdirFails env then (inl LockIOError, made)
  else (inr tt, snd (setLock true made)).
Proof.
  unfold createLock, bind, call, getWorld, fail, setLock. cbn.
  destruct (lockHeld w); [reflexivity|].
  destruct (lockMkdirFails env); reflexivity.
Qed.

Lemma preflight_failure_untouched
  (b : Backup) (env : Env) (w w' : World) (e : Error) :
  preflight b env w = (inl e, w') -> untouched w w'.
Proof.
  rewrite preflight_split.
  pose proof (preflight_checks_untouched b env w) as Hc.
  unfold bind at 1.
  destruct ((wrap _ (validateConfig b) ;;; _) w) as [[e1|[]] w1].
  - intros [= _ <-]. exact Hc.
  - unfold wrap. rewrite createLock_cases. cbn zeta.
    destruct (lockHeld w1); [|destruct (lockMkdirFails env)];
      intros [= _ <-]; exact Hc.
Qed.

(** X4: as long as no signal is delivered, a run that finds the lock held
    fails, with the error that another backup is running when it gets as
    far as the lock; the sequence of [Run] leaves the lock held and the
    destination as it was, and calls nothing but the probes of its checks
    and [os.Mkdir] of the lock.  The signal listener is not so careful: when
    a signal is delivered after [validateConfig] and any number of the
    checks before the lock have returned, [cleanup] calls [os.RemoveAll] on
    the lock and, that call succeeding, the process exits with status 1 and
    the lock of the other run is gone. *)
Theorem Run_leaves_foreign_lock (b : Backup) (env : Env) (w : World) :
  lockHeld w = true ->
  (exists context cause,
      fst (Run b env w) = inl (Wrapped context cause)
      /\ (context = "failed to create lock" ->
          cause = AlreadyRunning (LockFile (config b)))
      /\ lockHeld (snd (Run b env w)) = true
      /\ dest (snd (Run b env w)) = dest w
      /\ callsAdded (preflightCall b) w (snd (Run b env w)))
  /\ (forall n sig code w',
         removeAllFails env (LockFile (config b)) = false ->
         interruptedBeforeLock b env n sig w = Some (code, w') ->
         code = 1 /\ lockHeld w' = false
         /\ In (RemoveAll (LockFile (config b))) (calls w')).
Proof.
  intros Hheld. split.
  2:{ intros n sig code w' Hremove. unfold interruptedBeforeLock.
      destruct ((wrap _ (validateConfig b) ;;; _) w) as [[e|[]] w1];
        [discriminate|].
      unfold cleanup, removeLock. rewrite Hremove. intros [= <- <-].
      split; [reflexivity|]. split; [reflexivity|].
      cbn. apply in_or_app. right. left. reflexivity. }
  assert (Hpre : exists context cause w',
             preflight b env w = (inl (Wrapped context cause), w')
             /\ (context = "failed to create lock" ->
                 cause = AlreadyRunning (LockFile (config b)))).
  { pose proof (preflight_errors b env w) as Herr.
    pose proof (preflight_checks_untouched b env w) as Hc.
    rewrite preflight_split in Herr |- *. unfold bind at 1 in Herr.
    unfold bind at 1.
    destruct ((wrap _ (validateConfig b) ;;; _) w) as [[e1|[]] w1] eqn:E1.
    - destruct (Herr e1 eq_refl) as (context & cause & -> & Hstep).
      exists context, cause, w1. split; [reflexivity|].
      intros ->.
      assert (Hno : raises
                (fun e => forall c, e <> Wrapped "failed to create lock" c)
                (wrap "config validation failed" (validateConfig b) ;;;
                 wrap "path validation failed" (validatePaths b env) ;;;
                 wrap "disk space check failed" (checkDiskSpace b env))).
      { repeat (apply raises_bind; [|intros _]);
          (eapply raises_wrap; [intros ? ? _; exact I|]);
          intros; discriminate. }
      exfalso.
      apply (Hno w (Wrapped "failed to create lock" cause)
               ltac:(rewrite E1; reflexivity) cause).
      reflexivity.
    - destruct Hc as [_ Hlock]. cbn [snd] in Hlock.
      unfold wrap. rewrite createLock_cases. cbn zeta.
      rewrite Hlock, Hheld. eexists _, _, _. split; [reflexivity|].
      reflexivity. }
  destruct Hpre as (context & cause & w' & Hpre & Hctx).
  pose proof (preflight_failure_untouched _ _ _ _ _ Hpre) as [Hd Hl].
  pose proof (preflight_calls b env w) as Hcalls.
  assert (HR : Run b env w = (inl (Wrapped context cause), w'))
    by (unfold Run; apply bind_err, Hpre).
  rewrite Hpre in Hcalls. rewrite HR.
  exists context, cause. cbn [fst snd].
  repeat split; [exact Hctx|congruence|exact Hd|exact Hcalls].
Qed.

Lemma Run_leaves_foreign_lock_witness :
  lockHeld
    (snd (Run Sample.backup (Sample.env "40%")
            {| dest := Sample.twoSnapshots; lockHeld := true;
               output := []; calls := [] |})) = true
  /\ fst (Run Sample.backup (Sample.env "40%")
            {| dest := Sample.twoSnapshots; lockHeld := true;
               output := []; calls := [] |})
     = inl (Wrapped "failed to create lock"
              (AlreadyRunning "/tmp/backupRunningLock"))
  /\ exists w',
       interruptedBeforeLock Sample.backup (Sample.env "40%") 2 "interrupt"
         {| dest := Sample.twoSnapshots; lockHeld := true;
            output := []; calls := [] |} = Some (1, w')
       /\ lockHeld w' = false.
Proof.
  destruct (Run_leaves_foreign_lock Sample.backup (Sample.env "40%")
              {| dest := Sample.twoSnapshots; lockHeld := true;
                 output := []; calls := [] |} eq_refl)
    as [(context & cause & _ & _ & Hlock & _) Hsignal].
  split; [exact Hlock|]. split; [vm_compute; reflexivity|].
  destruct (interruptedBeforeLock Sample.backup (Sample.env "40%") 2
              "interrupt"
              {| dest := Sample.twoSnapshots; lockHeld := true;
                 output := []; calls := [] |}) as [[code w']|] eqn:E;
    [|vm_compute in E; discriminate E].
  destruct (Hsignal 2%nat "interrupt" code w' eq_refl E) as (-> & Hfree & _).
  exists w'. split; [reflexivity|exact Hfree].
Defined.

(** X5: a run that starts while the lock is free leaves it free, however it
    ends, as long as [os.RemoveAll] of the lock succeeds: a failure before
    the lock is taken does not take it, and after it is taken the deferred
    removal runs on every path. *)
Theorem Run_releases_its_lock (b : Backup) (env : Env) (w : World) :
  lockHeld w = false ->
  removeAllFails env (LockFile (config b)) = false ->
  lockHeld (snd (Run b env w)) = false.
Proof.
  intros Hfree Hremove.
  destruct (preflight b env w) as [[e|[]] w1] eqn:Ep.
  - unfold Run. rewrite (bind_err _ _ _ _ _ Ep). cbn [snd].
    destruct (preflight_failure_untouched _ _ _ _ _ Ep) as [_ Hl]. congruence.
  - rewrite (Run_under_lock _ _ _ _ Ep). cbn [snd].
    unfold removeLock. rewrite Hremove. reflexivity.
Qed.

Lemma Run_releases_its_lock_witness :
  fst (Run Sample.backup Sample.envNoSymlink (Sample.world []))
  = inl (Wrapped "failed to update latest link" SymlinkError)
  /\ lockHeld (snd (Run Sample.backup Sample.envNoSymlink (Sample.world [])))
     = false.
Proof.
  split; [vm_compute; reflexivity|].
  apply (Run_releases_its_lock Sample.backup Sample.envNoSymlink
           (Sample.world [])); reflexivity.
Defined.

(** ** The pointer and the snapshots when a run fails *)

Lemma snapshotStage_calls (lock : string) (b : Backup) (env : Env) :
  always (callsAdded (sparesPointer lock)) (snapshotStage b env).
Proof.
  unfold snapshotStage, setupLogging, cleanupLog, findRsync, getRsyncVersion,
    getLastBackup, runRsync, rsyncArgs, getRsyncVersion, rsyncEffect,
    verifyBackup, finalizeBackup.
  frame_with (callsAdded_refl (sparesPointer lock))
             (callsAdded_trans (sparesPointer lock));
    apply callsAdded_call; exact I.
Qed.

Lemma removeLock_calls (b : Backup) (env : Env) (w : World) :
  callsAdded (sparesPointer (LockFile (config b))) w (removeLock b env w).
Proof.
  exists [RemoveAll (LockFile (config b))]. split.
  - unfold removeLock. destruct (removeAllFails env _); reflexivity.
  - constructor; [reflexivity|constructor].
Qed.

Lemma preflightCall_sparesPointer (lock : string) (b : Backup) (c : Call) :
  preflightCall b c -> sparesPointer lock c.
Proof.
  unfold preflightCall. cbn.
  intros [<-|[<-|[<-|[<-|[<-|[]]]]]]; exact I.
Qed.

(** X6: when a run fails at any step but the update of the pointer, it has
    called neither [os.Remove] nor [os.Symlink], and [os.RemoveAll] on
    nothing but its lock: the pointer still names the snapshot it named,
    and no snapshot was swept. *)
Theorem failed_run_spares_pointer
  (b : Backup) (env : Env) (w : World) (context : string) (cause : Error) :
  fst (Run b env w) = inl (Wrapped context cause) ->
  context <> "failed to update latest link" ->
  callsAdded (sparesPointer (LockFile (config b))) w (snd (Run b env w)).
Proof.
  intros Hfail Hctx.
  pose proof (preflight_calls b env w) as Hpre.
  apply (callsAdded_impl _ (sparesPointer (LockFile (config b)))) in Hpre;
    [|apply preflightCall_sparesPointer].
  destruct (preflight b env w) as [[e|[]] w1] eqn:Ep.
  - unfold Run. rewrite (bind_err _ _ _ _ _ Ep). exact Hpre.
  - rewrite (Run_under_lock _ _ _ _ Ep) in Hfail |- *. cbn [fst snd] in *.
    pose proof (snapshotStage_calls (LockFile (config b)) b env w1) as Hsnap.
    destruct (snapshotStage b env w1) as [[e|b2] w2] eqn:Es.
    + rewrite (bind_err _ _ _ _ _ Es). cbn [snd].
      eapply callsAdded_trans; [exact Hpre|].
      eapply callsAdded_trans; [exact Hsnap|]. apply removeLock_calls.
    + exfalso. rewrite (bind_ok _ _ _ _ _ Es) in Hfail.
      destruct (updateLatestLink b2 env w2) as [[e|[]] w3] eqn:Eu.
      * rewrite (publishStage_link_error _ _ _ _ _ Eu) in Hfail.
        injection Hfail as <- _. apply Hctx. reflexivity.
      * rewrite (publishStage_link_ok _ _ _ _ Eu) in Hfail.
        destruct (cleanupOldBackups b2 env w3) as [[err|[]] w4];
          discriminate Hfail.
Qed.

Lemma failed_run_spares_pointer_witness :
  fst (Run Sample.backup Sample.envNoTransfer (Sample.world Sample.twoSnapshots))
  = inl (Wrapped "rsync failed" ProcessExecutionError)
  /\ callsAdded (sparesPointer "/tmp/backupRunningLock")
       (Sample.world Sample.twoSnapshots)
       (snd (Run Sample.backup Sample.envNoTransfer
               (Sample.world Sample.twoSnapshots))).
Proof.
  split; [vm_compute; reflexivity|].
  apply (failed_run_spares_pointer Sample.backup Sample.envNoTransfer
           (Sample.world Sample.twoSnapshots) "rsync failed"
           ProcessExecutionError);
    [vm_compute; reflexivity|discriminate].
Defined.

(** ** What the retention sweep removes *)

(** X7: the pair of loops that sorts the backups returns a permutation of
    its input that ascends in the byte-wise order of strings, for every
    list of names, with or without repetitions. *)
Theorem sortBackups_sorts (backups : list string) :
  Permutation (sortBackups backups) backups
  /\ StronglySorted String.le (sortBackups backups).
Proof. split; [apply sortBackups_perm|apply sortBackups_sorted]. Qed.

Lemma removeBackup_spares
  (b : Backup) (env : Env) (name : string) (w : World) (e : DirEntry) :
  In e (dest w) -> Name e <> name ->
  In e (dest (snd (removeBackup b env name w))).
Proof.
  intros Hin Hne. unfold removeBackup, bind, log, call, getWorld, setDest.
  cbn. destruct (removeAllFails env _); cbn; [exact Hin|].
  unfold removeEntry. apply list_elem_of_In, list_elem_of_filter.
  split; [|apply list_elem_of_In, Hin].
  destruct (String.eqb_spec (Name e) name); [contradiction|exact I].
Qed.

Lemma forEach_removeBackup_spares
  (b : Backup) (env : Env) (names : list string) (w : World) (e : DirEntry) :
  In e (dest w) -> ~ In (Name e) names ->
  In e (dest (snd (forEach (removeBackup b env) names w))).
Proof.
  revert w. induction names as [|name names IH]; intros w Hin Hnot.
  - exact Hin.
  - cbn [forEach]. unfold bind.
    pose proof (removeBackup_spares b env name w e Hin) as Hstep.
    destruct (removeBackup b env name w) as [[err|[]] w1]; cbn [snd] in *.
    + apply Hstep. intros Heq. apply Hnot. left. symmetry. exact Heq.
    + apply IH.
      * apply Hstep. intros Heq. apply Hnot. left. symmetry. exact Heq.
      * intros H. apply Hnot. right. exact H.
Qed.

Lemma backupsToRemove_finalized (K : Z) (entries : list DirEntry) (name : string) :
  In name (backupsToRemove K entries) -> In name (finalizedNames entries).
Proof.
  rewrite backupsToRemove_unfold.
  destruct (_ <=? K); [intros []|]. intros H. apply take_In in H.
  exact (Permutation_in _ (sortBackups_perm _) H).
Qed.

Lemma finalizedNames_entry (entries : list DirEntry) (name : string) :
  In name (finalizedNames entries) ->
  exists e, In e entries /\ Name e = name /\ isBackup e = true.
Proof.
  unfold finalizedNames. rewrite in_map_iff. intros (e & He & Hin).
  apply list_elem_of_In, list_elem_of_filter in Hin. destruct Hin as [Hb Hin].
  exists e. split; [apply list_elem_of_In, Hin|]. split; [exact He|].
  destruct (isBackup e); [reflexivity|destruct Hb].
Qed.

Lemma NoDup_map_inj {A B} (f : A -> B) (l : list A) (x y : A) :
  NoDup (map f l) -> In x l -> In y l -> f x = f y -> x = y.
Proof.
  induction l as [|a l IH]; intros Hnd Hx Hy Heq; [destruct Hx|].
  cbn in Hnd. apply NoDup_cons in Hnd. destruct Hnd as [Hnot Hnd].
  destruct Hx as [<-|Hx], Hy as [<-|Hy].
  - reflexivity.
  - exfalso. apply Hnot. rewrite Heq. apply list_elem_of_In, in_map, Hy.
  - exfalso. apply Hnot. rewrite <- Heq. apply list_elem_of_In, in_map, Hx.
  - exact (IH Hnd Hx Hy Heq).
Qed.

(** X8: whatever fails, the sweep removes nothing but the snapshots it
    chose: in a destination whose children have distinct names, every child
    that is not a finalized snapshot directory (the pointer, a snapshot in
    progress, a file) and every snapshot that is not among the count - Keep
    lexically smallest is still there after [cleanupOldBackups]. *)
Theorem cleanupOldBackups_spares
  (b : Backup) (env : Env) (w : World) (e : DirEntry) :
  NoDup (map Name (dest w)) ->
  In e (dest w) ->
  isBackup e = false
  \/ ~ In (Name e) (backupsToRemove (Keep (config b)) (dest w)) ->
  In e (dest (snd (cleanupOldBackups b env w))).
Proof.
  intros Hnd Hin Hcase.
  assert (Hnot : ~ In (Name e) (backupsToRemove (Keep (config b)) (dest w))).
  { destruct Hcase as [Hb|Hnot]; [|exact Hnot].
    intros H. apply backupsToRemove_finalized, finalizedNames_entry in H.
    destruct H as (e' & Hin' & Hname & Hb').
    rewrite (NoDup_map_inj Name (dest w) e' e Hnd Hin' Hin Hname) in Hb'.
    congruence. }
  unfold cleanupOldBackups.
  destruct (Keep (config b) <=? 0); [exact Hin|].
  unfold bind, getWorld. cbn.
  destruct (readDirFails env); [exact Hin|].
  apply forEach_removeBackup_spares; assumption.
Qed.

Lemma cleanupOldBackups_spares_witness :
  In {| Name := "latest"; Kind := KSymlink "CEST_2025-10-03_13.14.08" |}
    (dest (snd (cleanupOldBackups Sample.backup (Sample.env "40%")
                  (Sample.world Sample.threeSnapshots))))
  /\ backupsToRemove 2 Sample.threeSnapshots = ["CEST_2025-10-01_13.14.08"].
Proof.
  split; [|vm_compute; reflexivity].
  apply (cleanupOldBackups_spares Sample.backup (Sample.env "40%")
           (Sample.world Sample.threeSnapshots)).
  - apply (NoDup_ListNoDup _). vm_compute.
    repeat (constructor; [cbn; intuition discriminate|]). constructor.
  - cbn. tauto.
  - left. reflexivity.
Defined.

Lemma second_sweep_empty (K : Z) (entries : list DirEntry) :
  backupsToRemove K (withoutNames (backupsToRemove K entries) entries) = [].
Proof.
  rewrite (backupsToRemove_unfold K (withoutNames _ _)).
  rewrite finalizedNames_without.
  rewrite (backupsToRemove_unfold K entries).
  set (names := finalizedNames entries).
  destruct (Z.leb_spec (Z.of_nat (length names)) K) as [Hle|Hgt].
  - rewrite filter_bool_all by reflexivity.
    destruct (Z.leb_spec (Z.of_nat (length names)) K); [reflexivity|lia].
  - set (s := sortBackups names).
    set (n := Z.to_nat (Z.of_nat (length names) - K)).
    assert (Hperm : Permutation s names) by apply sortBackups_perm.
    assert (Hlen : length (filter (fun name => kept (take n s) name) names)
                   = length (filter (fun name => kept (take n s) name)
                               (drop n s))).
    { transitivity
        (length (filter (fun name => kept (take n s) name)
                   (take n s ++ drop n s))).
      - apply Permutation_length, filter_Permutation.
        rewrite take_drop. symmetry. exact Hperm.
      - rewrite filter_app, length_app.
        rewrite (filter_bool_none _ (take n s)); [reflexivity|].
        intros x Hx. apply not_true_iff_false. rewrite kept_spec. tauto. }
    pose proof (length_filter (fun name => kept (take n s) name) (drop n s))
      as Hbound.
    rewrite length_drop, (Permutation_length Hperm) in Hbound.
    destruct (Z.leb_spec
                (Z.of_nat (length (filter (fun name => kept (take n s) name)
                                     names))) K) as [_|Hmore];
      [reflexivity|].
    assert (HK : K < 0) by (subst n; lia).
    assert (Hall : take n s = s)
      by (apply take_ge; rewrite (Permutation_length Hperm); subst n; lia).
    rewrite Hall.
    rewrite (filter_bool_none _ names); [apply take_nil|].
    intros x Hx. apply not_true_iff_false. rewrite kept_spec.
    intros Hnot. apply Hnot. exact (Permutation_in _ (Permutation_sym Hperm) Hx).
Qed.

(** X9: the sweep is idempotent: when no removal fails, a second
    [cleanupOldBackups] right after the first finds nothing more to remove
    and leaves the destination as the first left it. *)
Theorem cleanupOldBackups_idempotent (b : Backup) (env : Env) (w : World) :
  (forall path, removeAllFails env path = false) ->
  dest (snd (cleanupOldBackups b env (snd (cleanupOldBackups b env w))))
  = dest (snd (cleanupOldBackups b env w)).
Proof.
  intros Hok. unfold cleanupOldBackups.
  destruct (Keep (config b) <=? 0); [reflexivity|].
  unfold bind, getWorld. cbn beta iota.
  destruct (readDirFails env); [reflexivity|].
  destruct (forEach_removeBackup b env
              (backupsToRemove (Keep (config b)) (dest w)) w Hok)
    as [_ Hdest].
  rewrite Hdest, second_sweep_empty. exact Hdest.
Qed.

Lemma cleanupOldBackups_idempotent_witness :
  map Name
    (dest (snd (cleanupOldBackups Sample.backup (Sample.env "40%")
                  (Sample.world Sample.threeSnapshots))))
  = ["CEST_2025-10-02_13.14.08"; "CEST_2025-10-03_13.14.08";
     "CEST_2025-10-04_13.14.08_INCOMPLETE"; "backup.log"; "latest"]
  /\ dest (snd (cleanupOldBackups Sample.backup (Sample.env "40%")
                  (snd (cleanupOldBackups Sample.backup (Sample.env "40%")
                          (Sample.world Sample.threeSnapshots)))))
     = dest (snd (cleanupOldBackups Sample.backup (Sample.env "40%")
                    (Sample.world Sample.threeSnapshots))).
Proof.
  split; [vm_compute; reflexivity|].
  apply (cleanupOldBackups_idempotent Sample.backup (Sample.env "40%")).
  reflexivity.
Defined.

(** ** Snapshot names in one zone *)

Lemma ltb_irrefl (s : string) : String.ltb s s = false.
Proof.
  unfold String.ltb. rewrite <- (append_nil_r s), compare_app. reflexivity.
Qed.

Lemma ltb_asym (s1 s2 : string) :
  String.ltb s1 s2 = true -> String.ltb s2 s1 = false.
Proof.
  unfold String.ltb. rewrite (String.compare_antisym s2 s1).
  destruct (String.compare s1 s2); cbn; congruence.
Qed.

Lemma Format_same_second (t u : Time.Time) :
  Time.zoneName t = Time.zoneName u -> Time.zoneOffset t = Time.zoneOffset u ->
  Time.unixSec t = Time.unixSec u -> Time.Format t = Time.Format u.
Proof.
  intros Hn Ho Hs. unfold Time.Format, Time.zoneText.
  rewrite Hn, Ho, Hs. reflexivity.
Qed.

(** X10: between runs that start in one zone (the same abbreviation and
    offset), within the years 0 to 9999, the names [NewBackup] gives compare
    as the seconds of the start times do: one name is lexically below the
    other exactly when its run started in an earlier second, and two runs
    get the same name, hence the same snapshot directory, exactly when they
    start within the same second. *)
Theorem snapshot_names_follow_start_times (cfg : Config) (t u : Time.Time) :
  Time.zoneName t = Time.zoneName u ->
  Time.zoneOffset t = Time.zoneOffset u ->
  -62167219200 <= Time.unixSec t + Time.zoneOffset t < 253402300800 ->
  -62167219200 <= Time.unixSec u + Time.zoneOffset u < 253402300800 ->
  (String.ltb (timestamp (NewBackup cfg t)) (timestamp (NewBackup cfg u)) = true
   <-> Time.unixSec t < Time.unixSec u)
  /\ (timestamp (NewBackup cfg t) = timestamp (NewBackup cfg u)
      <-> Time.unixSec t = Time.unixSec u).
Proof.
  intros Hn Ho Ht Hu. cbn [timestamp NewBackup].
  assert (Hlt : Time.unixSec t < Time.unixSec u ->
                String.ltb (Time.Format t) (Time.Format u) = true)
    by (intros H; apply Format_monotone_in_one_zone; auto; lia).
  assert (Hgt : Time.unixSec u < Time.unixSec t ->
                String.ltb (Time.Format u) (Time.Format t) = true)
    by (intros H; apply Format_monotone_in_one_zone; auto; lia).
  assert (Heq : Time.unixSec t = Time.unixSec u ->
                Time.Format t = Time.Format u)
    by (apply Format_same_second; assumption).
  split; split.
  - intros H. destruct (Z.lt_trichotomy (Time.unixSec t) (Time.unixSec u))
      as [Hc|[Hc|Hc]]; [exact Hc| |].
    + rewrite (Heq Hc), ltb_irrefl in H. discriminate.
    + rewrite (ltb_asym _ _ (Hgt Hc)) in H. discriminate.
  - exact Hlt.
  - intros H. destruct (Z.lt_trichotomy (Time.unixSec t) (Time.unixSec u))
      as [Hc|[Hc|Hc]]; [|exact Hc|].
    + specialize (Hlt Hc). rewrite H, ltb_irrefl in Hlt. discriminate.
    + specialize (Hgt Hc). rewrite H, ltb_irrefl in Hgt. discriminate.
  - exact Heq.
Qed.

Lemma snapshot_names_follow_start_times_witness :
  timestamp (NewBackup Sample.cfg Sample.now) = "CEST_2025-10-03_13.14.08"
  /\ timestamp (NewBackup Sample.cfg Sample.later) = "CEST_2025-10-03_13.15.08"
  /\ String.ltb (timestamp (NewBackup Sample.cfg Sample.now))
       (timestamp (NewBackup Sample.cfg Sample.later)) = true.
Proof.
  split; [vm_compute; reflexivity|]. split; [vm_compute; reflexivity|].
  apply (snapshot_names_follow_start_times Sample.cfg Sample.now Sample.later);
    try reflexivity; vm_compute; split; congruence.
Defined.

(** ** The choice of the rsync binary *)

Lemma firstExisting_cases (env : Env) (paths : list string) (bin : string) :
  (exists before path after,
      paths = before ++ path :: after
      /\ Forall (fun p => stat env p <> StatOk) before
      /\ stat env path = StatOk
      /\ firstExisting env paths bin = path)
  \/ (Forall (fun p => stat env p <> StatOk) paths
      /\ firstExisting env paths bin = bin).
Proof.
  induction paths as [|p paths IH]; [right; split; [constructor|reflexivity]|].
  cbn [firstExisting]. destruct (stat env p) eqn:E.
  - left. exists [], p, paths. repeat split; [constructor|exact E].
  - destruct IH as [(before & path & after & -> & Hb & Hp & Hf)|[Hall Hf]].
    + left. exists (p :: before), path, after.
      repeat split; [constructor; [congruence|exact Hb]|exact Hp|exact Hf].
    + right. split; [constructor; [congruence|exact Hall]|exact Hf].
  - destruct IH as [(before & path & after & -> & Hb & Hp & Hf)|[Hall Hf]].
    + left. exists (p :: before), path, after.
      repeat split; [constructor; [congruence|exact Hb]|exact Hp|exact Hf].
    + right. split; [constructor; [congruence|exact Hall]|exact Hf].
Qed.

Lemma findRsync_selected (b b' : Backup) (env : Env) (w w' : World) :
  ForceSystemRsync (config b) = false ->
  findRsync b env w = (inr b', w') ->
  RsyncBin (config b') = firstExisting env rsyncPaths (RsyncBin (config b)).
Proof.
  intros Hf. unfold findRsync. rewrite Hf.
  set (b1 := withConfig b _).
  destruct (String.eqb (RsyncBin (config b1)) "");
    [unfold fail; discriminate|].
  match goal with
  | |- bind ?m ?k w = _ -> _ =>
      destruct (m w) as [[e|[]] w1] eqn:E;
      [rewrite (bind_err _ _ _ _ _ E)|rewrite (bind_ok _ _ _ _ _ E)]
  end; [discriminate|].
  unfold bind, log, ret. intros [= <- _]. reflexivity.
Qed.

(** X11: without the force flag, [findRsync] takes the first of
    [/opt/homebrew/bin/rsync], [/usr/local/bin/rsync] and [/usr/bin/rsync]
    that [os.Stat] finds, and keeps the binary already configured when
    none exists; it fails with "no rsync binary found" exactly when none
    exists and no binary is configured, and then has called and logged
    nothing. *)
Theorem findRsync_takes_first_existing (b : Backup) (env : Env) (w : World) :
  ForceSystemRsync (config b) = false ->
  (fst (findRsync b env w) = inl BinaryNotFound
   <-> RsyncBin (config b) = ""
       /\ Forall (fun path => stat env path <> StatOk) rsyncPaths)
  /\ (fst (findRsync b env w) = inl BinaryNotFound ->
      snd (findRsync b env w) = w)
  /\ (forall b', fst (findRsync b env w) = inr b' ->
      (exists before after,
          rsyncPaths = before ++ RsyncBin (config b') :: after
          /\ Forall (fun path => stat env path <> StatOk) before
          /\ stat env (RsyncBin (config b')) = StatOk)
      \/ (Forall (fun path => stat env path <> StatOk) rsyncPaths
          /\ RsyncBin (config b') = RsyncBin (config b))).
Proof.
  intros Hf.
  pose proof (firstExisting_cases env rsyncPaths (RsyncBin (config b)))
    as Hsel.
  assert (Hnonempty : forall path, In path rsyncPaths -> path <> "")
    by (cbn; intros path [<-|[<-|[<-|[]]]]; discriminate).
  split; [|split].
  - unfold findRsync. rewrite Hf.
    cbn [withConfig setRsyncBin config RsyncBin].
    destruct (String.eqb_spec
                (firstExisting env rsyncPaths (RsyncBin (config b))) "")
      as [Hempty|Hfound].
    + split; [intros _|reflexivity].
      destruct Hsel as [(before & path & after & Hp & _ & _ & Hsel)|[Hall Hsel]].
      * exfalso. apply (Hnonempty path); [|congruence].
        rewrite Hp. apply in_or_app. right. left. reflexivity.
      * split; [congruence|exact Hall].
    + split.
      * intros H. exfalso. revert H.
        match goal with
        | |- fst (?m w) = _ -> _ =>
            assert (Hr : raises (fun e => e = IncompatibleBinary) m)
        end.
        { unfold getRsyncVersion. errors. }
        intros H. specialize (Hr w _ H). discriminate.
      * intros [Hbin Hall]. exfalso. apply Hfound.
        destruct Hsel as [(before & path & after & Hp & _ & Hok & _)|[_ Hsel]].
        -- exfalso. rewrite Hp in Hall. apply Forall_app in Hall.
           destruct Hall as [_ Hall]. apply Forall_cons in Hall.
           destruct Hall as [Hno _]. contradiction.
        -- congruence.
  - unfold findRsync. rewrite Hf.
    cbn [withConfig setRsyncBin config RsyncBin].
    destruct (String.eqb (firstExisting env rsyncPaths (RsyncBin (config b)))
                ""); [reflexivity|].
    match goal with
    | |- fst (?m w) = _ -> _ =>
        assert (Hr : raises (fun e => e = IncompatibleBinary) m)
    end.
    { unfold getRsyncVersion. errors. }
    intros H. specialize (Hr w _ H). discriminate.
  - intros b' Hb'.
    destruct (findRsync b env w) as [r w'] eqn:E. cbn [fst] in Hb'. subst r.
    rewrite (findRsync_selected _ _ _ _ _ Hf E).
    destruct Hsel as [(before & path & after & Hp & Hb & Hok & Hsel)|[Hall Hsel]].
    + left. exists before, after. rewrite Hsel. auto.
    + right. split; [exact Hall|exact Hsel].
Qed.

Lemma findRsync_takes_first_existing_witness :
  fst (findRsync Sample.backup Sample.envNoBinary (Sample.world []))
  = inl BinaryNotFound
  /\ snd (findRsync Sample.backup Sample.envNoBinary (Sample.world []))
     = Sample.world [].
Proof.
  destruct (findRsync_takes_first_existing Sample.backup Sample.envNoBinary
              (Sample.world []) eq_refl) as (Hiff & Hsame & _).
  assert (H : fst (findRsync Sample.backup Sample.envNoBinary (Sample.world []))
              = inl BinaryNotFound).
  { apply Hiff. split; [reflexivity|].
    repeat (constructor; [vm_compute; discriminate|]). constructor. }
  split; [exact H|exact (Hsame H)].
Defined.

(** ** The pointer, written and read back *)

Lemma lookupEntry_insertEntry (name : string) (kind : EntryKind)
  (d : list DirEntry) :
  lookupEntry name d = None ->
  lookupEntry name (insertEntry {| Name := name; Kind := kind |} d)
  = Some {| Name := name; Kind := kind |}.
Proof.
  unfold lookupEntry. induction d as [|x d IH]; cbn [insertEntry List.find Name].
  - rewrite String.eqb_refl. reflexivity.
  - destruct (String.eqb (Name x) name) eqn:E; [discriminate|]. intros H.
    destruct (String.ltb name (Name x)); cbn [List.find Name].
    + rewrite String.eqb_refl. reflexivity.
    + rewrite E. exact (IH H).
Qed.

Lemma updateLatestLink_pointer (b : Backup) (env : Env) (w w' : World) :
  updateLatestLink b env w = (inr tt, w') ->
  lookupEntry (childName (latestLink b)) (dest w')
  = Some {| Name := childName (latestLink b); Kind := KSymlink (timestamp b) |}.
Proof.
  unfold updateLatestLink, bind, call, getWorld, setDest, fail.
  cbn beta iota zeta. cbn [dest].
  destruct (lookupEntry (childName (latestLink b))
              (removeFile env (childName (latestLink b)) (dest w))) eqn:E;
    [discriminate|].
  destruct (symlinkFails env); [discriminate|].
  intros [= <-]. cbn [dest].
  exact (lookupEntry_insertEntry _ (KSymlink (timestamp b)) _ E).
Qed.

(** X12: when [updateLatestLink] succeeds, the pointer is a symbolic link
    whose target is the bare time stamp of the run, and [getLastBackup], as
    the next run calls it, reads back the last element of that time stamp
    and never "(none)". *)
Theorem updateLatestLink_then_getLastBackup
  (b : Backup) (env : Env) (w w' : World) :
  updateLatestLink b env w = (inr tt, w') ->
  lookupEntry (childName (latestLink b)) (dest w')
  = Some {| Name := childName (latestLink b); Kind := KSymlink (timestamp b) |}
  /\ getLastBackup b w' = (inr (Filepath.Base (timestamp b)), w').
Proof.
  intros H. pose proof (updateLatestLink_pointer _ _ _ _ H) as Hl.
  split; [exact Hl|].
  unfold getLastBackup, bind, getWorld. cbn beta iota zeta.
  rewrite Hl. reflexivity.
Qed.

Lemma updateLatestLink_then_getLastBackup_witness :
  fst (updateLatestLink Sample.backup (Sample.env "40%")
         (Sample.world Sample.twoSnapshots)) = inr tt
  /\ fst (getLastBackup Sample.backup
            (snd (updateLatestLink Sample.backup (Sample.env "40%")
                    (Sample.world Sample.twoSnapshots))))
     = inr "CEST_2025-10-03_13.14.08".
Proof.
  split; [vm_compute; reflexivity|].
  destruct (updateLatestLink Sample.backup (Sample.env "40%")
              (Sample.world Sample.twoSnapshots)) as [r w'] eqn:E.
  assert (Hr : r = inr tt)
    by (apply (f_equal fst) in E; vm_compute in E; congruence).
  subst r.
  destruct (updateLatestLink_then_getLastBackup _ _ _ _ E) as [_ H].
  cbn [snd]. rewrite H. vm_compute. reflexivity.
Defined.

(** ** The access check *)

Lemma Clean_nonempty (path : string) : Filepath.Clean path <> "".
Proof.
  unfold Filepath.Clean.
  destruct path as [|c path]; cbn zeta.
  - cbn. discriminate.
  - match goal with
    | |- (if ?r then _ else _) <> _ => destruct r
    end; [discriminate|].
    match goal with
    | |- (if String.eqb ?body "" then _ else _) <> _ =>
        destruct (String.eqb_spec body ""); [discriminate|assumption]
    end.
Qed.

Lemma Join_home_nonempty (home rest : string) :
  rest <> "" -> Filepath.Join [home; rest] <> "".
Proof.
  intros Hrest. unfold Filepath.Join.
  rewrite !filter_cons_bool, filter_nil.
  destruct (String.eqb_spec rest ""); [contradiction|].
  destruct (String.eqb home ""); cbn [negb]; apply Clean_nonempty.
Qed.

Lemma skipPath_testPaths (home p : string) :
  In p (testPaths home) -> skipPath home p = false.
Proof.
  assert (Hjoin : forall rest,
             rest <> "" ->
             String.substring 0 1 (Filepath.Join [""; rest]) <> "." ->
             skipPath home (Filepath.Join [home; rest]) = false).
  { intros rest Hrest Hdot. unfold skipPath.
    destruct (String.eqb_spec (Filepath.Join [home; rest]) "") as [He|_];
      [exact (False_ind _ (Join_home_nonempty home rest Hrest He))|].
    destruct (String.eqb_spec home "") as [->|_]; [|apply andb_false_r].
    destruct (String.eqb_spec
                (String.substring 0 1 (Filepath.Join [""; rest])) ".");
      [contradiction|reflexivity]. }
  unfold testPaths.
  intros [<-|[<-|[<-|[<-|[<-|[<-|[<-|[]]]]]]]];
    try reflexivity; apply Hjoin; vm_compute; discriminate.
Qed.

Lemma denied_not_missing (err : OsError) :
  isNotExist err = true -> deniedErrno err = false.
Proof.
  destruct err as [errno| |notExist permission]; try reflexivity.
  unfold isNotExist, deniedErrno.
  intros H. apply Z.eqb_eq in H. subst errno. reflexivity.
Qed.

Lemma openFailure_status (err : OsError) :
  openFailure err
  = (if isPermission err || deniedErrno err
     then "permission-denied" else "other-open-error",
     Some err).
Proof.
  unfold openFailure.
  destruct (isPermission err), (deniedErrno err); reflexivity.
Qed.

Lemma tryRead_status (host : Access) (p : string) :
  String.eqb (fst (tryRead host p)) "ok" = false
  /\ String.eqb (fst (tryRead host p)) "permission-denied" = true
     /\ denied host p = true
     /\ snd (tryRead host p) = firstFailure host (resolvedPath host p)
  \/ String.eqb (fst (tryRead host p)) "permission-denied" = false
     /\ denied host p = false.
Proof.
  unfold tryRead, denied, firstFailure. fold (resolvedPath host p).
  set (q := resolvedPath host p). cbn zeta.
  destruct (statPath host q) as [err|[|]].
  - destruct (isNotExist err) eqn:En.
    + right. rewrite (denied_not_missing _ En). split; reflexivity.
    + destruct (deniedErrno err); [left|right]; repeat split.
  - destruct (openPath host q) as [err|].
    + rewrite openFailure_status.
      destruct (isPermission err || deniedErrno err); [left|right];
        repeat split.
    + destruct (readdirnames host q) as [[errno| |notExist permission]|];
        try (right; split; reflexivity).
      destruct (deniedErrno (PathError errno)); [left|right]; repeat split.
  - destruct (openPath host q) as [err|].
    + rewrite openFailure_status.
      destruct (isPermission err || deniedErrno err); [left|right];
        repeat split.
    + destruct (readByte host q) as [[errno| |notExist permission]|];
        try (right; split; reflexivity).
      destruct (deniedErrno (PathError errno)); [left|right]; repeat split.
Qed.

Lemma probePaths_denied (host : Access) (home : string) (paths : list string)
  (permFailures : list (string * option OsError)) :
  (forall p, In p paths -> skipPath home p = false) ->
  probePaths host home paths permFailures
  = permFailures
    ++ map (fun p => (p, firstFailure host (resolvedPath host p)))
         (filter (fun p => denied host p) paths).
Proof.
  revert permFailures.
  induction paths as [|p paths IH]; intros permFailures Hskip.
  - cbn. rewrite app_nil_r. reflexivity.
  - cbn [probePaths]. rewrite (Hskip p (or_introl eq_refl)).
    assert (Hrest : forall p', In p' paths -> skipPath home p' = false)
      by (intros p' Hp'; apply Hskip; right; exact Hp').
    rewrite filter_cons_bool.
    destruct (tryRead_status host p) as [(Hok & Hd & Hden & Herr)|[Hd Hden]];
      destruct (tryRead host p) as [status err]; cbn [fst snd] in *.
    + rewrite Hok, Hd, Hden, IH, Herr by exact Hrest.
      cbn [map]. rewrite <- app_assoc. reflexivity.
    + rewrite Hd, Hden.
      destruct (String.eqb status "ok"); apply IH, Hrest.
Qed.

(** X13: [checkFullDiskAccess] probes each of the seven protected paths,
    whatever [HOME] holds (the guard that should skip the entries under an
    unset [HOME] never fires), and fails exactly when, for at least one of
    them, the first of [os.Stat], [os.Open] and the one-entry read that
    fails does so with a denial ([EACCES] or [EPERM]; from [os.Open] also
    any other error that is [os.ErrPermission]); the error lists those
    paths in the order of the table, with their errors.  Missing paths and
    errors of any other kind never fail the check. *)
Theorem checkFullDiskAccess_fails_on_denial (host : Access) (home : string) :
  checkFullDiskAccess host home
  = match filter (fun p => denied host p) (testPaths home) with
    | [] => None
    | paths =>
        Some (AccessNotGranted
                (map (fun p => (p, firstFailure host (resolvedPath host p)))
                   paths))
    end.
Proof.
  unfold checkFullDiskAccess.
  rewrite (probePaths_denied host home (testPaths home) []
             (skipPath_testPaths home)).
  cbn [app].
  destruct (filter (fun p => denied host p) (testPaths home)); reflexivity.
Qed.

(** ** The names of snapshots in progress and of finalized snapshots *)

Lemma append_assoc (a b c : string) : (a +:+ b) +:+ c = a +:+ (b +:+ c).
Proof.
  induction a as [|x a IH]; [reflexivity|].
  change ((String x a +:+ b) +:+ c) with (String x ((a +:+ b) +:+ c)).
  change (String x a +:+ (b +:+ c)) with (String x (a +:+ (b +:+ c))).
  rewrite IH. reflexivity.
Qed.

Lemma length_append (a b : string) :
  String.length (a +:+ b) = (String.length a + String.length b)%nat.
Proof.
  induction a as [|x a IH]; [reflexivity|].
  change (String x a +:+ b) with (String x (a +:+ b)).
  cbn [String.length]. rewrite IH. reflexivity.
Qed.

Lemma substring_all (s : string) : String.substring 0 (String.length s) s = s.
Proof. induction s as [|x s IH]; [reflexivity|]. cbn. rewrite IH. reflexivity. Qed.

Lemma substring_suffix (a b : string) :
  String.substring (String.length a) (String.length b) (a +:+ b) = b.
Proof.
  induction a as [|x a IH]; [apply substring_all|].
  change (String x a +:+ b) with (String x (a +:+ b)). exact IH.
Qed.

Lemma substring_split (s : string) (m : nat) :
  (m <= String.length s)%nat ->
  s = String.substring 0 m s +:+ String.substring m (String.length s - m) s.
Proof.
  revert m. induction s as [|x s IH]; intros [|m] Hm; cbn in Hm |- *.
  - reflexivity.
  - lia.
  - rewrite substring_all. reflexivity.
  - change (String x (String.substring 0 m s) +:+ ?r)
      with (String x (String.substring 0 m s +:+ r)).
    rewrite <- IH by lia. reflexivity.
Qed.

Lemma HasSuffix_inv (s suffix : string) :
  Strings.HasSuffix s suffix = true -> exists p, s = p +:+ suffix.
Proof.
  unfold Strings.HasSuffix. intros H. apply andb_true_iff in H.
  destruct H as [Hle Heq]. apply Nat.leb_le in Hle. apply String.eqb_eq in Heq.
  exists (String.substring 0 (String.length s - String.length suffix) s).
  pose proof (substring_split s (String.length s - String.length suffix)
                ltac:(lia)) as Hs.
  replace (String.length s - (String.length s - String.length suffix))%nat
    with (String.length suffix) in Hs by lia.
  rewrite Heq in Hs. exact Hs.
Qed.

Lemma HasSuffix_append (p suffix : string) :
  Strings.HasSuffix (p +:+ suffix) suffix = true.
Proof.
  unfold Strings.HasSuffix. rewrite length_append.
  apply andb_true_iff. split; [apply Nat.leb_le; lia|].
  replace (String.length p + String.length suffix - String.length suffix)%nat
    with (String.length p) by lia.
  rewrite substring_suffix. apply String.eqb_refl.
Qed.

Lemma append_last_inj (a b : string) (c d : ascii) :
  a +:+ String c "" = b +:+ String d "" -> c = d.
Proof.
  revert b. induction a as [|x a IH]; intros [|y b].
  - intros [= ->]. reflexivity.
  - change (String y b +:+ String d "") with (String y (b +:+ String d "")).
    intros [= _ H]. destruct b; discriminate H.
  - change (String x a +:+ String c "") with (String x (a +:+ String c "")).
    intros [= _ H]. destruct a; discriminate H.
  - change (String x a +:+ String c "") with (String x (a +:+ String c "")).
    change (String y b +:+ String d "") with (String y (b +:+ String d "")).
    intros [= _ H]. exact (IH b H).
Qed.

Lemma ends_append (a b : string) (c : ascii) :
  (exists q, b = q +:+ String c "") -> exists q, a +:+ b = q +:+ String c "".
Proof.
  intros [q ->]. exists (a +:+ q). rewrite append_assoc. reflexivity.
Qed.

Lemma Format_ends_in_digit (t : Time.Time) :
  exists q n, 0 <= n <= 9
              /\ Time.Format t = q +:+ String (Time.digitChar n) "".
Proof.
  unfold Time.Format.
  set (sod := (Time.unixSec t + Time.zoneOffset t) mod 86400).
  destruct (Time.civil _) as [[year month] day].
  rewrite (appendInt_2 (sod mod 60))
    by (subst sod; Z.div_mod_to_equations; lia).
  assert (Hend : exists q,
             Time.zoneText t +:+ "_" +:+
             Time.appendInt year 4 +:+ "-" +:+ Time.appendInt month 2 +:+
             "-" +:+ Time.appendInt day 2 +:+ "_" +:+
             Time.appendInt (sod / 3600) 2 +:+ "." +:+
             Time.appendInt (sod mod 3600 / 60) 2 +:+ "." +:+
             String (Time.digitChar (sod mod 60 / 10 mod 10))
               (String (Time.digitChar (sod mod 60 mod 10)) "")
             = q +:+ String (Time.digitChar (sod mod 60 mod 10)) "").
  { repeat apply ends_append.
    exists (String (Time.digitChar (sod mod 60 / 10 mod 10)) "").
    reflexivity. }
  destruct Hend as [q Hq]. exists q, (sod mod 60 mod 10).
  split; [Z.div_mod_to_equations; lia|exact Hq].
Qed.

Lemma digitChar_is_digit (n : Z) (c : ascii) :
  0 <= n <= 9 -> Strconv.isDigit c = false -> Time.digitChar n <> c.
Proof.
  intros Hn Hc Heq. subst c.
  assert (Hd : Strconv.isDigit (Time.digitChar n) = true).
  { unfold Strconv.isDigit, Time.digitChar.
    rewrite N_ascii_embedding by lia.
    apply andb_true_iff. split; apply N.leb_le; lia. }
  congruence.
Qed.

(** X14: whatever the instant and the zone of the start, the time stamp
    [NewBackup] gives a run ends in a digit: a directory of that name is a
    backup for the retention sweep (it is not the pointer and does not
    carry the suffix), and the same name with [_INCOMPLETE] appended, the
    name of the snapshot in progress, never is, whatever its kind. *)
Theorem finalized_name_is_a_backup
  (cfg : Config) (now : Time.Time) (items : nat) (kind : EntryKind) :
  isBackup {| Name := timestamp (NewBackup cfg now); Kind := KDir items |}
  = true
  /\ isBackup {| Name := timestamp (NewBackup cfg now) +:+ "_INCOMPLETE";
                 Kind := kind |} = false.
Proof.
  cbn [timestamp NewBackup]. unfold isBackup. cbn [Name Kind IsDir].
  destruct (Format_ends_in_digit now) as (q & n & Hn & Hq).
  split.
  - destruct (String.eqb_spec (Time.Format now) "latest") as [He|_].
    + exfalso. rewrite Hq in He.
      apply (digitChar_is_digit n "t" Hn eq_refl).
      apply (append_last_inj q "lates"). exact He.
    + destruct (Strings.HasSuffix (Time.Format now) "_INCOMPLETE") eqn:Es;
        [|reflexivity].
      exfalso. apply HasSuffix_inv in Es. destruct Es as [p Hp].
      rewrite Hq in Hp.
      apply (digitChar_is_digit n "E" Hn eq_refl).
      apply (append_last_inj q (p +:+ "_INCOMPLET")).
      rewrite Hp, append_assoc. reflexivity.
  - rewrite HasSuffix_append. apply andb_false_r.
Qed.

(** ** What a run that succeeds leaves *)

Lemma lookupEntry_removeEntry (name other : string) (d : list DirEntry) :
  name <> other ->
  lookupEntry name (removeEntry other d) = lookupEntry name d.
Proof.
  intros Hne. unfold lookupEntry, removeEntry.
  induction d as [|x d IH]; [reflexivity|].
  rewrite filter_cons_bool. cbn [List.find].
  destruct (String.eqb_spec (Name x) other) as [Ho|Ho]; cbn [negb].
  - rewrite IH. destruct (String.eqb_spec (Name x) name); [congruence|].
    reflexivity.
  - cbn [List.find]. rewrite IH. reflexivity.
Qed.

Lemma forEach_removeBackup_lookup
  (b : Backup) (env : Env) (names : list string) (name : string) (w : World) :
  ~ In name names ->
  lookupEntry name (dest (snd (forEach (removeBackup b env) names w)))
  = lookupEntry name (dest w).
Proof.
  revert w. induction names as [|n names IH]; intros w Hnot; [reflexivity|].
  cbn [forEach]. unfold bind.
  assert (Hstep : lookupEntry name (dest (snd (removeBackup b env n w)))
                  = lookupEntry name (dest w)).
  { unfold removeBackup, bind, log, call, getWorld, setDest.
    cbn beta iota zeta. destruct (removeAllFails env _); cbn [snd dest];
      [reflexivity|].
    apply lookupEntry_removeEntry. intros ->. apply Hnot. left. reflexivity. }
  destruct (removeBackup b env n w) as [[err|[]] w1]; cbn [snd] in *;
    [exact Hstep|].
  rewrite IH; [exact Hstep|]. intros H. apply Hnot. right. exact H.
Qed.

Lemma cleanupOldBackups_pointer (b : Backup) (env : Env) (w : World) :
  lookupEntry "latest" (dest (snd (cleanupOldBackups b env w)))
  = lookupEntry "latest" (dest w).
Proof.
  unfold cleanupOldBackups.
  destruct (Keep (config b) <=? 0); [reflexivity|].
  unfold bind, getWorld. cbn beta iota.
  destruct (readDirFails env); [reflexivity|].
  apply forEach_removeBackup_lookup. intros H.
  apply backupsToRemove_finalized, finalizedNames_entry in H.
  destruct H as (e & _ & Hname & Hb). unfold isBackup in Hb.
  rewrite Hname in Hb. cbn in Hb. rewrite andb_false_r in Hb. discriminate.
Qed.

Lemma finalizeBackup_value (b b' : Backup) (env : Env) (w w' : World) :
  finalizeBackup b env w = (inr b', w') ->
  timestamp b' = timestamp b /\ latestLink b' = latestLink b.
Proof.
  unfold finalizeBackup. destruct (DryRun (config b)).
  - intros [= <- _]. split; reflexivity.
  - unfold bind, call, getWorld, setDest, log, ret, fail. cbn beta iota zeta.
    destruct (renameEntry env _ _ _); [|discriminate].
    intros [= <- _]. split; reflexivity.
Qed.

(** One step of a sequence that returned a value. *)
Ltac bind_step H a w1 E :=
  match type of H with
  | bind ?m ?k ?w = (inr _, _) =>
      destruct (m w) as [[?e|a] w1] eqn:E;
      [rewrite (bind_err _ _ _ _ _ E) in H; discriminate H
      |rewrite (bind_ok _ _ _ _ _ E) in H]
  end.

Lemma snapshotStage_value (b b' : Backup) (env : Env) (w w' : World) :
  snapshotStage b env w = (inr b', w') ->
  timestamp b' = timestamp b /\ latestLink b' = latestLink b.
Proof.
  intros H. unfold snapshotStage in H.
  bind_step H u1 w1 E1. bind_step H u2 w2 E2. bind_step H b1 w3 E3.
  bind_step H lastBackup w4 E4. bind_step H u5 w5 E5.
  bind_step H u6 w6 E6. bind_step H u7 w7 E7.
  apply wrap_value in E3, H.
  destruct (findRsync_value _ _ _ _ _ E3) as (_ & Ht & Hl & _).
  destruct (finalizeBackup_value _ _ _ _ _ H) as [Ht' Hl'].
  split; congruence.
Qed.

(** X15: when [Run] returns without an error, for a run whose pointer is
    the child [latest] of the destination, that child is a symbolic link to
    the time stamp of the run: the sweep that follows the update of the
    pointer never removes it, whether it fails or not. *)
Theorem successful_run_publishes_its_snapshot
  (b : Backup) (env : Env) (w w' : World) :
  childName (latestLink b) = "latest" ->
  Run b env w = (inr tt, w') ->
  lookupEntry "latest" (dest w')
  = Some {| Name := "latest"; Kind := KSymlink (timestamp b) |}.
Proof.
  intros Hname Hrun.
  destruct (preflight b env w) as [[e|[]] w1] eqn:Ep.
  - unfold Run in Hrun. rewrite (bind_err _ _ _ _ _ Ep) in Hrun.
    discriminate Hrun.
  - rewrite (Run_under_lock _ _ _ _ Ep) in Hrun.
    destruct (snapshotStage b env w1) as [[e|b2] w2] eqn:Es.
    + rewrite (bind_err _ _ _ _ _ Es) in Hrun. discriminate Hrun.
    + rewrite (bind_ok _ _ _ _ _ Es) in Hrun.
      destruct (snapshotStage_value _ _ _ _ _ Es) as [Ht Hl].
      destruct (updateLatestLink b2 env w2) as [[e|[]] w3] eqn:Eu.
      * rewrite (publishStage_link_error _ _ _ _ _ Eu) in Hrun.
        discriminate Hrun.
      * pose proof (updateLatestLink_pointer _ _ _ _ Eu) as Hp.
        rewrite Hl, Hname, Ht in Hp.
        pose proof (cleanupOldBackups_pointer b2 env w3) as Hc.
        rewrite (publishStage_link_ok _ _ _ _ Eu) in Hrun.
        destruct (cleanupOldBackups b2 env w3) as [[err|[]] w4];
          cbn [snd] in Hc; apply (f_equal snd) in Hrun; cbn [snd] in Hrun;
          subst w'; unfold removeLock; destruct (removeAllFails env _);
          cbn [snd log call setLock dest]; rewrite Hc; exact Hp.
Qed.

Lemma successful_run_publishes_its_snapshot_witness :
  fst (Run Sample.backup (Sample.env "40%") (Sample.world Sample.twoSnapshots))
  = inr tt
  /\ lookupEntry "latest"
       (dest (snd (Run Sample.backup (Sample.env "40%")
                     (Sample.world Sample.twoSnapshots))))
     = Some {| Name := "latest"; Kind := KSymlink "CEST_2025-10-03_13.14.08" |}.
Proof.
  split; [vm_compute; reflexivity|].
  destruct (Run Sample.backup (Sample.env "40%")
              (Sample.world Sample.twoSnapshots)) as [r w'] eqn:E.
  assert (Hr : r = inr tt)
    by (apply (f_equal fst) in E; vm_compute in E; congruence).
  subst r.
  exact (successful_run_publishes_its_snapshot Sample.backup
           (Sample.env "40%") (Sample.world Sample.twoSnapshots) w'
           eq_refl E).
Defined.

(** ** The transfer *)

Lemma rsyncArgs_total (b : Backup) (env : Env) (lastBackup : string) :
  raises (fun _ => False) (rsyncArgs b env lastBackup).
Proof. unfold rsyncArgs, getRsyncVersion. errors. Qed.

Lemma rsyncEffect_total (env : Env) (argv : list string) :
  raises (fun _ => False) (rsyncEffect env argv).
Proof. unfold rsyncEffect. errors. Qed.

(** X16: [runRsync] trusts the exit status of the child alone: it succeeds
    exactly when rsync starts and exits with status 0, whatever rsync
    printed and whatever it left in the snapshot directory; when the pipes
    cannot be made the child is never started, and a status other than 0 is
    the error of the run even when files were transferred. *)
Theorem runRsync_succeeds_on_exit_zero
  (b : Backup) (env : Env) (lastBackup : string) (w : World) :
  fst (runRsync b env lastBackup w)
  = match rsyncStatus env with
    | PipeFails => inl ProcessPipeError
    | StartFails => inl ProcessStartError
    | ExitNonZero => inl ProcessExecutionError
    | ExitZero => inr tt
    end
  /\ (rsyncStatus env = PipeFails ->
      calls (snd (runRsync b env lastBackup w))
      = calls (snd (rsyncArgs b env lastBackup w))).
Proof.
  pose proof (rsyncArgs_total b env lastBackup w) as Hargs.
  destruct (rsyncArgs b env lastBackup w) as [[e|argv] w1] eqn:E;
    [destruct (Hargs e eq_refl)|].
  unfold runRsync. rewrite (bind_ok _ _ _ _ _ E). cbn [snd].
  unfold bind, log, call, fail. cbn beta iota.
  destruct (rsyncStatus env).
  - split; reflexivity.
  - split; [reflexivity|discriminate].
  - split; [|discriminate].
    match goal with
    | |- context [rsyncEffect env argv ?w2] =>
        pose proof (rsyncEffect_total env argv w2) as Heff;
        destruct (rsyncEffect env argv w2) as [[e|[]] w3];
        [destruct (Heff e eq_refl)|reflexivity]
    end.
  - split; [|discriminate].
    match goal with
    | |- context [rsyncEffect env argv ?w2] =>
        pose proof (rsyncEffect_total env argv w2) as Heff;
        destruct (rsyncEffect env argv w2) as [[e|[]] w3];
        [destruct (Heff e eq_refl)|reflexivity]
    end.
Qed.

(** ** What a real run that succeeds has done *)

Lemma grows_refl (w : World) : grows w w.
Proof. split; exists []; rewrite app_nil_r; reflexivity. Qed.

Lemma grows_trans (w1 w2 w3 : World) : grows w1 w2 -> grows w2 w3 -> grows w1 w3.
Proof.
  intros [[o1 Ho1] [c1 Hc1]] [[o2 Ho2] [c2 Hc2]]. split.
  - exists (o1 ++ o2). rewrite Ho2, Ho1, app_assoc. reflexivity.
  - exists (c1 ++ c2). rewrite Hc2, Hc1, app_assoc. reflexivity.
Qed.

Lemma grows_log (fmt : string) (a : list Arg) : always grows (log fmt a).
Proof.
  intros w. split; [eexists; reflexivity|].
  exists []. rewrite app_nil_r. reflexivity.
Qed.

Lemma grows_call (c : Call) : always grows (call c).
Proof.
  intros w. split; [|eexists; reflexivity].
  exists []. rewrite app_nil_r. reflexivity.
Qed.

Lemma grows_setDest (d : list DirEntry) : always grows (setDest d).
Proof. intros w. split; exists []; rewrite app_nil_r; reflexivity. Qed.

Lemma grows_In (w w' : World) :
  grows w w' ->
  (forall line, In line (output w) -> In line (output w'))
  /\ (forall c, In c (calls w) -> In c (calls w')).
Proof.
  intros [[o Ho] [c Hc]]. rewrite Ho, Hc.
  split; intros x Hx; apply in_or_app; left; exact Hx.
Qed.

Ltac frame_grows :=
  repeat first
    [ apply always_ret; exact grows_refl
    | apply always_fail; exact grows_refl
    | apply always_getWorld; exact grows_refl
    | apply always_wrap
    | apply grows_log
    | apply grows_call
    | apply grows_setDest
    | apply always_bind; [exact grows_trans| |intros ?]
    | match goal with
      | |- always _ (match ?x with _ => _ end) => destruct x
      end ].

Lemma publishStage_grows (b : Backup) (env : Env) :
  always grows (publishStage b env).
Proof.
  unfold publishStage, updateLatestLink.
  apply always_bind; [exact grows_trans|frame_grows|intros _].
  apply always_bind; [exact grows_trans| |intros _; apply grows_log].
  assert (Hsweep : always grows (cleanupOldBackups b env)).
  { unfold cleanupOldBackups. frame_grows.
    apply always_forEach; [exact grows_refl|exact grows_trans|].
    intros name. unfold removeBackup. frame_grows. }
  intros w. specialize (Hsweep w).
  destruct (cleanupOldBackups b env w) as [[err|[]] w1]; cbn [snd] in *;
    [|exact Hsweep].
  exact (grows_trans _ _ _ Hsweep (grows_log _ _ w1)).
Qed.

Lemma removeLock_grows (b : Backup) (env : Env) (w : World) :
  grows w (removeLock b env w).
Proof.
  unfold removeLock. split.
  - exists []. rewrite app_nil_r. destruct (removeAllFails env _); reflexivity.
  - eexists. destruct (removeAllFails env _); reflexivity.
Qed.

Lemma verifyBackup_counted (b : Backup) (w w' : World) :
  DryRun (config b) = false ->
  verifyBackup b w = (inr tt, w') ->
  exists items,
    (0 < items)%nat
    /\ lookupEntry (childName (snapDir b)) (dest w)
       = Some {| Name := childName (snapDir b); Kind := KDir items |}
    /\ In {| format := "Backup verification: %d items in backup";
             args := [AInt (Z.of_nat items)] |} (output w').
Proof.
  intros Hdry. unfold verifyBackup. rewrite Hdry.
  unfold bind, getWorld, fail, log. cbn beta iota.
  destruct (lookupEntry (childName (snapDir b)) (dest w)) as [[name kind]|]
    eqn:El; [|discriminate].
  assert (Hname : name = childName (snapDir b)).
  { unfold lookupEntry in El. apply find_some in El. destruct El as [_ El].
    apply String.eqb_eq in El. exact El. }
  subst name. cbn [Kind].
  destruct kind as [items| |]; try discriminate.
  destruct (Nat.eqb_spec items 0); [discriminate|].
  intros [= <-]. exists items. split; [lia|]. split; [reflexivity|].
  cbn [output]. apply in_or_app. right. left. reflexivity.
Qed.

Lemma finalizeBackup_renamed (b b' : Backup) (env : Env) (w w' : World) :
  DryRun (config b) = false ->
  finalizeBackup b env w = (inr b', w') ->
  In (Rename (snapDir b) (Filepath.Join [Destination (config b); timestamp b]))
    (calls w')
  /\ In {| format := "Backup finalized: %s"; args := [AStr (timestamp b)] |}
       (output w')
  /\ (forall line, In line (output w) -> In line (output w')).
Proof.
  intros Hdry. unfold finalizeBackup. rewrite Hdry.
  unfold bind, call, getWorld, setDest, log, ret, fail. cbn beta iota zeta.
  destruct (renameEntry env _ _ _); [|discriminate].
  intros [= _ <-]. cbn [calls output withSnapDir timestamp].
  split; [apply in_or_app; right; left; reflexivity|].
  split; [apply in_or_app; right; left; reflexivity|].
  intros line Hl. apply in_or_app. left. exact Hl.
Qed.

(** X17: a run without the dry-run flag that returns without an error has
    passed verification and finalization: it has logged the number of
    entries, at least one, that it found in its snapshot directory, has
    called [os.Rename] from the in-progress name to the final name of the
    snapshot, and has logged that the snapshot is finalized.  That is all a
    success says: the sweep of the same run may remove the snapshot it has
    just finalized, as it does after a change of zone with a retention
    count of 1, where the run returns without an error, the pointer names
    its snapshot and the snapshot is gone. *)
Theorem successful_real_run_is_verified_and_finalized :
  (forall (b : Backup) (env : Env) (w w' : World),
      DryRun (config b) = false ->
      Run b env w = (inr tt, w') ->
      (exists items,
          (0 < items)%nat
          /\ In {| format := "Backup verification: %d items in backup";
                   args := [AInt (Z.of_nat items)] |} (output w'))
      /\ In (Rename (snapDir b)
               (Filepath.Join [Destination (config b); timestamp b]))
           (calls w')
      /\ In {| format := "Backup finalized: %s";
               args := [AStr (timestamp b)] |} (output w'))
  /\ (DryRun (config Sample.backupSummer) = false
      /\ timestamp Sample.backupSummer = "CEST_2025-03-30_03.00.00"
      /\ fst (Run Sample.backupSummer (Sample.env "40%")
                (Sample.world Sample.winterSnapshot)) = inr tt
      /\ dest (snd (Run Sample.backupSummer (Sample.env "40%")
                      (Sample.world Sample.winterSnapshot)))
         = [Sample.snapshot "CET_2025-03-30_01.59.59";
            {| Name := "latest";
               Kind := KSymlink "CEST_2025-03-30_03.00.00" |}]).
Proof.
  split; [|vm_compute; repeat split].
  intros b env w w' Hdry Hrun.
  destruct (preflight b env w) as [[e|[]] w1] eqn:Ep.
  { unfold Run in Hrun. rewrite (bind_err _ _ _ _ _ Ep) in Hrun.
    discriminate Hrun. }
  rewrite (Run_under_lock _ _ _ _ Ep) in Hrun.
  destruct (snapshotStage b env w1) as [[e|b2] w2] eqn:Es.
  { rewrite (bind_err _ _ _ _ _ Es) in Hrun. discriminate Hrun. }
  rewrite (bind_ok _ _ _ _ _ Es) in Hrun.
  pose proof (publishStage_grows b2 env w2) as Hpub.
  destruct (publishStage b2 env w2) as [r w3]. cbn [fst snd] in *.
  injection Hrun as _ <-.
  destruct (grows_In _ _ (grows_trans _ _ _ Hpub (removeLock_grows b env w3)))
    as [Hout Hcalls].
  unfold snapshotStage in Es.
  bind_step Es u1 v1 E1. bind_step Es u2 v2 E2. bind_step Es b1 v3 E3.
  bind_step Es lastBackup v4 E4. bind_step Es u5 v5 E5.
  bind_step Es u6 v6 E6. bind_step Es u7 v7 E7.
  apply wrap_value in E3, E7, Es. destruct u7.
  destruct (findRsync_value _ _ _ _ _ E3) as (Hs & Ht & _ & Hd & Hdest).
  assert (Hdry1 : DryRun (config b1) = false) by congruence.
  destruct (verifyBackup_counted _ _ _ Hdry1 E7) as (items & Hpos & _ & Hline).
  destruct (finalizeBackup_renamed _ _ _ _ _ Hdry1 Es) as (Hren & Hfin & Hkeep).
  rewrite Hs, Hdest, Ht in Hren. rewrite Ht in Hfin.
  split; [exists items; split; [exact Hpos|apply Hout, Hkeep, Hline]|].
  split; [apply Hcalls, Hren|apply Hout, Hfin].
Qed.

Lemma successful_real_run_is_verified_and_finalized_witness :
  fst (Run Sample.backup (Sample.env "40%") (Sample.world Sample.twoSnapshots))
  = inr tt
  /\ In (Rename "/backups/CEST_2025-10-03_13.14.08_INCOMPLETE"
           "/backups/CEST_2025-10-03_13.14.08")
       (calls (snd (Run Sample.backup (Sample.env "40%")
                      (Sample.world Sample.twoSnapshots)))).
Proof.
  split; [vm_compute; reflexivity|].
  destruct (Run Sample.backup (Sample.env "40%")
              (Sample.world Sample.twoSnapshots)) as [r w'] eqn:E.
  assert (Hr : r = inr tt)
    by (apply (f_equal fst) in E; vm_compute in E; congruence).
  subst r.
  exact (proj1 (proj2 (proj1 successful_real_run_is_verified_and_finalized
                                Sample.backup (Sample.env "40%")
                                (Sample.world Sample.twoSnapshots) w'
                                eq_refl E))).
Defined.

(** ** From one run to the next *)

(** X18: the snapshot one run publishes is the one the next run links
    against: after [updateLatestLink] of a run whose time stamp is a single
    path element, [getLastBackup] of a run with the same pointer returns
    that time stamp, and when the snapshot of that name exists in the
    destination the arguments [runRsync] assembles hold [--link-dest=] with
    its path. *)
Theorem next_run_links_to_published_snapshot
  (b1 b2 : Backup) (env1 env2 : Env) (w w1 : World) :
  updateLatestLink b1 env1 w = (inr tt, w1) ->
  latestLink b2 = latestLink b1 ->
  Filepath.Base (timestamp b1) = timestamp b1 ->
  timestamp b1 <> "(none)" ->
  stat env2 (Filepath.Join [Destination (config b2); timestamp b1]) = StatOk ->
  fst (getLastBackup b2 w1) = inr (timestamp b1)
  /\ exists args,
       fst (rsyncArgs b2 env2 (timestamp b1) w1) = inr args
       /\ In ("--link-dest="
              +:+ Filepath.Join [Destination (config b2); timestamp b1]) args.
Proof.
  intros Hup Hlink Hbase Hnone Hstat.
  pose proof (updateLatestLink_pointer _ _ _ _ Hup) as Hp.
  split.
  - unfold getLastBackup, bind, getWorld. cbn beta iota zeta.
    rewrite Hlink, Hp, Hbase. reflexivity.
  - eexists. split; [apply rsyncArgs_vector|].
    unfold argVector, priorSnapshot.
    destruct (String.eqb_spec (timestamp b1) "(none)"); [contradiction|].
    rewrite Hstat.
    do 4 (apply in_or_app; right). apply in_or_app. left. left. reflexivity.
Qed.

Lemma next_run_links_to_published_snapshot_witness :
  timestamp (NewBackup Sample.cfg Sample.dayBefore) = "CEST_2025-10-02_13.14.08"
  /\ fst (getLastBackup Sample.backup
            (snd (updateLatestLink (NewBackup Sample.cfg Sample.dayBefore)
                    (Sample.env "40%") (Sample.world []))))
     = inr "CEST_2025-10-02_13.14.08"
  /\ exists args,
       fst (rsyncArgs Sample.backup (Sample.env "40%")
              "CEST_2025-10-02_13.14.08"
              (snd (updateLatestLink (NewBackup Sample.cfg Sample.dayBefore)
                      (Sample.env "40%") (Sample.world []))))
       = inr args
       /\ In "--link-dest=/backups/CEST_2025-10-02_13.14.08" args.
Proof.
  split; [vm_compute; reflexivity|].
  destruct (updateLatestLink (NewBackup Sample.cfg Sample.dayBefore)
              (Sample.env "40%") (Sample.world [])) as [r w1] eqn:E.
  assert (Hr : r = inr tt)
    by (apply (f_equal fst) in E; vm_compute in E; congruence).
  subst r. cbn [snd].
  apply (next_run_links_to_published_snapshot
           (NewBackup Sample.cfg Sample.dayBefore) Sample.backup
           (Sample.env "40%") (Sample.env "40%") (Sample.world []) w1 E);
    try reflexivity.
  vm_compute. discriminate.
Defined.
